(** * The task lifecycle state machine of the legacy automation agency

    A shallow embedding of [src/queue.js] (class [TaskQueue]), of the parts of
    [src/gemini-orchestrator.js] that the scheduler calls ([callGeminiJSON],
    [planExecution], [architectTask], [verifyResult]) and of the task
    construction of [src/server.js], followed by the properties of the
    envelope that the specification states about them.  After these come the
    model call of the orchestrator ([callGemini]), the Executor
    ([src/openclaw-bridge.js]) and the outreach pipeline ([src/outreach.js]),
    with properties of the scheduler as a whole and of these collaborators.

    JavaScript runs the scheduler on one thread: code between two [await]s is
    atomic.  A pass of [processTask] is therefore cut at its three awaited
    collaborator calls, and the scheduler is a transition system whose events
    are a submission, a timer tick, or the settling of one awaited call. *)

From Stdlib Require Import ZArith QArith Lia Ascii String.
From stdpp Require Import base option list strings gmap.
From stdpp Require Import pretty.

Open Scope string_scope.
Open Scope list_scope.
Open Scope nat_scope.
Set Warnings "-register-all".

(** ** JavaScript values *)

(** The values that [JSON.parse] produces, which are also the values the
    Executor returns.  A number is kept as the rational it denotes; an object
    as its properties in insertion order ([JSON.parse] leaves one property per
    key). *)
Inductive json : Type :=
| JNull
| JBool (b : bool)
| JNum (q : Q)
| JStr (s : string)
| JArr (items : list json)
| JObj (props : list (string * json)).

(** [o.k] on an association list; [None] is [undefined]. *)
Fixpoint assoc (k : string) (props : list (string * json)) : option json :=
  match props with
  | [] => None
  | (k', v) :: rest => if String.eqb k k' then Some v else assoc k rest
  end.

(** [v.k] for a value that is not [null] ([null.k] raises a TypeError and is
    handled where it can occur).  Primitives and arrays have none of the
    property names read by the orchestrator. *)
Definition prop (v : json) (k : string) : option json :=
  match v with
  | JObj props => assoc k props
  | _ => None
  end.

(** ToBoolean of a value. *)
Definition truthy (v : json) : bool :=
  match v with
  | JNull => false
  | JBool b => b
  | JNum q => negb (Qnum q =? 0)%Z
  | JStr s => negb (String.eqb s "")
  | JArr _ => true
  | JObj _ => true
  end.

(** ToBoolean of a possibly missing property. *)
Definition truthy_opt (v : option json) : bool :=
  match v with
  | Some v => truthy v
  | None => false
  end.

(** [v === null] *)
Definition is_null (v : json) : bool :=
  match v with
  | JNull => true
  | _ => false
  end.

(** [v === 'lit'] for a possibly missing property. *)
Definition is_str (lit : string) (v : option json) : bool :=
  match v with
  | Some (JStr s) => String.eqb s lit
  | _ => false
  end.

(** A promise that has settled: rejected with an [Error] carrying a message,
    or fulfilled with a value. *)
Inductive settled (A : Type) : Type :=
| Rejected (message : string)
| Fulfilled (value : A).
Arguments Rejected {A} message.
Arguments Fulfilled {A} value.

(** ** Task and envelope (server.js, the object literal of [app.post])

    The three counters of the envelope start at 0 and only ever grow by one,
    far below 2^53, where the numbers of JavaScript are exact: they are
    natural numbers here.  The status takes the nine string literals that
    server.js and queue.js assign to it.  The mode is whatever the classifier
    answered, so it is a value, compared with the three mode names. *)

Definition EXECUTE : json := JStr "EXECUTE".
Definition SUPERVISE : json := JStr "SUPERVISE".
Definition ARCHITECT : json := JStr "ARCHITECT".

Record Envelope : Type := mkEnvelope {
  ttl_max : nat;
  hops : nat;
  mode : json;
  state_hashes : list json;
  consecutive_failures : nat;
  consecutive_successes : nat;
  escalated : bool;
  session_ids : list json;
  mcp_cache_key : string
}.

Inductive Status : Type :=
| received | classifying | planned | executing | verifying
| completed | retrying | needs_human | dead_lettered.

Record Task : Type := mkTask {
  id : string;
  description : option json;
  software_name : json;
  task_type : json;
  documents : list json;
  status : Status;
  created_at : string;
  source : option json;
  plan : option json;
  result : option json;
  verification : option json;
  last_error : option string;
  envelope : Envelope
}.

(** Field assignments. *)
Definition set_hops (n : nat) (e : Envelope) : Envelope :=
  mkEnvelope (ttl_max e) n (mode e) (state_hashes e) (consecutive_failures e)
    (consecutive_successes e) (escalated e) (session_ids e) (mcp_cache_key e).
Definition set_mode (m : json) (e : Envelope) : Envelope :=
  mkEnvelope (ttl_max e) (hops e) m (state_hashes e) (consecutive_failures e)
    (consecutive_successes e) (escalated e) (session_ids e) (mcp_cache_key e).
Definition set_consecutive_failures (n : nat) (e : Envelope) : Envelope :=
  mkEnvelope (ttl_max e) (hops e) (mode e) (state_hashes e) n
    (consecutive_successes e) (escalated e) (session_ids e) (mcp_cache_key e).
Definition set_consecutive_successes (n : nat) (e : Envelope) : Envelope :=
  mkEnvelope (ttl_max e) (hops e) (mode e) (state_hashes e) (consecutive_failures e)
    n (escalated e) (session_ids e) (mcp_cache_key e).
Definition set_escalated (b : bool) (e : Envelope) : Envelope :=
  mkEnvelope (ttl_max e) (hops e) (mode e) (state_hashes e) (consecutive_failures e)
    (consecutive_successes e) b (session_ids e) (mcp_cache_key e).

Definition set_status (s : Status) (t : Task) : Task :=
  mkTask (id t) (description t) (software_name t) (task_type t) (documents t) s
    (created_at t) (source t) (plan t) (result t) (verification t) (last_error t)
    (envelope t).
Definition set_plan (p : json) (t : Task) : Task :=
  mkTask (id t) (description t) (software_name t) (task_type t) (documents t)
    (status t) (created_at t) (source t) (Some p) (result t) (verification t)
    (last_error t) (envelope t).
Definition set_result (r : json) (t : Task) : Task :=
  mkTask (id t) (description t) (software_name t) (task_type t) (documents t)
    (status t) (created_at t) (source t) (plan t) (Some r) (verification t)
    (last_error t) (envelope t).
Definition set_verification (v : json) (t : Task) : Task :=
  mkTask (id t) (description t) (software_name t) (task_type t) (documents t)
    (status t) (created_at t) (source t) (plan t) (result t) (Some v)
    (last_error t) (envelope t).
Definition set_last_error (m : string) (t : Task) : Task :=
  mkTask (id t) (description t) (software_name t) (task_type t) (documents t)
    (status t) (created_at t) (source t) (plan t) (result t) (verification t)
    (Some m) (envelope t).
Definition on_envelope (f : Envelope -> Envelope) (t : Task) : Task :=
  mkTask (id t) (description t) (software_name t) (task_type t) (documents t)
    (status t) (created_at t) (source t) (plan t) (result t) (verification t)
    (last_error t) (f (envelope t)).

(** The envelope of a new task, as both creation sites of server.js write it. *)
Definition new_envelope (taskId : string) (m : json) : Envelope :=
  {| ttl_max := 10;
     hops := 0;
     mode := m;
     state_hashes := [];
     consecutive_failures := 0;
     consecutive_successes := 0;
     escalated := false;
     session_ids := [];
     mcp_cache_key := (taskId ++ "-cache")%string |}.

(** ** The orchestrator's JSON boundary (gemini-orchestrator.js) *)

(** [s.replace(/FENCE\n?/g, '')] for a literal [fence]: scanning from the left,
    every occurrence of [fence], with the line feed that may follow it, is
    dropped.  [skip] counts the characters of the current occurrence that are
    still to be dropped. *)
Fixpoint replace_fence (fence : string) (skip : nat) (s : string) : string :=
  match s with
  | EmptyString => EmptyString
  | String c rest =>
      match skip with
      | S k => replace_fence fence k rest
      | O =>
          if String.prefix fence s
          then replace_fence fence
                 (pred (String.length fence) +
                  match String.get (String.length fence) s with
                  | Some "010"%char => 1
                  | _ => 0
                  end) rest
          else String c (replace_fence fence O rest)
      end
  end.

(** What the scheduler writes to disk.  [saveTask] and [deadLetter] serialise
    the task as it is at the call and swallow their own I/O errors, so a
    write is recorded as the snapshot it attempts. *)
Inductive write : Type :=
| SaveTask (snapshot : Task)
| DeadLetter (snapshot : Task).

(** The two entry points of the Executor (openclaw-bridge.js).  Both read
    [task.id] only and return a result object or raise. *)
Inductive executor_entry : Type := executeTask | superviseTask.

(** Where a pass of [processTask] is suspended. *)
Inductive phase : Type :=
| Planning                                        (* await gemini.planExecution(task) *)
| Executing (entry : executor_entry) (plan : json) (* await openclaw.executeTask / superviseTask *)
| Architecting                                    (* await gemini.architectTask(task) *)
| Verifying (result : json).                      (* await gemini.verifyResult(task, result) *)

(** What the code that runs between two suspensions leaves behind: the pass
    waits again, or it has ended and the task went back to [queue], to [done],
    or to neither.  In the three last cases [processing.delete(task.id)] ran. *)
Inductive outcome : Type :=
| Await (ph : phase)
| Requeued
| Finished
| Released.

Definition pass_step : Type := Task * list write * outcome.

(** The answer to an awaited call. *)
Inductive reply : Type :=
| FromGemini (r : settled string)
| FromExecutor (r : settled json).

(** The built-ins of the language that the code relies on: [JSON.parse],
    where [None] stands for a SyntaxError; [String.prototype.trim]; and
    ToString, the conversion of a value inside a template literal.  ToString
    raises a TypeError on an object without a callable [toString], such as
    [JSON.parse] makes of an object with a property [toString] that holds a
    number, and on an array that holds one. *)
Class Builtins : Type := {
  JSON_parse : string -> option json;
  trim : string -> string;
  ToString : json -> settled string
}.

Section Scheduler.

Context {builtins : Builtins}.

(** [${v}] for a property that may be missing. *)
Definition text_of (v : option json) : settled string :=
  match v with
  | None => Fulfilled "undefined"
  | Some v => ToString v
  end.

(** [${v || 'lit'}]: the literal stands in for a falsy value. *)
Definition text_or (v : option json) (lit : string) : settled string :=
  match v with
  | Some x => if truthy x then ToString x else Fulfilled lit
  | None => Fulfilled lit
  end.

(** A value that a template literal can print. *)
Definition printable (v : option json) : Prop :=
  ∃ s, text_of v = Fulfilled s.

(** A log line or a prompt prints [text], then the code goes on with [k]. *)
Definition after_printing {A : Type} (text : settled string) (k : settled A)
    : settled A :=
  match text with
  | Rejected m => Rejected m
  | Fulfilled _ => k
  end.

Definition strip_fences (raw : string) : string :=
  trim (replace_fence "```" 0 (replace_fence "```json" 0 raw)).

(** [callGeminiJSON], given how [callGemini] settled. *)
Definition callGeminiJSON (r : settled string) : settled json :=
  match r with
  | Rejected m => Rejected m
  | Fulfilled raw =>
      let cleaned := strip_fences raw in
      match JSON_parse cleaned with
      | Some v => Fulfilled v
      | None => Fulfilled (JObj [("raw", JStr cleaned)])
      end
  end.

(** The three entry points below are given how their [callGemini] settled:
    the prompt has been built by then, so the task fields it prints (the
    description, the software name, the task type, the mode) have been
    converted without a TypeError.  What the entry point prints afterwards,
    in its log line, comes from the answer and may fail to print. *)

(** [plan.steps?.length] for a plan other than [null]. *)
Definition steps_length (plan : json) : option json :=
  match prop plan "steps" with
  | Some (JArr items) => Some (JNum (inject_Z (Z.of_nat (length items))))
  | Some (JStr s) => Some (JNum (inject_Z (Z.of_nat (String.length s))))
  | Some (JObj props) => assoc "length" props
  | _ => None
  end.

(** [planExecution]: the log line reads [plan.steps], a TypeError on [null],
    and prints [plan.steps?.length || 0] and
    [plan.estimated_duration_minutes || '?'] before the plan is returned. *)
Definition planExecution (t : Task) (r : settled string) : settled json :=
  match callGeminiJSON r with
  | Rejected m => Rejected m
  | Fulfilled plan =>
      if is_null plan
      then Rejected "Cannot read properties of null (reading 'steps')"
      else
        after_printing (text_or (steps_length plan) "0")
          (after_printing (text_or (prop plan "estimated_duration_minutes") "?")
             (Fulfilled plan))
  end.

(** [architectTask]: the log line prints [analysis.root_cause] and
    [analysis.confidence]; then the revised plan is swapped in and the mode
    set back to EXECUTE.  A log line that raises leaves the task as it was. *)
Definition architectTask (t : Task) (r : settled string) : Task * settled json :=
  match callGeminiJSON r with
  | Rejected m => (t, Rejected m)
  | Fulfilled analysis =>
      if is_null analysis
      then (t, Rejected "Cannot read properties of null (reading 'root_cause')")
      else
        match after_printing (text_of (prop analysis "root_cause"))
                (text_of (prop analysis "confidence")) with
        | Rejected m => (t, Rejected m)
        | Fulfilled _ =>
            match prop analysis "revised_plan" with
            | Some revised =>
                if truthy revised
                   && negb (truthy_opt (prop analysis "should_escalate_to_human"))
                then (on_envelope (set_mode EXECUTE) (set_plan revised t),
                      Fulfilled analysis)
                else (t, Fulfilled analysis)
            | None => (t, Fulfilled analysis)
            end
        end
  end.

(** The EXPECTED OUTCOME of the prompt of [verifyResult],
    [task.plan?.steps?.slice(-1)?.[0]?.verification || 'Task should complete
    successfully'].  When [steps] is present, not [null], and neither an array
    nor a string, [slice] is not a function; and a truthy [verification] of
    the last step is printed, which may raise.  (The description, printed in
    the same prompt, has been printed by the prompt of [planExecution] in the
    same pass.) *)
Definition expected_outcome (t : Task) : settled string :=
  match plan t with
  | Some p =>
      match prop p "steps" with
      | Some (JBool _) | Some (JNum _) | Some (JObj _) =>
          Rejected "task.plan?.steps?.slice is not a function"
      | Some (JArr items) =>
          match last items with
          | Some step =>
              text_or (prop step "verification") "Task should complete successfully"
          | None => Fulfilled "Task should complete successfully"
          end
      | _ => Fulfilled "Task should complete successfully"
      end
  | None => Fulfilled "Task should complete successfully"
  end.

(** Building the prompt of [verifyResult] raises. *)
Definition verify_prompt_raises (t : Task) : bool :=
  match expected_outcome t with
  | Rejected _ => true
  | Fulfilled _ => false
  end.

(** [verifyResult] once its call settled: the log line reads
    [verification.status], a TypeError on [null], and prints it and
    [verification.reason] before the verdict is returned. *)
Definition verifyResult (t : Task) (result : json) (r : settled string) : settled json :=
  match callGeminiJSON r with
  | Rejected m => Rejected m
  | Fulfilled verification =>
      if is_null verification
      then Rejected "Cannot read properties of null (reading 'status')"
      else
        after_printing (text_of (prop verification "status"))
          (after_printing (text_of (prop verification "reason"))
             (Fulfilled verification))
  end.

(** ** The scheduler's task transitions (queue.js) *)

Definition incr_failures (e : Envelope) : Envelope :=
  set_consecutive_failures (S (consecutive_failures e)) e.
Definition incr_successes (e : Envelope) : Envelope :=
  set_consecutive_successes (S (consecutive_successes e)) e.
Definition incr_hops (e : Envelope) : Envelope :=
  set_hops (S (hops e)) e.
Definition to_architect (e : Envelope) : Envelope :=
  set_escalated true (set_mode ARCHITECT e).
Definition to_execute (e : Envelope) : Envelope :=
  set_escalated false (set_mode EXECUTE e).

(** [handleFailure(task, error)] with [message = error.message]. *)
Definition handleFailure (t : Task) (message : string) : pass_step :=
  let t := on_envelope incr_failures t in
  let t := set_last_error message t in
  if ttl_max (envelope t) <=? hops (envelope t) then
    let t := set_status dead_lettered t in
    (t, [SaveTask t; DeadLetter t], Released)
  else
    let t := if 3 <=? consecutive_failures (envelope t)
             then on_envelope to_architect t else t in
    let t := set_status retrying t in
    (t, [SaveTask t], Requeued).

(** [processTask] up to its first [await]. *)
Definition processTask_begin (t : Task) : pass_step :=
  let t := set_status classifying t in
  (t, [SaveTask t], Await Planning).

(** The [switch] on [task.envelope.mode]. *)
Definition dispatch (m : json) (plan : json) : phase :=
  match m with
  | JStr s =>
      if String.eqb s "EXECUTE" then Executing executeTask plan
      else if String.eqb s "SUPERVISE" then Executing superviseTask plan
      else if String.eqb s "ARCHITECT" then Architecting
      else Executing executeTask plan
  | _ => Executing executeTask plan
  end.

(** [processTask] from the plan to the dispatch of phase 2.  Its log line
    prints the mode, which the prompt of [planExecution] has printed in the
    same pass. *)
Definition processTask_planned (t : Task) (plan : json) : pass_step :=
  let t1 := set_status planned (set_plan plan t) in
  let t2 := on_envelope incr_hops (set_status executing t1) in
  (t2, [SaveTask t1; SaveTask t2], Await (dispatch (mode (envelope t2)) plan)).

(** The three verdict branches of [processTask]. *)
Definition on_PASS (t : Task) (result verification : json) : pass_step :=
  let t := set_status completed t in
  let t := set_result result t in
  let t := set_verification verification t in
  let t := on_envelope incr_successes t in
  let t := on_envelope (set_consecutive_failures 0) t in
  let t := if (2 <=? consecutive_successes (envelope t)) && escalated (envelope t)
           then on_envelope to_execute t else t in
  (t, [SaveTask t], Finished).

Definition on_RETRY (t : Task) : pass_step :=
  let t := on_envelope incr_failures t in
  let t := on_envelope (set_consecutive_successes 0) t in
  if ttl_max (envelope t) <=? hops (envelope t) then
    let t := set_status dead_lettered t in
    (t, [SaveTask t; DeadLetter t], Released)
  else
    let t := if (3 <=? consecutive_failures (envelope t))
                && negb (escalated (envelope t))
             then on_envelope to_architect t else t in
    let t := set_status retrying t in
    (t, [SaveTask t], Requeued).

Definition on_ESCALATE (t : Task) (verification : json) : pass_step :=
  let t := set_status needs_human t in
  let t := set_verification verification t in
  (t, [SaveTask t], Released).

(** [processTask] after [verifyResult]: the test of [verification.status]. *)
Definition processTask_verified (t : Task) (result verification : json) : pass_step :=
  if is_str "PASS" (prop verification "status") then on_PASS t result verification
  else if is_str "RETRY" (prop verification "status") then on_RETRY t
  else on_ESCALATE t verification.

(** [try { await ... } catch (err) { handleFailure(task, err) }] of
    [startProcessing], around the continuation [k] of [processTask]. *)
Definition catch {A : Type} (t : Task) (r : settled A) (k : A -> pass_step) : pass_step :=
  match r with
  | Rejected m => handleFailure t m
  | Fulfilled a => k a
  end.

(** [processTask] from the result of phase 2 to the call of [verifyResult]. *)
Definition processTask_executed (t : Task) (result : json) : pass_step :=
  let t := set_status verifying t in
  match expected_outcome t with
  | Rejected message =>
      let '(t', w, o) := handleFailure t message in
      (t', SaveTask t :: w, o)
  | Fulfilled _ => (t, [SaveTask t], Await (Verifying result))
  end.

(** A suspended pass resumes with the answer to the call it awaits; an answer
    of the wrong collaborator does not occur. *)
Definition resume (t : Task) (ph : phase) (a : reply) : option pass_step :=
  match ph, a with
  | Planning, FromGemini r =>
      Some (catch t (planExecution t r) (processTask_planned t))
  | Executing _ _, FromExecutor r =>
      Some (catch t r (processTask_executed t))
  | Architecting, FromGemini r =>
      let '(t', analysis) := architectTask t r in
      Some (catch t' analysis (processTask_executed t'))
  | Verifying result, FromGemini r =>
      Some (catch t (verifyResult t result r) (processTask_verified t result))
  | _, _ => None
  end.

(** The answers that end a step in the RETRY branch or in [handleFailure]: a
    RETRY verdict, an awaited call that raised, or a TypeError of the code
    that runs after it. *)
Definition retry_class (t : Task) (ph : phase) (a : reply) : bool :=
  match ph, a with
  | Planning, FromGemini r =>
      match planExecution t r with Rejected _ => true | Fulfilled _ => false end
  | Executing _ _, FromExecutor (Rejected _) => true
  | Executing _ _, FromExecutor (Fulfilled _) => verify_prompt_raises t
  | Architecting, FromGemini r =>
      match architectTask t r with
      | (_, Rejected _) => true
      | (t', Fulfilled _) => verify_prompt_raises t'
      end
  | Verifying result, FromGemini r =>
      match verifyResult t result r with
      | Rejected _ => true
      | Fulfilled v => is_str "RETRY" (prop v "status")
      end
  | _, _ => false
  end.

(** One pass of [processTask] taken on its own: the answers to its awaited
    calls arrive in order, until the pass ends or the answers run out. *)
Fixpoint continue_pass (s : pass_step) (answers : list reply) : option pass_step :=
  match s, answers with
  | (t, w, Await ph), a :: rest =>
      '(t', w', o) ← resume t ph a;
      continue_pass (t', w ++ w', o) rest
  | _, _ => Some s
  end.

Definition whole_pass (t : Task) (answers : list reply) : option pass_step :=
  continue_pass (processTask_begin t) answers.

(** The failure handler as the specification words it: the update of a RETRY
    verdict, and the failure's message recorded on the task. *)
Definition retry_equivalent (t : Task) (message : string) : pass_step :=
  on_RETRY (set_last_error message t).

(** ** The scheduler (queue.js, class [TaskQueue]; server.js, the submissions)

    Task objects are shared by reference between [queue], [processing],
    [done] and the running passes, and mutated in place: the model keeps them
    in a store, [heap], indexed by allocation order, and the collections hold
    locations. *)

Record TaskQueue : Type := mkTaskQueue {
  heap : list Task;
  queue : list nat;
  processing : gmap string nat;
  done : list nat;
  maxConcurrent : option Z;          (* [parseInt] of the setting; [None] is NaN *)
  passes : list (nat * phase);       (* the suspended calls of [processTask] *)
  disk : list write
}.

(** [new TaskQueue()]. *)
Definition empty_queue (cap : option Z) : TaskQueue :=
  mkTaskQueue [] [] ∅ [] cap [] [].

(** The server builds the task object and calls [enqueue(task)], which
    pushes it on [queue]. *)
Definition enqueue (t : Task) (q : TaskQueue) : TaskQueue :=
  mkTaskQueue (heap q ++ [t]) (queue q ++ [length (heap q)]) (processing q)
    (done q) (maxConcurrent q) (passes q) (disk q).

(** [x || 'lit'] *)
Definition or_else (v : option json) (lit : string) : json :=
  match v with
  | Some x => if truthy x then x else JStr lit
  | None => JStr lit
  end.

(** The task of [POST /api/tasks]; [docs] are the records made of the
    uploaded files. *)
Definition post_task (taskId : string) (description software_name task_type : option json)
    (docs : list json) (now : string) : Task :=
  {| id := taskId;
     description := description;
     software_name := or_else software_name "unknown";
     task_type := or_else task_type "data-entry";
     documents := docs;
     status := received;
     created_at := now;
     source := None;
     plan := None;
     result := None;
     verification := None;
     last_error := None;
     envelope := new_envelope taskId EXECUTE |}.

(** The task of [POST /api/webhook/openclaw] for a classification that is not
    ['simple']; a missing [type] or [channel] is written as [null] here, as
    [JSON.stringify] leaves it out. *)
Definition webhook_task (taskId : string) (message : option json) (classification : json)
    (src : json) (now : string) : Task :=
  {| id := taskId;
     description := message;
     software_name := or_else (prop classification "software") "unknown";
     task_type := default JNull (prop classification "type");
     documents := [];
     status := received;
     created_at := now;
     source := Some src;
     plan := None;
     result := None;
     verification := None;
     last_error := None;
     envelope := new_envelope taskId (or_else (prop classification "mode") "EXECUTE") |}.

Inductive event : Type :=
| PostTask (taskId : string) (description software_name task_type : option json)
    (docs : list json) (now : string)
| Webhook (taskId : string) (message : option json) (classified : settled string)
    (src : json) (now : string)
| Tick
| Settle (i : nat) (a : reply).

(** The webhook handler: classification, then a task unless the request ends
    in an error ([classifyTask] rejected, or [classification.type] read on
    [null]) or is answered directly. *)
Definition webhook (taskId : string) (message : option json) (classified : settled string)
    (src : json) (now : string) (q : TaskQueue) : TaskQueue :=
  match callGeminiJSON classified with
  | Rejected _ => q
  | Fulfilled JNull => q
  | Fulfilled classification =>
      if is_str "simple" (prop classification "type") then q
      else enqueue (webhook_task taskId message classification src now) q
  end.

(** [this.processing.size >= this.maxConcurrent] is false for NaN. *)
Definition at_capacity (q : TaskQueue) : bool :=
  match maxConcurrent q with
  | Some cap => (cap <=? Z.of_nat (size (processing q)))%Z
  | None => false
  end.

(** The log line of [startProcessing] prints
    [task.description.slice(0, 60)]: the description has to be a string, or
    an array whose first 60 items, joined, can be printed. *)
Definition has_slice (d : option json) : bool :=
  match d with
  | Some (JStr _) => true
  | Some (JArr items) =>
      match ToString (JArr (take 60 items)) with
      | Fulfilled _ => true
      | Rejected _ => false
      end
  | _ => false
  end.

(** One firing of the interval callback of [startProcessing], up to the first
    suspension of [processTask].  When the log line raises, outside the
    [try], the callback ends there with a rejection nobody handles: the task
    stays in [processing] and no pass runs (should the runtime end the
    process on it, no later state exists).  A queued location is always
    allocated; the lookup cannot fail. *)
Definition tick (q : TaskQueue) : option TaskQueue :=
  if at_capacity q then Some q
  else
    match queue q with
    | [] => Some q
    | l :: rest =>
        t ← heap q !! l;
        let active := <[id t := l]> (processing q) in
        if has_slice (description t) then
          let '(t', w, _) := processTask_begin t in
          Some (mkTaskQueue (<[l := t']> (heap q)) rest active (done q)
                  (maxConcurrent q) (passes q ++ [(l, Planning)]) (disk q ++ w))
        else
          Some (mkTaskQueue (heap q) rest active (done q) (maxConcurrent q)
                  (passes q) (disk q))
    end.

(** The state after the code that ran for pass [i] on the task at [l]. *)
Definition commit (l i : nat) (s : pass_step) (q : TaskQueue) : TaskQueue :=
  let '(t, w, o) := s in
  let h := <[l := t]> (heap q) in
  let d := disk q ++ w in
  match o with
  | Await ph =>
      mkTaskQueue h (queue q) (processing q) (done q) (maxConcurrent q)
        (<[i := (l, ph)]> (passes q)) d
  | Requeued =>
      mkTaskQueue h (queue q ++ [l]) (delete (id t) (processing q)) (done q)
        (maxConcurrent q) (delete i (passes q)) d
  | Finished =>
      mkTaskQueue h (queue q) (delete (id t) (processing q)) (done q ++ [l])
        (maxConcurrent q) (delete i (passes q)) d
  | Released =>
      mkTaskQueue h (queue q) (delete (id t) (processing q)) (done q)
        (maxConcurrent q) (delete i (passes q)) d
  end.

(** The awaited call of pass [i] settles and the pass runs to its next
    suspension or to its end. *)
Definition settle (i : nat) (a : reply) (q : TaskQueue) : option TaskQueue :=
  '(l, ph) ← passes q !! i;
  t ← heap q !! l;
  s ← resume t ph a;
  Some (commit l i s q).

Definition step (q : TaskQueue) (e : event) : option TaskQueue :=
  match e with
  | PostTask taskId description software_name task_type docs now =>
      Some (enqueue (post_task taskId description software_name task_type docs now) q)
  | Webhook taskId message classified src now =>
      Some (webhook taskId message classified src now q)
  | Tick => tick q
  | Settle i a => settle i a q
  end.

(** A run of the scheduler; [None] when some event could not occur. *)
Fixpoint run (q : TaskQueue) (es : list event) : option TaskQueue :=
  match es with
  | [] => Some q
  | e :: es' => q' ← step q e; run q' es'
  end.

End Scheduler.

(** ** What holds of a task, by where it is *)

Definition queued_ok (t : Task) : Prop :=
  consecutive_successes (envelope t) = 0
  ∧ hops (envelope t) < ttl_max (envelope t).

Definition running_ok (t : Task) : Prop :=
  consecutive_successes (envelope t) = 0
  ∧ hops (envelope t) ≤ ttl_max (envelope t).

Definition phase_ok (ph : phase) (t : Task) : Prop :=
  match ph with
  | Planning => queued_ok t
  | _ => running_ok t
  end.

Definition task_ok (t : Task) : Prop :=
  hops (envelope t) ≤ ttl_max (envelope t)
  ∧ (consecutive_failures (envelope t) = 0 ∨ consecutive_successes (envelope t) = 0)
  ∧ state_hashes (envelope t) = []
  ∧ session_ids (envelope t) = [].

Definition outcome_ok (o : outcome) (t : Task) : Prop :=
  match o with
  | Await ph => phase_ok ph t
  | Requeued => queued_ok t
  | Finished | Released => True
  end.

Ltac unfold_pass :=
  unfold resume, catch, planExecution, architectTask, verifyResult,
    after_printing, processTask_planned, processTask_executed,
    processTask_verified,
    processTask_begin, handleFailure, on_PASS, on_RETRY, on_ESCALATE in *.

Ltac leb_to_prop :=
  repeat match goal with
  | H : (_ <=? _) = true |- _ => apply Nat.leb_le in H
  | H : (_ <=? _) = false |- _ => apply Nat.leb_gt in H
  | H : (_ && _) = true |- _ => apply andb_true_iff in H; destruct H
  end.


(** ** Well-formed scheduler states *)

(** The locations the scheduler still manages. *)
Definition live (q : TaskQueue) : list nat := queue q ++ (passes q).*1.

Record wf (q : TaskQueue) : Prop := mk_wf {
  wf_nodup : NoDup (live q);
  wf_alloc : ∀ l, l ∈ live q → l < length (heap q);
  wf_active : ∀ k l, processing q !! k = Some l →
                ∃ t, heap q !! l = Some t ∧ id t = k;
  wf_heap : ∀ l t, heap q !! l = Some t → task_ok t;
  wf_queue : ∀ l t, l ∈ queue q → heap q !! l = Some t → queued_ok t;
  wf_pass : ∀ l ph t, (l, ph) ∈ passes q → heap q !! l = Some t → phase_ok ph t
}.

(** The part of [wf] that is about places only: a location is in [queue] or
    in a running pass at most once, and [processing] files a task under its
    own id.  It says nothing of the counters, of [ttl_max] or of the mode. *)
Definition coherent (q : TaskQueue) : Prop :=
  NoDup (live q)
  ∧ ∀ k l, processing q !! k = Some l → ∃ t, heap q !! l = Some t ∧ id t = k.

(** A location the scheduler has let go of. *)
Definition retired (l : nat) (q : TaskQueue) : Prop :=
  l < length (heap q) ∧ (l ∉ live q) ∧ (∀ k, processing q !! k ≠ Some l).


(** ** Sample data for the examples

    A stand-in for [JSON.parse] on the few replies the examples use, and for
    [trim] on replies without surrounding blanks. *)
Definition sample_analysis : json :=
  JObj [("root_cause", JStr "dialog moved");
        ("revised_plan", JObj [("steps", JArr [])]);
        ("should_escalate_to_human", JBool false)].

(** An analysis whose [root_cause] cannot be printed: an object with a
    property [toString] of its own, which is no function. *)
Definition opaque_analysis : json :=
  JObj [("root_cause", JObj [("toString", JNum 1)]);
        ("revised_plan", JObj [("steps", JArr [])]);
        ("should_escalate_to_human", JBool false)].

Definition sample_parse (s : string) : option json :=
  if String.eqb s "PLAN" then Some (JObj [("steps", JArr [])])
  else if String.eqb s "PASS" then Some (JObj [("status", JStr "PASS")])
  else if String.eqb s "RETRY" then Some (JObj [("status", JStr "RETRY")])
  else if String.eqb s "ESCALATE" then Some (JObj [("status", JStr "ESCALATE")])
  else if String.eqb s "REVISED" then Some sample_analysis
  else if String.eqb s "OPAQUE" then Some opaque_analysis
  else if String.eqb s "null" then Some JNull
  else None.

Definition sample_trim (s : string) : string := s.

(** ToString on the values the examples print, whole numbers among them:
    an array prints its items joined by commas, [null] items as nothing; an
    object prints unless it has a property [toString] of its own. *)
Fixpoint sample_ToString (v : json) : settled string :=
  match v with
  | JNull => Fulfilled "null"
  | JBool true => Fulfilled "true"
  | JBool false => Fulfilled "false"
  | JNum q => Fulfilled (pretty (Qnum q))
  | JStr s => Fulfilled s
  | JArr items =>
      (fix join (items : list json) : settled string :=
         match items with
         | [] => Fulfilled ""
         | item :: rest =>
             match (match item with
                    | JNull => Fulfilled ""
                    | _ => sample_ToString item
                    end), join rest with
             | Rejected m, _ => Rejected m
             | _, Rejected m => Rejected m
             | Fulfilled a, Fulfilled b =>
                 Fulfilled match rest with
                           | [] => a
                           | _ => a +:+ "," +:+ b
                           end
             end
         end) items
  | JObj props =>
      match assoc "toString" props with
      | Some _ => Rejected "Cannot convert object to primitive value"
      | None => Fulfilled "[object Object]"
      end
  end.

Definition sample_builtins : Builtins :=
  {| JSON_parse := sample_parse; trim := sample_trim; ToString := sample_ToString |}.

(** A scheduler with the default cap of three and one submitted task. *)
Definition sample_submit : event :=
  PostTask "LEGACY-1" (Some (JStr "enter the invoices")) None None [] "2026-01-05T09:00:00Z".

Definition planned_ok : event := Settle 0 (FromGemini (Fulfilled "PLAN")).
Definition sample_result : json :=
  JObj [("task_id", JStr "LEGACY-1"); ("mode", JStr "EXECUTE"); ("results", JArr [])].
Definition executed_ok : event := Settle 0 (FromExecutor (Fulfilled sample_result)).
Definition analysed_ok : event := Settle 0 (FromGemini (Fulfilled "REVISED")).
Definition verdict (v : string) : event := Settle 0 (FromGemini (Fulfilled v)).

(** A pass in EXECUTE mode and a pass in ARCHITECT mode, up to the verdict. *)
Definition execute_pass : list event := [Tick; planned_ok; executed_ok].
Definition architect_pass : list event := [Tick; planned_ok; analysed_ok].

(** Three RETRY verdicts escalate the task; in the fourth pass the analysis
    brings a revised plan and the mode is EXECUTE again when its verdict is
    awaited. *)
Definition three_retries : list event :=
  sample_submit ::
  execute_pass ++ [verdict "RETRY"] ++
  execute_pass ++ [verdict "RETRY"] ++
  execute_pass ++ [verdict "RETRY"].
Definition fourth_pass : list event := three_retries ++ architect_pass.

(** Hops 1 to 9, each with a RETRY verdict, and hop 10 up to its verdict. *)
Definition nine_retries : list event :=
  fourth_pass ++ [verdict "RETRY"] ++
  execute_pass ++ [verdict "RETRY"] ++
  execute_pass ++ [verdict "RETRY"] ++
  execute_pass ++ [verdict "RETRY"] ++
  execute_pass ++ [verdict "RETRY"] ++
  execute_pass ++ [verdict "RETRY"].
Definition tenth_pass : list event := nine_retries ++ execute_pass.

Definition sample_run (es : list event) : option TaskQueue :=
  run (builtins := sample_builtins) (empty_queue (Some 3%Z)) es.

(** The task as submitted, and the states of the sample runs the examples
    start from, with the task object in each. *)
Definition sample_task : Task :=
  post_task "LEGACY-1" (Some (JStr "enter the invoices")) None None []
    "2026-01-05T09:00:00Z".

Definition state_after (es : list event) : TaskQueue :=
  default (empty_queue None) (sample_run es).
Definition task_after (es : list event) : Task :=
  default sample_task (heap (state_after es) !! 0).

Definition first_verdict_due : TaskQueue :=
  Eval vm_compute in state_after (sample_submit :: execute_pass).
Definition first_verdict_task : Task :=
  Eval vm_compute in task_after (sample_submit :: execute_pass).
Definition escalated_state : TaskQueue :=
  Eval vm_compute in state_after (three_retries ++ [Tick]).
Definition escalated_task : Task :=
  Eval vm_compute in task_after (three_retries ++ [Tick]).
Definition analysis_due : TaskQueue :=
  Eval vm_compute in state_after (three_retries ++ [Tick; planned_ok]).
Definition analysis_task : Task :=
  Eval vm_compute in task_after (three_retries ++ [Tick; planned_ok]).
Definition fourth_verdict_due : TaskQueue :=
  Eval vm_compute in state_after fourth_pass.
Definition fourth_verdict_task : Task :=
  Eval vm_compute in task_after fourth_pass.
Definition tenth_verdict_due : TaskQueue :=
  Eval vm_compute in state_after tenth_pass.
Definition tenth_verdict_task : Task :=
  Eval vm_compute in task_after tenth_pass.

(** Scenario 3 of the specification: a task with [ttl_max = 3] that awaits
    the verdict of its third hop after two RETRY verdicts, not escalated, in
    a scheduler that runs this one pass. *)
Definition short_lived_task : Task :=
  on_envelope
    (λ e, mkEnvelope 3 3 (mode e) (state_hashes e) 2 0 false (session_ids e)
            (mcp_cache_key e))
    first_verdict_task.
Definition short_lived_due : TaskQueue :=
  mkTaskQueue [short_lived_task] [] {[ "LEGACY-1" := 0 ]} [] (Some 3%Z)
    [(0, Verifying sample_result)] [].

(** A task with one success on record since its escalation, as the PASS
    branch would meet it if a completed task were ever verified again. *)
Definition recovering_task : Task :=
  on_envelope (set_consecutive_successes 1) fourth_verdict_task.


(** * Further definitions *)


(** ** The counters of the scheduler and the status of a task by its place

    (queue.js, [pending], [completed], [active]; the status literals that
    [processTask] and [handleFailure] assign.) *)

Definition pending (q : TaskQueue) : nat := length (queue q).
Definition completed_count (q : TaskQueue) : nat := length (done q).
Definition active (q : TaskQueue) : nat := size (processing q).

(** The three statuses after which the scheduler keeps no reference. *)
Definition terminal (s : Status) : bool :=
  match s with
  | completed | needs_human | dead_lettered => true
  | _ => false
  end.

(** The two statuses of a task that waits in [queue]. *)
Definition waiting (s : Status) : bool :=
  match s with
  | received | retrying => true
  | _ => false
  end.

(** The status a task has while its pass is suspended at a phase. *)
Definition status_of (ph : phase) : Status :=
  match ph with
  | Planning => classifying
  | Executing _ _ => executing
  | Architecting => executing
  | Verifying _ => verifying
  end.

(** Status and place agree. *)
Record tracked {builtins : Builtins} (q : TaskQueue) : Prop := mk_tracked {
  tr_queue : ∀ l t, l ∈ queue q → heap q !! l = Some t → waiting (status t) = true;
  tr_pass : ∀ l ph t, (l, ph) ∈ passes q → heap q !! l = Some t →
              status t = status_of ph;
  tr_active : ∀ k l t, processing q !! k = Some l → heap q !! l = Some t →
                terminal (status t) = false;
  tr_done : ∀ l, l ∈ done q ↔ ∃ t, heap q !! l = Some t ∧ status t = completed;
  tr_done_nodup : NoDup (done q);
  tr_account : ∀ l t, heap q !! l = Some t →
                 l ∈ live q
                 ∨ terminal (status t) = true
                 ∨ (waiting (status t) = true ∧ has_slice (description t) = false)
}.

(** A task as one of the two submission handlers builds it. *)
Definition submitted (t : Task) : Prop :=
  status t = received
  ∧ plan t = None ∧ result t = None ∧ verification t = None ∧ last_error t = None
  ∧ ∃ m, envelope t = new_envelope (id t) m.

(** How [hops], the failure streak and [escalated] stand to each other, by
    the status of the task. *)
Definition streak_ok (t : Task) : Prop :=
  ttl_max (envelope t) = 10
  ∧ match status t with
    | received | retrying | classifying | dead_lettered =>
        hops (envelope t) ≤ consecutive_failures (envelope t)
    | planned | executing | verifying | needs_human =>
        hops (envelope t) ≤ S (consecutive_failures (envelope t))
    | completed => True
    end
  ∧ (status t ≠ completed →
       (escalated (envelope t) = true ↔ 3 ≤ consecutive_failures (envelope t)))
  ∧ (status t = dead_lettered → ttl_max (envelope t) ≤ hops (envelope t)).

(** A task that nothing has touched since its submission. *)
Definition untouched {builtins : Builtins} (t : Task) : Prop :=
  has_slice (description t) = false → submitted t.

(** The tasks of a store that have completed. *)
Definition is_completed (t : Task) : bool :=
  match status t with
  | completed => true
  | _ => false
  end.

(** No two task objects of the store carry the same id. *)
Definition unique_ids (h : list Task) : Prop :=
  ∀ l1 l2 t1 t2, h !! l1 = Some t1 → h !! l2 = Some t2 → id t1 = id t2 → l1 = l2.

(** A pass whose planning call fails, and [n] such passes in a row. *)
Definition planning_fails (message : string) : list event :=
  [Tick; Settle 0 (FromGemini (Rejected message))].

Fixpoint failing_rounds (message : string) (n : nat) : list event :=
  match n with
  | 0 => []
  | S k => failing_rounds message k ++ planning_fails message
  end.

(** ** The model call (gemini-orchestrator.js, [callGemini])

    What [fetch] resolves to, as far as the orchestrator looks at it: the two
    fields it reads and how the two body readers settle. *)
Record Response : Type := mkResponse {
  ok : bool;
  http_status : nat;                 (* [response.status] *)
  body_text : settled string;        (* [await response.text()] *)
  body_json : settled json           (* [await response.json()] *)
}.

(** [v?.[0]] on a value that is not [null]: the first item of an array, the
    first character of a string, the property [0] of an object. *)
Definition first_item (v : json) : option json :=
  match v with
  | JArr items => head items
  | JStr (String c _) => Some (JStr (String c ""))
  | JObj props => assoc "0" props
  | _ => None
  end.

(** One link [?.] of an optional chain: [null] and [undefined] end it. *)
Definition and_then (v : option json) (f : json → option json) : option json :=
  match v with
  | None | Some JNull => None
  | Some x => f x
  end.

(** [data.candidates?.[0]?.content?.parts?.[0]?.text] for [data] other than
    [null]. *)
Definition answer_text (data : json) : option json :=
  and_then (and_then (and_then (and_then (and_then (prop data "candidates")
    first_item) (λ c, prop c "content")) (λ c, prop c "parts"))
    first_item) (λ p, prop p "text").

(** [callGemini], given how [fetch] settled.  The value returned is the text
    of the first part of the first candidate, whatever its type, or [''] in
    place of a falsy one. *)
Definition callGemini (fetched : settled Response) : settled json :=
  match fetched with
  | Rejected m => Rejected m
  | Fulfilled response =>
      if ok response then
        match body_json response with
        | Rejected m => Rejected m
        | Fulfilled JNull =>
            Rejected "Cannot read properties of null (reading 'candidates')"
        | Fulfilled data => Fulfilled (or_else (answer_text data) "")
        end
      else
        match body_text response with
        | Rejected m => Rejected m
        | Fulfilled err =>
            Rejected ("Gemini API error (" +:+ pretty (http_status response)
                      +:+ "): " +:+ err)
        end
  end.

(** The first statement of [callGeminiJSON] after the call: [raw.replace]
    exists on a string only. *)
Definition raw_text (r : settled json) : settled string :=
  match r with
  | Rejected m => Rejected m
  | Fulfilled (JStr raw) => Fulfilled raw
  | Fulfilled _ => Rejected "raw.replace is not a function"
  end.

(** The answer of the orchestrator to an awaited call of the scheduler. *)
Definition gemini_reply (fetched : settled Response) : reply :=
  FromGemini (raw_text (callGemini fetched)).

(** Whether a text contains [p], and whether it contains a backtick. *)
Fixpoint occurs (p s : string) : bool :=
  String.prefix p s
  || match s with
     | EmptyString => false
     | String _ rest => occurs p rest
     end.

Fixpoint no_backtick (s : string) : bool :=
  match s with
  | EmptyString => true
  | String c rest => negb (Ascii.eqb c "`") && no_backtick rest
  end.

(** ** The Executor (openclaw-bridge.js) *)

(** An object literal leaves out a property here when its value is
    [undefined]: reading it gives [undefined] either way, and
    [JSON.stringify] omits it. *)
Definition field (k : string) (v : option json) : list (string * json) :=
  match v with
  | Some x => [(k, x)]
  | None => []
  end.

(** [path || null] *)
Definition or_null (v : option string) : json :=
  match v with
  | Some s => JStr s
  | None => JNull
  end.

Definition dquote : string := String (ascii_of_nat 34) "".
Definition backslash : string := String (ascii_of_nat 92) "".
Definition newline : string := String "010"%char "".

(** The [replace] of [spawnClaudeSession]: a backslash goes before every
    double quote; nothing else is escaped. *)
Fixpoint escape_quotes (s : string) : string :=
  match s with
  | EmptyString => EmptyString
  | String c rest =>
      if Ascii.eqb c (ascii_of_nat 34)
      then backslash +:+ dquote +:+ escape_quotes rest
      else String c (escape_quotes rest)
  end.

(** [s.slice(-n)] *)
Definition slice_last (n : nat) (s : string) : string :=
  String.substring (String.length s - n) n s.

Module OpenClawBridge.

(** The machine the bridge runs on.  [execSync] returns or raises an Error
    with a message, as the host decides from the commands run before and the
    command itself; the clock is read in two formats. *)
Record Host : Type := mkHost {
  execSync_raises : list string → string → option string;
  Date_now : nat → nat;               (* the n-th reading, in milliseconds *)
  toISOString : nat → string          (* the n-th reading, as ISO text *)
}.

(** The commands run so far, in order, and the number of clock readings. *)
Record World : Type := mkWorld {
  commands : list string;
  readings : nat
}.

(** A computation of the bridge: it runs commands and reads the clock, and
    returns or raises. *)
Definition M (A : Type) : Type := World → settled A * World.

#[global] Instance M_ret : MRet M := λ A x w, (Fulfilled x, w).
#[global] Instance M_bind : MBind M := λ A B k m w,
  match m w with
  | (Fulfilled x, w') => k x w'
  | (Rejected message, w') => (Rejected message, w')
  end.
Definition raise {A} (message : string) : M A := λ w, (Rejected message, w).
(** [try { m } catch (err) { handler(err.message) }] *)
Definition try_catch {A} (m : M A) (handler : string → M A) : M A :=
  λ w, match m w with
       | (Fulfilled x, w') => (Fulfilled x, w')
       | (Rejected message, w') => handler message w'
       end.
(** A conversion that may raise. *)
Definition lift {A} (r : settled A) : M A := λ w, (r, w).

Record Session : Type := mkSession {
  session_id : string;
  session_task_id : string;
  session_mode : string;
  started_at : string;
  session_status : string
}.

Section Bridge.

Context {builtins : Builtins} (host : Host).

Definition execSync (command : string) : M unit :=
  λ w, let w' := mkWorld (commands w ++ [command]) (readings w) in
       match execSync_raises host (commands w) command with
       | Some message => (Rejected message, w')
       | None => (Fulfilled tt, w')
       end.

Definition now_ms : M nat :=
  λ w, (Fulfilled (Date_now host (readings w)), mkWorld (commands w) (S (readings w))).
Definition now_iso : M string :=
  λ w, (Fulfilled (toISOString host (readings w)), mkWorld (commands w) (S (readings w))).

(** [buildPrompt(taskId, mode, taskDescription)] *)
Definition buildPrompt (taskId mode taskDescription : string) : string :=
  let base := "Task ID: " +:+ taskId +:+ newline +:+ "Mode: " +:+ mode
              +:+ newline +:+ newline in
  if String.eqb mode "EXECUTE" then
    base +:+ "EXECUTE MODE: You have full tool access. Complete this task:" +:+ newline
    +:+ taskDescription +:+ newline +:+ newline
    +:+ "Report results as JSON when complete."
  else if String.eqb mode "ARCHITECT" then
    base +:+ "ARCHITECT MODE: Read-only analysis. Do NOT execute anything." +:+ newline
    +:+ "Analyze this task and produce a detailed execution plan:" +:+ newline
    +:+ taskDescription +:+ newline +:+ newline
    +:+ "Return a step-by-step plan as JSON."
  else if String.eqb mode "SUPERVISE" then
    base +:+ "SUPERVISE MODE: Computer Use enabled. Use screenshots, mouse, and keyboard."
    +:+ newline +:+ "Complete this GUI task:" +:+ newline
    +:+ taskDescription +:+ newline +:+ newline
    +:+ "Take screenshots before and after each action. Report results as JSON."
  else base +:+ taskDescription.

Definition sessionName (taskId : string) : string :=
  "task-" +:+ slice_last 8 taskId.

(** The three commands of [spawnClaudeSession], in order. *)
Definition new_window (taskId : string) : string :=
  "tmux new-window -t openclaw -n " +:+ sessionName taskId +:+ " 2>/dev/null || true".
Definition start_claude (taskId : string) : string :=
  "tmux send-keys -t openclaw:" +:+ sessionName taskId +:+ " " +:+ dquote
  +:+ "claude" +:+ dquote +:+ " Enter".
Definition send_prompt (taskId mode prompt : string) : string :=
  "tmux send-keys -t openclaw:" +:+ sessionName taskId +:+ " " +:+ dquote
  +:+ escape_quotes (buildPrompt taskId mode prompt) +:+ dquote +:+ " Enter".

(** [spawnClaudeSession({ taskId, mode, prompt })] as the two task runners
    call it, with three strings.  Its [catch] logs and raises the same
    error again. *)
Definition spawnClaudeSession (taskId mode prompt : string) : M Session :=
  execSync (new_window taskId) ;;
  execSync (start_claude taskId) ;;
  execSync (send_prompt taskId mode prompt) ;;
  started ← now_iso;
  mret (mkSession (sessionName taskId) taskId mode started "running").

(** The four ways [takeScreenshot] tries, in order. *)
Definition screenshot_tools (filepath : string) : list string :=
  [ "gnome-screenshot -f " +:+ filepath +:+ " 2>/dev/null";
    "scrot " +:+ filepath +:+ " 2>/dev/null";
    "import -window root " +:+ filepath +:+ " 2>/dev/null";
    "xdpyinfo >/dev/null 2>&1 && xwd -root -out /tmp/screen.xwd && convert /tmp/screen.xwd "
      +:+ filepath +:+ " 2>/dev/null" ].

Definition screenshot_path (ms : nat) : string :=
  "/home/brans/legacy-automation-agency/screenshots" +:+ "/"
  +:+ "screenshot-" +:+ pretty ms +:+ ".png".

(** The nested [try]s: the next tool runs only when the one before raised. *)
Fixpoint first_that_works (tools : list string) : M unit :=
  match tools with
  | [] => mret tt
  | [tool] => execSync tool
  | tool :: others => try_catch (execSync tool) (λ _, first_that_works others)
  end.

Definition takeScreenshot : M (option string) :=
  ms ← now_ms;
  let filepath := screenshot_path ms in
  try_catch (first_that_works (screenshot_tools filepath) ;; mret (Some filepath))
            (λ _, mret None).

(** [plan.steps || []] for a plan other than [null]. *)
Definition steps_of (plan : json) : json :=
  match prop plan "steps" with
  | Some steps => if truthy steps then steps else JArr []
  | None => JArr []
  end.

(** What [for (const step of v)] goes through: the items of an array, the
    characters of a string; nothing else that [JSON.parse] makes is
    iterable. *)
Definition iterate (v : json) : option (list json) :=
  match v with
  | JArr items => Some items
  | JStr s => Some ((λ c, JStr (String c "")) <$> list_ascii_of_string s)
  | _ => None
  end.

(** The three kinds of entry pushed on [results]. *)
Definition skipped (step : json) : json :=
  JObj (field "step" (prop step "step_number")
        ++ [("status", JStr "skipped");
            ("reason", JStr "GUI step requires SUPERVISE mode")]).
Definition dispatched (step : json) (session : Session)
    (extra : list (string * json)) : json :=
  JObj (field "step" (prop step "step_number")
        ++ [("status", JStr "dispatched"); ("session", JStr (session_id session))]
        ++ extra).
Definition failed (step : json) (message : string) : json :=
  JObj (field "step" (prop step "step_number")
        ++ [("status", JStr "failed"); ("error", JStr message)]).

Definition step_prompt (number action label verification : string) : string :=
  "Step " +:+ number +:+ ": " +:+ action +:+ newline +:+ newline
  +:+ label +:+ verification.

(** [for (const step of steps) { ... results.push(entry) ... }]: each turn
    of the two loops pushes one entry or raises. *)
Fixpoint push_each (turn : json → M json) (steps : list json) (results : list json)
    : M (list json) :=
  match steps with
  | [] => mret results
  | step :: rest =>
      entry ← turn step;
      push_each turn rest (results ++ [entry])
  end.

(** One turn of the loop of [executeTask].  The log line converts
    [step_number] and [action] outside the [try]; the prompt converts
    [verification] inside it. *)
Definition execute_step (task : Task) (step : json) : M json :=
  if is_null step then raise "Cannot read properties of null (reading 'mode')"
  else if is_str "SUPERVISE" (prop step "mode") then mret (skipped step)
  else
    number ← lift (text_of (prop step "step_number"));
    action ← lift (text_of (prop step "action"));
    try_catch
      (verification ← lift (text_of (prop step "verification"));
       session ← spawnClaudeSession (id task) "EXECUTE"
                   (step_prompt number action "Verification: " verification);
       mret (dispatched step session []))
      (λ message, mret (failed step message)).

(** [executeTask(task, plan)] *)
Definition executeTask (task : Task) (plan : json) : M json :=
  if is_null plan then raise "Cannot read properties of null (reading 'steps')"
  else
    match iterate (steps_of plan) with
    | None => raise "plan.steps is not iterable"
    | Some steps =>
        results ← push_each (execute_step task) steps [];
        mret (JObj [("task_id", JStr (id task)); ("mode", JStr "EXECUTE");
                    ("results", JArr results)])
    end.

(** One turn of the loop of [superviseTask]. *)
Definition supervise_step (task : Task) (step : json) : M json :=
  if is_null step
  then raise "Cannot read properties of null (reading 'step_number')"
  else
    number ← lift (text_of (prop step "step_number"));
    action ← lift (text_of (prop step "action"));
    before ← takeScreenshot;
    try_catch
      (verification ← lift (text_of (prop step "verification"));
       session ← spawnClaudeSession (id task) "SUPERVISE"
                   (step_prompt number action "Expected UI state: " verification);
       after ← takeScreenshot;
       mret (dispatched step session
               [("screenshots",
                 JObj [("before", or_null before); ("after", or_null after)])]))
      (λ message, mret (failed step message)).

(** [superviseTask(task, plan)] *)
Definition superviseTask (task : Task) (plan : json) : M json :=
  if is_null plan then raise "Cannot read properties of null (reading 'steps')"
  else
    match iterate (steps_of plan) with
    | None => raise "plan.steps is not iterable"
    | Some steps =>
        results ← push_each (supervise_step task) steps [];
        mret (JObj [("task_id", JStr (id task)); ("mode", JStr "SUPERVISE");
                    ("results", JArr results)])
    end.

End Bridge.

End OpenClawBridge.

(** The call that [processTask] awaits in phase 2, by entry point. *)
Definition run_entry {builtins : Builtins} (host : OpenClawBridge.Host)
    (entry : executor_entry) (task : Task) (plan : json) : OpenClawBridge.M json :=
  match entry with
  | executeTask => OpenClawBridge.executeTask host task plan
  | superviseTask => OpenClawBridge.superviseTask host task plan
  end.

(** ** What the Executor reports, step by step *)

(** A step carries the mode of the GUI. *)
Definition for_GUI (step : json) : bool := is_str "SUPERVISE" (prop step "mode").

(** The steps that a turn of the two loops gets through. *)
Definition executable {builtins : Builtins} (step : json) : Prop :=
  is_null step = false
  ∧ (for_GUI step = true
     ∨ (printable (prop step "step_number") ∧ printable (prop step "action"))).
Definition supervisable {builtins : Builtins} (step : json) : Prop :=
  is_null step = false
  ∧ printable (prop step "step_number") ∧ printable (prop step "action").

(** An entry of [results] is the report on a step. *)
Definition reports (step entry : json) : Prop :=
  prop entry "step" = prop step "step_number"
  ∧ (is_str "skipped" (prop entry "status")
     || is_str "dispatched" (prop entry "status")
     || is_str "failed" (prop entry "status") = true).

(** The commands that spawn a session for a task. *)
Definition spawns (task : Task) (mode : string) (command : string) : Prop :=
  command = OpenClawBridge.new_window (id task)
  ∨ command = OpenClawBridge.start_claude (id task)
  ∨ ∃ prompt, command = OpenClawBridge.send_prompt (id task) mode prompt.

(** ** The outreach pipeline (outreach.js) *)

Module Outreach.

(** The machine the pipeline runs on: the answer to the n-th request, and
    whether writing a file raises, given the writes attempted before. *)
Record Host : Type := mkHost {
  fetched : nat → settled Response;
  writeFileSync_raises : list (string * string) → string → string → option string
}.

(** The requests made and the writes attempted so far, as path and text. *)
Record Trace : Type := mkTrace {
  requests : nat;
  written : list (string * string)
}.

Definition OUTREACH_DIR : string := "/home/brans/legacy-automation-agency/outreach".

(** [callGemini] of this module: the status alone goes into the message. *)
Definition callGemini (fetched : settled Response) : settled json :=
  match fetched with
  | Rejected m => Rejected m
  | Fulfilled response =>
      if ok response then
        match body_json response with
        | Rejected m => Rejected m
        | Fulfilled data =>
            if is_null data
            then Rejected "Cannot read properties of null (reading 'candidates')"
            else Fulfilled (or_else (answer_text data) "")
        end
      else Rejected ("Gemini error: " +:+ pretty (http_status response))
  end.

Section Pipeline.

Context {builtins : Builtins} (host : Host).

(** The common body of the three generators: ask, strip the fences, write
    the text to [name] in the outreach directory, return it. *)
Definition generate (name : string) (trace : Trace)
    : settled string * Trace :=
  let asked := mkTrace (S (requests trace)) (written trace) in
  match callGemini (fetched host (requests trace)) with
  | Rejected m => (Rejected m, asked)
  | Fulfilled (JStr result) =>
      let cleaned := strip_fences result in
      let path := OUTREACH_DIR +:+ "/" +:+ name in
      let saved := mkTrace (S (requests trace)) (written trace ++ [(path, cleaned)]) in
      match writeFileSync_raises host (written trace) path cleaned with
      | Some m => (Rejected m, saved)
      | None => (Fulfilled cleaned, saved)
      end
  | Fulfilled _ => (Rejected "result.replace is not a function", asked)
  end.

Definition generateTargetList : Trace → settled string * Trace :=
  generate "target-list.json".
Definition generateOutreachTemplates : Trace → settled string * Trace :=
  generate "templates.json".
Definition researchJobPostings : Trace → settled string * Trace :=
  generate "job-research.json".

Definition pipeline_error (message : string) : json :=
  JObj [("status", JStr "error"); ("error", JStr message)].

(** [runOutreachPipeline()] *)
Definition runOutreachPipeline : json * Trace :=
  match generateTargetList (mkTrace 0 []) with
  | (Rejected m, trace) => (pipeline_error m, trace)
  | (Fulfilled _, trace) =>
      match generateOutreachTemplates trace with
      | (Rejected m, trace) => (pipeline_error m, trace)
      | (Fulfilled _, trace) =>
          match researchJobPostings trace with
          | (Rejected m, trace) => (pipeline_error m, trace)
          | (Fulfilled _, trace) =>
              (JObj [("status", JStr "complete"); ("dir", JStr OUTREACH_DIR)], trace)
          end
      end
  end.

End Pipeline.

(** The three files of a run, in the order they are written. *)
Definition files : list string :=
  [OUTREACH_DIR +:+ "/" +:+ "target-list.json";
   OUTREACH_DIR +:+ "/" +:+ "templates.json";
   OUTREACH_DIR +:+ "/" +:+ "job-research.json"].

End Outreach.

(** ** Sample data for the further examples *)

(** The sample task completed on its first verdict, and dead-lettered on
    its tenth. *)
Definition first_pass_done : list event :=
  sample_submit :: execute_pass ++ [verdict "PASS"].
Definition completed_state : TaskQueue :=
  Eval vm_compute in state_after first_pass_done.
Definition completed_task : Task :=
  Eval vm_compute in task_after first_pass_done.

Definition ten_retries : list event := tenth_pass ++ [verdict "RETRY"].
Definition dead_letter_state : TaskQueue :=
  Eval vm_compute in state_after ten_retries.
Definition dead_letter_task : Task :=
  Eval vm_compute in task_after ten_retries.

(** A submission without a description, and the tick that takes it. *)
Definition undescribed_submit : event :=
  PostTask "LEGACY-2" None None None [] "2026-01-05T09:01:00Z".
Definition stranded_state : TaskQueue :=
  Eval vm_compute in state_after [undescribed_submit; Tick].
Definition stranded_task : Task :=
  Eval vm_compute in task_after [undescribed_submit; Tick].

(** A submission whose description is an array that cannot be printed, and
    the tick that takes it. *)
Definition opaque_submit : event :=
  PostTask "LEGACY-3" (Some (JArr [JObj [("toString", JNum 1)]])) None None []
    "2026-01-05T09:02:00Z".
Definition opaque_state : TaskQueue :=
  Eval vm_compute in state_after [opaque_submit; Tick].
Definition opaque_task : Task :=
  Eval vm_compute in task_after [opaque_submit; Tick].

(** Answers of the model API: one with a text, one blocked before any
    candidate was produced, one refused by the server. *)
Definition sample_answer (text : string) : Response :=
  mkResponse true 200 (Fulfilled "")
    (Fulfilled (JObj [("candidates",
       JArr [JObj [("content",
         JObj [("parts", JArr [JObj [("text", JStr text)]])])]])])).
Definition blocked_answer : Response :=
  mkResponse true 200 (Fulfilled "")
    (Fulfilled (JObj [("promptFeedback", JObj [("blockReason", JStr "SAFETY")])])).
Definition overloaded : Response :=
  mkResponse false 503 (Fulfilled "The model is overloaded.")
    (Rejected "Unexpected token T in JSON at position 0").

(** A host on which every command works, and one without the first
    screenshot tool. *)
Definition quiet_host : OpenClawBridge.Host :=
  OpenClawBridge.mkHost (λ _ _, None) (λ n, 1000 + n)
    (λ _, "2026-01-05T09:00:05.000Z").
Definition host_without_gnome : OpenClawBridge.Host :=
  OpenClawBridge.mkHost
    (λ _ command,
       if String.prefix "gnome-screenshot" command
       then Some "Command failed: gnome-screenshot" else None)
    (λ n, 1000 + n) (λ _, "2026-01-05T09:00:05.000Z").
Definition fresh_world : OpenClawBridge.World := OpenClawBridge.mkWorld [] 0.

(** A plan with one step for the shell and one for the GUI. *)
Definition sample_plan : json :=
  JObj [("steps",
    JArr [JObj [("step_number", JNum (inject_Z 1));
                ("action", JStr "export the ledger");
                ("mode", JStr "EXECUTE");
                ("verification", JStr "ledger.csv exists")];
          JObj [("step_number", JNum (inject_Z 2));
                ("action", JStr "press Import");
                ("mode", JStr "SUPERVISE");
                ("verification", JStr "the import dialog is open")]])].

Definition sample_report : json :=
  Eval vm_compute in
    match (OpenClawBridge.executeTask (builtins := sample_builtins)
             quiet_host sample_task sample_plan fresh_world).1 with
    | Fulfilled result => result
    | Rejected _ => JNull
    end.
Definition sample_supervision : json :=
  Eval vm_compute in
    match (OpenClawBridge.superviseTask (builtins := sample_builtins)
             host_without_gnome sample_task sample_plan fresh_world).1 with
    | Fulfilled result => result
    | Rejected _ => JNull
    end.

(** * Properties *)

Section Properties.

Context {builtins : Builtins}.

(** ** What one step of a pass keeps

    Whatever the answer, the code that resumes a pass leaves the identity of
    the task, its description, [ttl_max], [state_hashes] and [session_ids]
    as they were. *)
Lemma resume_frame t ph a t' w o :
  resume t ph a = Some (t', w, o) →
  id t' = id t
  ∧ description t' = description t
  ∧ ttl_max (envelope t') = ttl_max (envelope t)
  ∧ state_hashes (envelope t') = state_hashes (envelope t)
  ∧ session_ids (envelope t') = session_ids (envelope t).
Proof.
  unfold_pass. intros H.
  repeat case_match; simplify_eq/=; done.
Qed.

(** The [switch] leads to phase 2, never back to planning. *)
Lemma dispatch_not_planning m p : dispatch m p ≠ Planning.
Proof. unfold dispatch. repeat case_match; done. Qed.

Lemma phase_ok_dispatch m p t : running_ok t → phase_ok (dispatch m p) t.
Proof.
  intros H. pose proof (dispatch_not_planning m p).
  destruct (dispatch m p); done.
Qed.

(** A step of a pass takes a task that is in order for its phase to one
    that is in order for what comes next, with [hops] within [ttl_max] and
    one of the two counters at zero. *)
Lemma resume_ok t ph a t' w o :
  resume t ph a = Some (t', w, o) →
  phase_ok ph t →
  outcome_ok o t'
  ∧ hops (envelope t') ≤ ttl_max (envelope t')
  ∧ (consecutive_failures (envelope t') = 0 ∨ consecutive_successes (envelope t') = 0).
Proof.
  unfold_pass. intros H Hok.
  destruct ph; simpl in Hok; destruct Hok as [Hcs Hh];
    repeat case_match; simplify_eq/=; leb_to_prop;
    unfold queued_ok, running_ok; simpl;
    try (split_and?; first [lia | by right | by left | done
         | apply phase_ok_dispatch; unfold running_ok; simpl; lia ]).
Qed.

(** ** Every event keeps the scheduler well formed *)

Lemma wf_empty cap : wf (empty_queue cap).
Proof.
  split; simpl; try done.
  - constructor.
  - intros l H. by apply elem_of_nil in H.
Qed.

Lemma wf_enqueue t q :
  wf q → task_ok t → queued_ok t → wf (enqueue t q).
Proof.
  intros [Hnd Hal Hact Hheap Hq Hp] Ht Hqt.
  assert (Hn : length (heap q) ∉ live q).
  { intros Hin. apply Hal in Hin. lia. }
  split; unfold live in *; simpl.
  - rewrite <- (assoc_L (++)), (comm (++) [_]), (assoc_L (++)).
    apply NoDup_app. split_and!; [done | | apply NoDup_singleton].
    intros x Hx Hx'. apply list_elem_of_singleton in Hx'. by subst.
  - intros l Hl. rewrite length_app. simpl.
    rewrite !elem_of_app, list_elem_of_singleton in Hl.
    destruct Hl as [[Hl| ->]|Hl]; [|lia|].
    + assert (l < length (heap q)); [|lia]. apply Hal, elem_of_app. by left.
    + assert (l < length (heap q)); [|lia]. apply Hal, elem_of_app. by right.
  - intros k l Hk. destruct (Hact k l Hk) as (t0 & Hl & Hid).
    exists t0. split; [|done]. rewrite lookup_app_l; [done|].
    by eapply lookup_lt_Some.
  - intros l t0 Hl. apply lookup_app_Some in Hl as [Hl|[_ Hl]]; [by eapply Hheap|].
    apply list_lookup_singleton_Some in Hl as [_ <-]. done.
  - intros l t0 Hl Hl0. apply elem_of_app in Hl as [Hl|Hl].
    + rewrite lookup_app_l in Hl0; [by eapply Hq|]. apply Hal, elem_of_app. by left.
    + apply list_elem_of_singleton in Hl as ->.
      rewrite lookup_app_r, Nat.sub_diag in Hl0 by lia. by simplify_eq/=.
  - intros l ph t0 Hl Hl0.
    rewrite lookup_app_l in Hl0; [by eapply Hp|].
    apply Hal. apply elem_of_app. right.
    apply list_elem_of_fmap. by exists (l, ph).
Qed.

(** The shape shared by a tick and by the end of a step: one task object is
    replaced by one with the same [id], and the collections change within
    what was live. *)
Lemma wf_update q l t t' queue' processing' done' passes' disk' :
  wf q →
  heap q !! l = Some t →
  id t' = id t →
  task_ok t' →
  NoDup (queue' ++ passes'.*1) →
  (∀ x, x ∈ queue' ++ passes'.*1 → x ∈ live q) →
  (∀ k x, processing' !! k = Some x →
     processing q !! k = Some x ∨ (x = l ∧ k = id t)) →
  (∀ x, x ∈ queue' → if decide (x = l) then queued_ok t' else x ∈ queue q) →
  (∀ x ph, (x, ph) ∈ passes' →
     if decide (x = l) then phase_ok ph t' else (x, ph) ∈ passes q) →
  wf (mkTaskQueue (<[l := t']> (heap q)) queue' processing' done'
        (maxConcurrent q) passes' disk').
Proof.
  intros [Hnd Hal Hact Hheap Hq Hp] Hl Hid Hok Hnd' Hsub Hproc Hq' Hp'.
  assert (Hlt : l < length (heap q)) by by eapply lookup_lt_Some.
  split; unfold live; simpl.
  - done.
  - intros x Hx. rewrite length_insert. by apply Hal, Hsub.
  - intros k x Hk.
    assert (∃ t0, heap q !! x = Some t0 ∧ id t0 = k) as (t0 & Hx & Hk0).
    { destruct (Hproc k x Hk) as [Hold|[-> ->]]; [by apply Hact|by exists t]. }
    destruct (decide (x = l)) as [->|Hne].
    + exists t'. rewrite list_lookup_insert_eq by done. split; [done|]. congruence.
    + exists t0. by rewrite list_lookup_insert_ne.
  - intros x t0 Hx. apply list_lookup_insert_Some in Hx as [(_ & <- & _)|[_ Hx]];
      [done|by eapply Hheap].
  - intros x t0 Hx Hx0. specialize (Hq' x Hx).
    apply list_lookup_insert_Some in Hx0 as [(<- & <- & _)|[Hne Hx0]].
    + by rewrite decide_True in Hq'.
    + rewrite decide_False in Hq' by done. by eapply Hq.
  - intros x ph t0 Hx Hx0. specialize (Hp' x ph Hx).
    apply list_lookup_insert_Some in Hx0 as [(<- & <- & _)|[Hne Hx0]].
    + by rewrite decide_True in Hp'.
    + rewrite decide_False in Hp' by done. by eapply Hp.
Qed.

Lemma wf_tick q q' : wf q → tick q = Some q' → wf q'.
Proof.
  intros Hwf Ht. unfold tick in Ht.
  destruct (at_capacity q); [by simplify_eq|].
  destruct (queue q) as [|l rest] eqn:Hqueue; [by simplify_eq|].
  destruct (heap q !! l) as [t|] eqn:Hl; simpl in Ht; [|done].
  pose proof (wf_nodup q Hwf) as Hnd. unfold live in Hnd.
  rewrite Hqueue in Hnd. simpl in Hnd. apply NoDup_cons in Hnd as [Hfresh Hnd].
  assert (Hsub : ∀ x, x ∈ rest ++ (passes q).*1 → x ∈ live q).
  { intros x Hx. unfold live. rewrite Hqueue. simpl. by apply elem_of_cons; right. }
  assert (Hproc : ∀ k x, <[id t:=l]> (processing q) !! k = Some x →
            processing q !! k = Some x ∨ (x = l ∧ k = id t)).
  { intros k x Hk. apply lookup_insert_Some in Hk as [[<- <-]|[_ Hk]]; auto. }
  assert (Hrest : ∀ x, x ∈ rest → if decide (x = l) then queued_ok t else x ∈ queue q).
  { intros x Hx. case_decide as Hxl.
    - subst. exfalso. apply Hfresh, elem_of_app. by left.
    - rewrite Hqueue. by apply elem_of_cons; right. }
  assert (Hqt : queued_ok t).
  { eapply (wf_queue q Hwf l); [|done]. rewrite Hqueue. by apply elem_of_cons; left. }
  destruct (has_slice (description t)); simplify_eq.
  - apply (wf_update q l t); try done.
    + destruct (wf_heap q Hwf l t Hl) as (? & ? & ? & ?). by split_and!.
    + rewrite fmap_app. simpl. rewrite (assoc_L (++)).
      apply NoDup_app. split_and!; [done| |apply NoDup_singleton].
      intros x Hx Hx'. apply list_elem_of_singleton in Hx'. by subst.
    + intros x Hx. rewrite fmap_app, (assoc_L (++)) in Hx. simpl in Hx.
      apply elem_of_app in Hx as [Hx|Hx]; [by apply Hsub|].
      apply list_elem_of_singleton in Hx as ->.
      unfold live. rewrite Hqueue. simpl. by apply elem_of_cons; left.
    + intros x ph Hx. apply elem_of_app in Hx as [Hx|Hx].
      * case_decide as Hxl; [|done]. subst. exfalso.
        apply Hfresh, elem_of_app. right. apply list_elem_of_fmap. by exists (l, ph).
      * apply list_elem_of_singleton in Hx. simplify_eq.
        rewrite decide_True by done. simpl. destruct Hqt. by split.
  - rewrite <- (list_insert_id (heap q) l t Hl) at 1.
    apply (wf_update q l t); try done.
    + by eapply wf_heap.
    + intros x ph Hx. case_decide as Hxl; [|done]. subst. exfalso.
      apply Hfresh, elem_of_app. right. apply list_elem_of_fmap. by exists (l, ph).
Qed.

Lemma wf_commit q i l ph t a t' w o :
  wf q →
  passes q !! i = Some (l, ph) →
  heap q !! l = Some t →
  resume t ph a = Some (t', w, o) →
  wf (commit l i (t', w, o) q).
Proof.
  intros Hwf Hi Hl Hres.
  pose proof (wf_nodup q Hwf) as Hnd. unfold live in Hnd.
  pose proof (take_drop_middle _ _ _ Hi) as Hsplit.
  pose proof (lookup_lt_Some _ _ _ Hi) as Hlen.
  set (A := take i (passes q)) in *. set (B := drop (S i) (passes q)) in *.
  rewrite <- Hsplit in Hnd. rewrite fmap_app in Hnd. simpl in Hnd.
  apply NoDup_app in Hnd as (Hndq & Hqp & Hndp).
  apply NoDup_app in Hndp as (HndA & HAB & HndB).
  apply NoDup_cons in HndB as [HlB HndB].
  assert (HlA : l ∉ A.*1).
  { intros Hin. apply (HAB l Hin). by apply elem_of_cons; left. }
  assert (Hlq : l ∉ queue q).
  { intros Hin. apply (Hqp l Hin), elem_of_app. right. by apply elem_of_cons; left. }
  assert (Hpok : phase_ok ph t).
  { eapply (wf_pass q Hwf l); [|done]. by eapply list_elem_of_lookup_2. }
  destruct (resume_frame _ _ _ _ _ _ Hres) as (Hid & _ & _ & Hsh & Hsi).
  destruct (resume_ok _ _ _ _ _ _ Hres Hpok) as (Hout & Hhops & Hcnt).
  assert (Htok : task_ok t').
  { destruct (wf_heap q Hwf l t Hl) as (_ & _ & ? & ?). split_and!; congruence. }
  assert (HAB' : NoDup (queue q ++ (A ++ B).*1)).
  { rewrite fmap_app. apply NoDup_app. split_and!; [done| |].
    - intros x Hx Hx'. apply (Hqp x Hx). rewrite elem_of_app, elem_of_cons.
      apply elem_of_app in Hx' as [?|?]; auto.
    - apply NoDup_app. split_and!; [done| |done].
      intros x Hx Hx'. apply (HAB x Hx). by apply elem_of_cons; right. }
  assert (HinAB : ∀ x, x ∈ queue q ++ (A ++ B).*1 → x ∈ live q ∧ x ≠ l).
  { intros x Hx. unfold live. rewrite <- Hsplit, fmap_app. simpl.
    rewrite fmap_app in Hx. rewrite !elem_of_app in Hx. rewrite !elem_of_app, elem_of_cons.
    destruct Hx as [?|[?|?]]; (split; [by auto|]); intros ->; done. }
  assert (HpAB : ∀ x ph', (x, ph') ∈ A ++ B →
            if decide (x = l) then phase_ok ph' t' else (x, ph') ∈ passes q).
  { intros x ph' Hx.
    assert (x ∈ (A ++ B).*1) as Hx' by (apply list_elem_of_fmap; by exists (x, ph')).
    destruct (HinAB x) as [_ Hne]; [apply elem_of_app; by right|].
    rewrite decide_False by done. rewrite <- Hsplit.
    rewrite elem_of_app, elem_of_cons. apply elem_of_app in Hx as [?|?]; auto. }
  assert (Hll : l ∈ live q).
  { unfold live. rewrite <- Hsplit, fmap_app. simpl.
    rewrite !elem_of_app, elem_of_cons. auto. }
  assert (Hdel : ∀ k x, delete (id t') (processing q) !! k = Some x →
            processing q !! k = Some x ∨ (x = l ∧ k = id t)).
  { intros k x Hk. apply lookup_delete_Some in Hk as [_ Hk]. by left. }
  assert (Hqq : ∀ x, x ∈ queue q → if decide (x = l) then queued_ok t' else x ∈ queue q).
  { intros x Hx. case_decide; [by subst|done]. }
  unfold commit. destruct o as [ph'| | |]; simpl in Hout.
  - apply (wf_update q l t); try done; try (by left).
    + rewrite list_fmap_insert. simpl. rewrite list_insert_id; [apply Hwf|].
      by rewrite list_lookup_fmap, Hi.
    + rewrite list_fmap_insert. simpl. rewrite list_insert_id; [done|].
      by rewrite list_lookup_fmap, Hi.
    + intros x ph0 Hx. rewrite insert_take_drop in Hx by done. fold A B in Hx.
      rewrite elem_of_app, elem_of_cons in Hx.
      destruct Hx as [Hx|[Hx|Hx]].
      * apply HpAB, elem_of_app. by left.
      * simplify_eq. by rewrite decide_True.
      * apply HpAB, elem_of_app. by right.
  - rewrite delete_take_drop. fold A B.
    apply (wf_update q l t); try done.
    + rewrite <- (assoc_L (++)). apply NoDup_app. split_and!; [done| |].
      * intros x Hx Hx'. apply elem_of_app in Hx' as [Hx'|Hx'].
        -- apply list_elem_of_singleton in Hx' as ->. done.
        -- apply (Hqp x Hx). rewrite fmap_app in Hx'. rewrite elem_of_app, elem_of_cons.
           apply elem_of_app in Hx' as [?|?]; auto.
      * simpl. apply NoDup_cons. split; [|by apply NoDup_app in HAB' as (_ & _ & ?)].
        rewrite fmap_app, elem_of_app. intros [?|?]; done.
    + intros x Hx. rewrite <- (assoc_L (++)) in Hx. apply elem_of_app in Hx as [Hx|Hx].
      * apply HinAB, elem_of_app. by left.
      * apply elem_of_cons in Hx as [->|Hx]; [done|].
        apply HinAB, elem_of_app. by right.
    + intros x Hx. apply elem_of_app in Hx as [Hx|Hx]; [by apply Hqq|].
      apply list_elem_of_singleton in Hx as ->. by rewrite decide_True.
  - rewrite delete_take_drop. fold A B.
    apply (wf_update q l t); try done. intros x Hx. by apply HinAB.
  - rewrite delete_take_drop. fold A B.
    apply (wf_update q l t); try done. intros x Hx. by apply HinAB.
Qed.

Lemma post_task_ok taskId description software_name task_type docs now :
  let t := post_task taskId description software_name task_type docs now in
  task_ok t ∧ queued_ok t.
Proof. unfold task_ok, queued_ok. simpl. split_and!; auto; lia. Qed.

Lemma webhook_task_ok taskId message classification src now :
  let t := webhook_task taskId message classification src now in
  task_ok t ∧ queued_ok t.
Proof. unfold task_ok, queued_ok. simpl. split_and!; auto; lia. Qed.

Lemma settle_Some i a q q' :
  settle i a q = Some q' →
  ∃ l ph t s, passes q !! i = Some (l, ph) ∧ heap q !! l = Some t
    ∧ resume t ph a = Some s ∧ q' = commit l i s q.
Proof.
  unfold settle. intros H.
  destruct (passes q !! i) as [[l ph]|] eqn:Hi; simpl in H; [|done].
  destruct (heap q !! l) as [t|] eqn:Hl; simpl in H; [|done].
  destruct (resume t ph a) as [s|] eqn:Hs; simpl in H; [|done].
  simplify_eq. by exists l, ph, t, s.
Qed.

Lemma wf_step q e q' : wf q → step q e = Some q' → wf q'.
Proof.
  intros Hwf Hstep. destruct e; simpl in Hstep.
  - simplify_eq. apply wf_enqueue; [done|apply post_task_ok..].
  - simplify_eq. unfold webhook. repeat case_match; try done;
      (apply wf_enqueue; [done|apply webhook_task_ok..]).
  - by eapply wf_tick.
  - apply settle_Some in Hstep as (l & ph & t & [[t' w] o] & Hi & Hl & Hres & ->).
    by eapply wf_commit.
Qed.

Lemma wf_run es : ∀ q q', wf q → run q es = Some q' → wf q'.
Proof.
  induction es as [|e es IH]; intros q q' Hwf Hrun; simpl in Hrun.
  - by simplify_eq.
  - destruct (step q e) as [q1|] eqn:Hstep; simpl in Hrun; [|done].
    eapply IH; [|done]. by eapply wf_step.
Qed.

Lemma wf_reachable cap es q : run (empty_queue cap) es = Some q → wf q.
Proof. apply wf_run, wf_empty. Qed.

Lemma run_app es1 es2 q :
  run q (es1 ++ es2) = q1 ← run q es1; run q1 es2.
Proof.
  revert q. induction es1 as [|e es1 IH]; intros q; simpl; [done|].
  destruct (step q e); simpl; [apply IH|done].
Qed.

(** Once retired, a task object is out of the scheduler's reach. *)
Lemma retired_enqueue l t q :
  retired l q → retired l (enqueue t q) ∧ heap (enqueue t q) !! l = heap q !! l.
Proof.
  intros (Hlt & Hlive & Hproc). unfold retired, live in *. simpl.
  split_and!.
  - rewrite length_app. lia.
  - rewrite !elem_of_app, list_elem_of_singleton.
    rewrite elem_of_app in Hlive. intros [[?|?]|?]; [tauto|lia|tauto].
  - done.
  - by apply lookup_app_l.
Qed.

Lemma retired_tick l q q' :
  retired l q → tick q = Some q' → retired l q' ∧ heap q' !! l = heap q !! l.
Proof.
  intros (Hlt & Hlive & Hproc) Ht. unfold tick in Ht.
  destruct (at_capacity q); [by simplify_eq|].
  destruct (queue q) as [|l0 rest] eqn:Hqueue; [by simplify_eq|].
  destruct (heap q !! l0) as [t|] eqn:Hl0; simpl in Ht; [|done].
  unfold retired, live in *. rewrite Hqueue in Hlive. simpl in Hlive.
  rewrite elem_of_cons, elem_of_app in Hlive.
  assert (Hproc' : ∀ k, <[id t:=l0]> (processing q) !! k ≠ Some l).
  { intros k Hk. apply lookup_insert_Some in Hk as [[_ ->]|[_ Hk]]; [tauto|].
    by apply (Hproc k). }
  destruct (has_slice (description t)); simplify_eq; simpl.
  - split_and!; [by rewrite length_insert| |done|].
    + rewrite fmap_app, !elem_of_app. simpl. rewrite list_elem_of_singleton. tauto.
    + apply list_lookup_insert_ne. intros ->. apply Hlive. by left.
  - split_and!; [done| |done|done]. rewrite elem_of_app. tauto.
Qed.

Lemma retired_commit l q l0 i ph s :
  retired l q →
  passes q !! i = Some (l0, ph) →
  retired l (commit l0 i s q) ∧ heap (commit l0 i s q) !! l = heap q !! l.
Proof.
  intros (Hlt & Hlive & Hproc) Hi. destruct s as [[t' w] o].
  unfold retired, live in *. rewrite elem_of_app in Hlive.
  assert (Hne : l0 ≠ l).
  { intros ->. apply Hlive. right. apply list_elem_of_fmap. exists (l, ph).
    split; [done|]. by eapply list_elem_of_lookup_2. }
  assert (Hdel : ∀ k, delete (id t') (processing q) !! k ≠ Some l).
  { intros k Hk. apply lookup_delete_Some in Hk as [_ Hk]. by apply (Hproc k). }
  assert (Hsub : l ∉ (delete i (passes q)).*1).
  { intros Hin. apply Hlive. right.
    apply list_elem_of_fmap in Hin as (x & -> & Hx). apply list_elem_of_fmap.
    exists x. split; [done|]. rewrite delete_take_drop in Hx.
    rewrite <- (take_drop_middle _ _ _ Hi). rewrite elem_of_app, elem_of_cons.
    apply elem_of_app in Hx as [?|?]; auto. }
  unfold commit. destruct o; simpl;
    (split_and!; [by rewrite length_insert| |done|by apply list_lookup_insert_ne]).
  - rewrite list_fmap_insert. simpl. rewrite list_insert_id.
    + rewrite elem_of_app. tauto.
    + by rewrite list_lookup_fmap, Hi.
  - rewrite !elem_of_app, list_elem_of_singleton. intros [[?|?]|?]; [tauto|done|tauto].
  - rewrite elem_of_app. tauto.
  - rewrite elem_of_app. tauto.
Qed.

Lemma retired_step l q e q' :
  retired l q → step q e = Some q' → retired l q' ∧ heap q' !! l = heap q !! l.
Proof.
  intros Hr Hstep. destruct e; simpl in Hstep.
  - simplify_eq. by apply retired_enqueue.
  - simplify_eq. unfold webhook. repeat case_match; try done;
      by apply retired_enqueue.
  - by eapply retired_tick.
  - apply settle_Some in Hstep as (l0 & ph & t & s & Hi & Hl & Hres & ->).
    by eapply retired_commit.
Qed.

Lemma retired_run es : ∀ l q q',
  retired l q → run q es = Some q' → retired l q' ∧ heap q' !! l = heap q !! l.
Proof.
  induction es as [|e es IH]; intros l q q' Hr Hrun; simpl in Hrun.
  - by simplify_eq.
  - destruct (step q e) as [q1|] eqn:Hstep; simpl in Hrun; [|done].
    destruct (retired_step l q e q1 Hr Hstep) as [Hr1 Hh1].
    destruct (IH l q1 q' Hr1 Hrun) as [Hr' Hh']. split; [done|congruence].
Qed.

(** A pass that ends without re-enqueueing retires its task. *)
Lemma wf_coherent q : wf q → coherent q.
Proof. intros Hwf. split; [apply (wf_nodup q Hwf)|apply (wf_active q Hwf)]. Qed.

Lemma commit_retires_coherent q i l ph t a t' w o :
  coherent q →
  passes q !! i = Some (l, ph) →
  heap q !! l = Some t →
  resume t ph a = Some (t', w, o) →
  o = Finished ∨ o = Released →
  retired l (commit l i (t', w, o) q).
Proof.
  intros [Hnd Hact] Hi Hl Hres Ho. unfold live in Hnd.
  pose proof (take_drop_middle _ _ _ Hi) as Hsplit.
  destruct (resume_frame _ _ _ _ _ _ Hres) as (Hid & _).
  rewrite <- Hsplit, fmap_app in Hnd. simpl in Hnd.
  apply NoDup_app in Hnd as (_ & Hqp & Hndp).
  apply NoDup_app in Hndp as (_ & HAB & HndB).
  apply NoDup_cons in HndB as [HlB _].
  assert (Hlive : l ∉ queue q ++ (delete i (passes q)).*1).
  { rewrite delete_take_drop, fmap_app, !elem_of_app. intros [Hin|[Hin|Hin]].
    - apply (Hqp l Hin), elem_of_app. right. by apply elem_of_cons; left.
    - apply (HAB l Hin). by apply elem_of_cons; left.
    - done. }
  assert (Hproc : ∀ k, delete (id t') (processing q) !! k ≠ Some l).
  { intros k Hk. apply lookup_delete_Some in Hk as [Hne Hk].
    destruct (Hact k l Hk) as (t0 & Hl0 & Hk0). congruence. }
  unfold retired, live, commit.
  destruct Ho as [-> | ->]; simpl; rewrite length_insert;
    (split_and!; [by eapply lookup_lt_Some|done|done]).
Qed.

Lemma commit_retires q i l ph t a t' w o :
  wf q →
  passes q !! i = Some (l, ph) →
  heap q !! l = Some t →
  resume t ph a = Some (t', w, o) →
  o = Finished ∨ o = Released →
  retired l (commit l i (t', w, o) q).
Proof. intros Hwf. by apply commit_retires_coherent, wf_coherent. Qed.

(** ** One step of a pass, field by field *)

Lemma resume_hops t ph a t' w o :
  resume t ph a = Some (t', w, o) →
  (∃ r p, ph = Planning ∧ a = FromGemini r ∧ planExecution t r = Fulfilled p
          ∧ hops (envelope t') = S (hops (envelope t))
          ∧ o = Await (dispatch (mode (envelope t)) p))
  ∨ (hops (envelope t') = hops (envelope t)
     ∧ ∀ r p, ¬ (ph = Planning ∧ a = FromGemini r ∧ planExecution t r = Fulfilled p)).
Proof.
  intros Hres. destruct ph; destruct a as [r|r]; simpl in Hres; try done.
  - destruct (planExecution t r) as [m|p] eqn:Hp; simpl in Hres.
    + right. unfold handleFailure in Hres. split.
      * repeat case_match; by simplify_eq/=.
      * intros r' p' (_ & ? & Hp'). congruence.
    + left. exists r, p. unfold processTask_planned in Hres. by simplify_eq/=.
  - right. split; [|intros r' p' (? & _); done].
    unfold_pass. repeat case_match; by simplify_eq/=.
  - right. split; [|intros r' p' (? & _); done].
    unfold_pass. repeat case_match; by simplify_eq/=.
  - right. split; [|intros r' p' (? & _); done].
    unfold_pass. repeat case_match; by simplify_eq/=.
Qed.

Lemma resume_not_planning t ph a t' w ph' :
  resume t ph a = Some (t', w, Await ph') → ph' ≠ Planning.
Proof.
  intros Hres ->. destruct ph; destruct a as [r|r]; simpl in Hres; try done.
  - destruct (planExecution t r) as [m|p] eqn:Hp; simpl in Hres.
    + unfold handleFailure in Hres. repeat case_match; by simplify_eq/=.
    + unfold processTask_planned in Hres. simplify_eq/=.
      by eapply dispatch_not_planning.
  - unfold_pass. repeat case_match; by simplify_eq/=.
  - unfold_pass. repeat case_match; by simplify_eq/=.
  - unfold_pass. repeat case_match; by simplify_eq/=.
Qed.

Lemma is_str_inv lit v : is_str lit v = true → v = Some (JStr lit).
Proof.
  destruct v as [[]|]; simpl; try done.
  intros Heq. apply String.eqb_eq in Heq. by subst.
Qed.

Lemma processTask_verified_RETRY t result v :
  is_str "RETRY" (prop v "status") = true →
  processTask_verified t result v = on_RETRY t.
Proof.
  intros Hv. unfold processTask_verified.
  rewrite Hv. apply is_str_inv in Hv. by rewrite Hv.
Qed.

Lemma architectTask_envelope t r t1 x :
  architectTask t r = (t1, x) →
  envelope t1 = envelope t ∨ envelope t1 = set_mode EXECUTE (envelope t).
Proof.
  unfold architectTask. intros Ha. repeat case_match; simplify_eq/=; auto.
Qed.

(** With the hop budget used up, both the failure handler and the RETRY
    branch dead-letter the task before they reach the escalation test. *)
Lemma handleFailure_ttl t m :
  ttl_max (envelope t) ≤ hops (envelope t) →
  let t' := set_status dead_lettered
              (set_last_error m (on_envelope incr_failures t)) in
  handleFailure t m = (t', [SaveTask t'; DeadLetter t'], Released).
Proof.
  intros Httl. apply Nat.leb_le in Httl. unfold handleFailure. simpl.
  by rewrite Httl.
Qed.

Lemma on_RETRY_ttl t :
  ttl_max (envelope t) ≤ hops (envelope t) →
  let t' := set_status dead_lettered
              (on_envelope (set_consecutive_successes 0)
                 (on_envelope incr_failures t)) in
  on_RETRY t = (t', [SaveTask t'; DeadLetter t'], Released).
Proof.
  intros Httl. apply Nat.leb_le in Httl. unfold on_RETRY. simpl.
  by rewrite Httl.
Qed.

Lemma resume_ttl t ph a :
  retry_class t ph a = true →
  ttl_max (envelope t) ≤ hops (envelope t) →
  ∃ t' w,
    resume t ph a = Some (t', w, Released)
    ∧ status t' = dead_lettered
    ∧ DeadLetter t' ∈ w
    ∧ consecutive_failures (envelope t') = S (consecutive_failures (envelope t))
    ∧ escalated (envelope t') = escalated (envelope t)
    ∧ (mode (envelope t') = ARCHITECT → mode (envelope t) = ARCHITECT).
Proof.
  intros Hc Httl.
  destruct ph as [|entry pl| |res0]; destruct a as [r|r]; simpl in Hc; try done; simpl.
  - destruct (planExecution t r) as [m|p]; [|done]. simpl.
    rewrite handleFailure_ttl by done.
    eexists _, _. split_and!; [done..| |done|done|done].
    apply elem_of_cons; right; by apply elem_of_cons; left.
  - destruct r as [m|res]; simpl.
    + rewrite handleFailure_ttl by done.
      eexists _, _. split_and!; [done..| |done|done|done].
      apply elem_of_cons; right; by apply elem_of_cons; left.
    + unfold processTask_executed.
      change (expected_outcome (set_status verifying t)) with (expected_outcome t).
      unfold verify_prompt_raises in Hc.
      destruct (expected_outcome t) as [msg|?]; [|done].
      rewrite handleFailure_ttl by done.
      eexists _, _. split_and!; [done..| |done|done|done].
      do 2 (apply elem_of_cons; right). by apply elem_of_cons; left.
  - destruct (architectTask t r) as [t1 x] eqn:Ha.
    assert (Httl1 : ttl_max (envelope t1) ≤ hops (envelope t1)).
    { destruct (architectTask_envelope _ _ _ _ Ha) as [-> | ->]; done. }
    assert (Hf : consecutive_failures (envelope t1) = consecutive_failures (envelope t)
                 ∧ escalated (envelope t1) = escalated (envelope t)).
    { destruct (architectTask_envelope _ _ _ _ Ha) as [-> | ->]; done. }
    assert (Hm : mode (envelope t1) = ARCHITECT → mode (envelope t) = ARCHITECT).
    { destruct (architectTask_envelope _ _ _ _ Ha) as [-> | ->]; done. }
    destruct Hf as [Hf1 Hf2].
    destruct x as [m|an]; simpl.
    + rewrite handleFailure_ttl by done.
      eexists _, _. split_and!; [done| done | | simpl; by f_equal | done | done].
      apply elem_of_cons; right; by apply elem_of_cons; left.
    + unfold processTask_executed.
      change (expected_outcome (set_status verifying t1)) with (expected_outcome t1).
      unfold verify_prompt_raises in Hc.
      destruct (expected_outcome t1) as [msg|?]; [|done].
      rewrite handleFailure_ttl by done.
      eexists _, _. split_and!; [done| done | | simpl; by f_equal | done | done].
      do 2 (apply elem_of_cons; right). by apply elem_of_cons; left.
  - destruct (verifyResult t res0 r) as [m|v]; simpl.
    + rewrite handleFailure_ttl by done.
      eexists _, _. split_and!; [done..| |done|done|done].
      apply elem_of_cons; right; by apply elem_of_cons; left.
    + rewrite processTask_verified_RETRY by done. rewrite on_RETRY_ttl by done.
      eexists _, _. split_and!; [done..| |done|done|done].
      apply elem_of_cons; right; by apply elem_of_cons; left.
Qed.

(** How one event changes a task object that already exists. *)
Lemma step_task q e q' l t :
  step q e = Some q' →
  heap q !! l = Some t →
  heap q' !! l = Some t
  ∨ (e = Tick ∧ heap q' !! l = Some (set_status classifying t))
  ∨ (∃ i ph a t' w o,
       e = Settle i a ∧ passes q !! i = Some (l, ph)
       ∧ resume t ph a = Some (t', w, o)
       ∧ q' = commit l i (t', w, o) q
       ∧ heap q' !! l = Some t').
Proof.
  intros Hstep Hl.
  assert (Hlt : l < length (heap q)) by by eapply lookup_lt_Some.
  destruct e; simpl in Hstep.
  - simplify_eq. left. simpl. by rewrite lookup_app_l.
  - simplify_eq. left. unfold webhook. repeat case_match; try done;
      simpl; by rewrite lookup_app_l.
  - unfold tick in Hstep.
    destruct (at_capacity q); [left; by simplify_eq|].
    destruct (queue q) as [|l0 rest]; [left; by simplify_eq|].
    destruct (heap q !! l0) as [t0|] eqn:Hl0; simpl in Hstep; [|done].
    destruct (has_slice (description t0)); simplify_eq; simpl; [|by left].
    destruct (decide (l0 = l)) as [->|Hne].
    + right; left. split; [done|]. simplify_eq. by apply list_lookup_insert_eq.
    + left. by rewrite list_lookup_insert_ne.
  - apply settle_Some in Hstep as (l0 & ph & t0 & [[t' w] o] & Hi & Hl0 & Hres & ->).
    destruct (decide (l0 = l)) as [->|Hne].
    + right; right. simplify_eq. exists i, ph, a, t', w, o. split_and!; try done.
      unfold commit. destruct o; simpl; by apply list_lookup_insert_eq.
    + left. unfold commit. destruct o; simpl; by rewrite list_lookup_insert_ne.
Qed.

Lemma settle_resume q i l ph t a s :
  passes q !! i = Some (l, ph) →
  heap q !! l = Some t →
  resume t ph a = Some s →
  settle i a q = Some (commit l i s q).
Proof.
  intros Hi Hl Hres. unfold settle. rewrite Hi. simpl. rewrite Hl. simpl.
  by rewrite Hres.
Qed.


(** ** The escalation tests of the two branches *)

Lemma on_RETRY_escalates t :
  hops (envelope t) < ttl_max (envelope t) →
  let t' := (on_RETRY t).1.1 in
  (3 ≤ S (consecutive_failures (envelope t)) ∧ escalated (envelope t) = false →
     mode (envelope t') = ARCHITECT ∧ escalated (envelope t') = true)
  ∧ (¬ (3 ≤ S (consecutive_failures (envelope t)) ∧ escalated (envelope t) = false) →
     mode (envelope t') = mode (envelope t)
     ∧ escalated (envelope t') = escalated (envelope t)).
Proof.
  destruct t as [? ? ? ? ? ? ? ? ? ? ? ? e]. destruct e as [? ? ? ? cf ? esc ? ?].
  simpl. intros Hh. apply Nat.leb_gt in Hh. unfold on_RETRY. simpl. rewrite Hh.
  destruct cf as [|[|n]]; destruct esc; simpl;
    (split; [intros [? ?]|intros Hn]); try done; try lia;
    try (exfalso; apply Hn; split; first [lia|done]).
Qed.

Lemma on_PASS_deescalates t result v :
  let t' := (on_PASS t result v).1.1 in
  (2 ≤ S (consecutive_successes (envelope t)) ∧ escalated (envelope t) = true →
     mode (envelope t') = EXECUTE ∧ escalated (envelope t') = false)
  ∧ (¬ (2 ≤ S (consecutive_successes (envelope t)) ∧ escalated (envelope t) = true) →
     mode (envelope t') = mode (envelope t)
     ∧ escalated (envelope t') = escalated (envelope t)).
Proof.
  destruct t as [? ? ? ? ? ? ? ? ? ? ? ? e]. destruct e as [? ? ? ? ? cs esc ? ?].
  unfold on_PASS. simpl.
  destruct cs as [|n]; destruct esc; simpl;
    (split; [intros [? ?]|intros Hn]); try done; try lia;
    try (exfalso; apply Hn; split; first [lia|done]).
Qed.

(** Where the failure handler and the update the specification describes
    coincide. *)
Lemma handleFailure_agrees t m :
  consecutive_successes (envelope t) = 0 →
  escalated (envelope t) = false ∨ mode (envelope t) = ARCHITECT
  ∨ S (consecutive_failures (envelope t)) < 3
  ∨ ttl_max (envelope t) ≤ hops (envelope t) →
  handleFailure t m = retry_equivalent t m.
Proof.
  intros Hcs Hcase.
  destruct t as [? ? ? ? ? ? ? ? ? ? ? ? e]. destruct e as [ttl h md ? cf cs esc ? ?].
  unfold handleFailure, retry_equivalent, on_RETRY. simpl in *. subst.
  destruct (ttl <=? h) eqn:Httl; [done|]. apply Nat.leb_gt in Httl.
  destruct cf as [|[|n]]; simpl; try done.
  destruct Hcase as [->|[->|[?|?]]]; simpl; try done; try lia.
  by destruct esc.
Qed.

(** Everywhere else they differ: in the success counter, which the handler
    keeps, or in the mode, which the handler forces to ARCHITECT although
    the task is already escalated. *)
Lemma handleFailure_disagrees t m :
  consecutive_successes (envelope t) ≠ 0
  ∨ (escalated (envelope t) = true ∧ mode (envelope t) ≠ ARCHITECT
     ∧ 3 ≤ S (consecutive_failures (envelope t))
     ∧ hops (envelope t) < ttl_max (envelope t)) →
  handleFailure t m ≠ retry_equivalent t m.
Proof.
  destruct t as [? ? ? ? ? ? ? ? ? ? ? ? e]. destruct e as [ttl h md ? cf cs esc ? ?].
  unfold handleFailure, retry_equivalent, on_RETRY. simpl.
  intros [Hcs|(-> & Hmd & Hcf & Hh)].
  - destruct (ttl <=? h); [intros Heq; by simplify_eq|].
    destruct cf as [|[|n]]; destruct esc; simpl; intros Heq; by simplify_eq.
  - apply Nat.leb_gt in Hh. rewrite Hh.
    destruct cf as [|[|n]]; simpl; [lia..|].
    intros Heq. by simplify_eq.
Qed.

Lemma on_PASS_fields t result v :
  let t' := (on_PASS t result v).1.1 in
  status t' = completed
  ∧ consecutive_successes (envelope t') = S (consecutive_successes (envelope t))
  ∧ consecutive_failures (envelope t') = 0.
Proof.
  destruct t as [? ? ? ? ? ? ? ? ? ? ? ? e]. destruct e as [? ? ? ? ? cs esc ? ?].
  unfold on_PASS. simpl. destruct cs; destruct esc; done.
Qed.

Lemma on_RETRY_counters t :
  let t' := (on_RETRY t).1.1 in
  consecutive_failures (envelope t') = S (consecutive_failures (envelope t))
  ∧ consecutive_successes (envelope t') = 0.
Proof.
  destruct t as [? ? ? ? ? ? ? ? ? ? ? ? e]. destruct e as [ttl h ? ? cf ? esc ? ?].
  unfold on_RETRY. simpl. destruct (ttl <=? h); [done|].
  destruct cf as [|[|n]]; destruct esc; done.
Qed.

Lemma handleFailure_counters t m :
  let t' := (handleFailure t m).1.1 in
  consecutive_failures (envelope t') = S (consecutive_failures (envelope t))
  ∧ consecutive_successes (envelope t') = consecutive_successes (envelope t)
  ∧ last_error t' = Some m.
Proof.
  destruct t as [? ? ? ? ? ? ? ? ? ? ? ? e]. destruct e as [ttl h ? ? cf ? esc ? ?].
  unfold handleFailure. simpl. destruct (ttl <=? h); [done|].
  destruct cf as [|[|n]]; done.
Qed.

(** [retry_class] singles out the steps that count a failure. *)
Lemma retry_class_counts t ph a t' w o :
  resume t ph a = Some (t', w, o) →
  retry_class t ph a = true
  ↔ consecutive_failures (envelope t') = S (consecutive_failures (envelope t)).
Proof.
  intros Hres.
  assert (Hexec : ∀ t0 res,
            processTask_executed t0 res = (t', w, o) →
            verify_prompt_raises t0 = true
            ↔ consecutive_failures (envelope t')
              = S (consecutive_failures (envelope t0))).
  { intros t0 res He. unfold processTask_executed in He.
    change (expected_outcome (set_status verifying t0))
      with (expected_outcome t0) in He.
    unfold verify_prompt_raises. destruct (expected_outcome t0) as [msg|?].
    - destruct (handleFailure_counters (set_status verifying t0) msg)
        as (Hcf & _).
      destruct (handleFailure _ _) as [[t1 w1] o1]. by simplify_eq/=.
    - simplify_eq/=. split; [done|lia]. }
  assert (Hfail : ∀ t0 m,
            handleFailure t0 m = (t', w, o) →
            consecutive_failures (envelope t')
            = S (consecutive_failures (envelope t0))).
  { intros t0 m Hf. destruct (handleFailure_counters t0 m) as (Hcf & _).
    by rewrite Hf in Hcf. }
  destruct ph as [|entry pl| |res0]; destruct a as [r|r]; simpl in *; try done.
  - destruct (planExecution t r) as [m|p]; simpl in Hres; injection Hres as Hres.
    + by rewrite (Hfail _ _ Hres).
    + unfold processTask_planned in Hres. simplify_eq/=. split; [done|lia].
  - destruct r as [m|res]; simpl in Hres; injection Hres as Hres.
    + by rewrite (Hfail _ _ Hres).
    + by apply (Hexec t res).
  - destruct (architectTask t r) as [t1 x] eqn:Ha.
    assert (Hcf1 : consecutive_failures (envelope t1)
                   = consecutive_failures (envelope t)).
    { destruct (architectTask_envelope _ _ _ _ Ha) as [-> | ->]; done. }
    rewrite <- Hcf1.
    destruct x as [m|an]; simpl in Hres; injection Hres as Hres.
    + by rewrite (Hfail _ _ Hres).
    + by apply (Hexec t1 an).
  - destruct (verifyResult t res0 r) as [m|v]; simpl in Hres; injection Hres as Hres.
    + by rewrite (Hfail _ _ Hres).
    + unfold processTask_verified in Hres.
      destruct (is_str "PASS" (prop v "status")) eqn:Hp.
      * apply is_str_inv in Hp. rewrite Hp. simpl.
        destruct (on_PASS_fields t res0 v) as (_ & _ & Hcf).
        rewrite Hres in Hcf. simpl in Hcf. split; [done|lia].
      * destruct (is_str "RETRY" (prop v "status")) eqn:Hr.
        -- destruct (on_RETRY_counters t) as (Hcf & _).
           by rewrite Hres in Hcf.
        -- unfold on_ESCALATE in Hres. simplify_eq/=. split; [done|lia].
Qed.

(** ** The claims about the envelope *)

(** C1.  In every state the scheduler reaches, no task has
    [consecutive_failures] and [consecutive_successes] both nonzero, whatever
    the scheduler did: a step that raises one of the two counters of a task
    leaves the other at zero.  The PASS and the RETRY branch reset the other
    counter themselves; the failure handler raises [consecutive_failures]
    only, and it only ever runs on the task of a running pass, whose
    [consecutive_successes] is zero. *)
Theorem counters_never_both_nonzero cap es q :
  run (empty_queue cap) es = Some q →
  (∀ l t, heap q !! l = Some t →
     consecutive_failures (envelope t) = 0
     ∨ consecutive_successes (envelope t) = 0)
  ∧ (∀ e q' l t t',
       step q e = Some q' → heap q !! l = Some t → heap q' !! l = Some t' →
       (consecutive_failures (envelope t) < consecutive_failures (envelope t') →
          consecutive_successes (envelope t') = 0)
       ∧ (consecutive_successes (envelope t) < consecutive_successes (envelope t') →
            consecutive_failures (envelope t') = 0))
  ∧ (∀ t result v,
       consecutive_successes (envelope (on_PASS t result v).1.1)
         = S (consecutive_successes (envelope t))
       ∧ consecutive_failures (envelope (on_PASS t result v).1.1) = 0)
  ∧ (∀ t,
       consecutive_failures (envelope (on_RETRY t).1.1)
         = S (consecutive_failures (envelope t))
       ∧ consecutive_successes (envelope (on_RETRY t).1.1) = 0)
  ∧ (∀ i l ph t m,
       passes q !! i = Some (l, ph) → heap q !! l = Some t →
       consecutive_failures (envelope (handleFailure t m).1.1)
         = S (consecutive_failures (envelope t))
       ∧ consecutive_successes (envelope (handleFailure t m).1.1) = 0).
Proof.
  intros Hrun. pose proof (wf_reachable _ _ _ Hrun) as Hwf.
  split_and!.
  - intros l t Hl. by destruct (wf_heap q Hwf l t Hl) as (_ & ? & _).
  - intros e q' l t t' Hstep Hl Hl'.
    pose proof (wf_step _ _ _ Hwf Hstep) as Hwf'.
    destruct (wf_heap q' Hwf' l t' Hl') as (_ & Hcnt & _). lia.
  - intros t result v. by destruct (on_PASS_fields t result v) as (_ & ? & ?).
  - intros t. apply on_RETRY_counters.
  - intros i l ph t m Hi Hl.
    assert (Hcs : consecutive_successes (envelope t) = 0).
    { assert (phase_ok ph t) as Hok.
      { eapply (wf_pass q Hwf l); [|done]. by eapply list_elem_of_lookup_2. }
      destruct ph; by destruct Hok. }
    destruct (handleFailure_counters t m) as (? & ? & _). split; congruence.
Qed.

(** C5.  With [hops >= ttl_max], the RETRY branch and [handleFailure]
    dead-letter the task whatever its [ttl_max], its failure streak and its
    [escalated] flag are: the TTL test stands before the escalation test and
    returns, so the failure is counted and the status is [dead-lettered],
    the task is saved and its dead-letter record written, and neither the
    mode nor [escalated] is touched, also when the counted failure is the
    third one of a task that is not escalated.  In any scheduler that holds
    each task in one place, the step of such an answer (a RETRY verdict, an
    awaited call that raised, a TypeError after it) exists: the task has
    then left [queue], the running passes and [processing], and no later
    event brings it back or changes it.  Every state the scheduler reaches
    holds each task in one place. *)
Theorem ttl_dead_letter_takes_priority :
  (∀ t,
     ttl_max (envelope t) ≤ hops (envelope t) →
     ∃ t',
       on_RETRY t = (t', [SaveTask t'; DeadLetter t'], Released)
       ∧ status t' = dead_lettered
       ∧ consecutive_failures (envelope t') = S (consecutive_failures (envelope t))
       ∧ escalated (envelope t') = escalated (envelope t)
       ∧ mode (envelope t') = mode (envelope t))
  ∧ (∀ t message,
       ttl_max (envelope t) ≤ hops (envelope t) →
       ∃ t',
         handleFailure t message = (t', [SaveTask t'; DeadLetter t'], Released)
         ∧ status t' = dead_lettered
         ∧ consecutive_failures (envelope t') = S (consecutive_failures (envelope t))
         ∧ escalated (envelope t') = escalated (envelope t)
         ∧ mode (envelope t') = mode (envelope t))
  ∧ (∀ t result r v,
       verifyResult t result r = Fulfilled v →
       prop v "status" = Some (JStr "RETRY") →
       retry_class t (Verifying result) (FromGemini r) = true
       ∧ resume t (Verifying result) (FromGemini r) = Some (on_RETRY t))
  ∧ (∀ q i l ph t a,
       coherent q →
       passes q !! i = Some (l, ph) →
       heap q !! l = Some t →
       retry_class t ph a = true →
       ttl_max (envelope t) ≤ hops (envelope t) →
       ∃ q' t',
         step q (Settle i a) = Some q'
         ∧ heap q' !! l = Some t'
         ∧ status t' = dead_lettered
         ∧ consecutive_failures (envelope t') = S (consecutive_failures (envelope t))
         ∧ escalated (envelope t') = escalated (envelope t)
         ∧ (mode (envelope t') = ARCHITECT → mode (envelope t) = ARCHITECT)
         ∧ DeadLetter t' ∈ disk q'
         ∧ ∀ es' q'', run q' es' = Some q'' →
             retired l q'' ∧ heap q'' !! l = Some t')
  ∧ (∀ cap es q, run (empty_queue cap) es = Some q → coherent q).
Proof.
  split_and!.
  - intros t Httl. eexists. split; [by apply on_RETRY_ttl|].
    by destruct t as [? ? ? ? ? ? ? ? ? ? ? ? []].
  - intros t message Httl. eexists. split; [by apply handleFailure_ttl|].
    by destruct t as [? ? ? ? ? ? ? ? ? ? ? ? []].
  - intros t result r v Hv Hst. simpl. rewrite Hv. simpl.
    unfold processTask_verified, is_str. by rewrite Hst.
  - intros q i l ph t a Hco Hi Hl Hc Httl.
    destruct (resume_ttl t ph a Hc Httl) as
      (t' & w & Hres & Hst & Hdl & Hcf & Hesc & Hmode).
    assert (Hl' : heap (commit l i (t', w, Released) q) !! l = Some t').
    { simpl. apply list_lookup_insert_eq. by eapply lookup_lt_Some. }
    exists (commit l i (t', w, Released) q), t'. split_and!; try done.
    + by apply (settle_resume q i l ph t).
    + simpl. apply elem_of_app. by right.
    + intros es' q'' Hrun'.
      assert (Hret : retired l (commit l i (t', w, Released) q)).
      { eapply commit_retires_coherent; eauto. }
      destruct (retired_run es' l _ q'' Hret Hrun') as [Hret' Hsame].
      split; [done|]. by rewrite Hsame.
  - intros cap es q Hrun. by eapply wf_coherent, wf_reachable.
Qed.

(** C6.  In every state the scheduler reaches, [hops <= ttl_max] holds of
    every task, terminal or not; a task waiting in [queue] has
    [hops < ttl_max], so that its next pass stays within the bound; and no
    event lowers the [hops] of a task or changes its [ttl_max]. *)
Theorem hops_monotone_and_bounded cap es q :
  run (empty_queue cap) es = Some q →
  (∀ l t, heap q !! l = Some t → hops (envelope t) ≤ ttl_max (envelope t))
  ∧ (∀ l t, l ∈ queue q → heap q !! l = Some t →
       hops (envelope t) < ttl_max (envelope t))
  ∧ (∀ e q' l t,
       step q e = Some q' → heap q !! l = Some t →
       ∃ t', heap q' !! l = Some t'
             ∧ hops (envelope t) ≤ hops (envelope t')
             ∧ ttl_max (envelope t') = ttl_max (envelope t)).
Proof.
  intros Hrun. pose proof (wf_reachable _ _ _ Hrun) as Hwf. split_and!.
  - intros l t Hl. by destruct (wf_heap q Hwf l t Hl) as (? & _).
  - intros l t Hq Hl. by destruct (wf_queue q Hwf l t Hq Hl) as (_ & ?).
  - intros e q' l t Hstep Hl.
    destruct (step_task _ _ _ _ _ Hstep Hl) as
      [Hsame|[[_ Htick]|(i & ph & a & t' & w & o & _ & _ & Hres & _ & Hl')]].
    + by exists t.
    + by exists (set_status classifying t).
    + exists t'. split; [done|].
      destruct (resume_frame _ _ _ _ _ _ Hres) as (_ & _ & Httl & _).
      split; [|done].
      destruct (resume_hops _ _ _ _ _ _ Hres) as
        [(? & ? & _ & _ & _ & Hh & _)|[Hh _]]; lia.
Qed.

(** C7.  The PASS branch sets the status to [completed], adds one to
    [consecutive_successes], zeroes [consecutive_failures], and sets the mode
    to EXECUTE and clears [escalated] exactly when the raised success counter
    is at least 2 and [escalated] was set.  In a run of the scheduler the
    step of a PASS verdict exists whatever [hops] is; the task is then in
    [done] with [consecutive_failures = 0] and [consecutive_successes = 1],
    out of [queue], of the running passes and of [processing], and no later
    event brings it back or changes it. *)
Theorem pass_verdict_completes :
  (∀ t result v,
     prop v "status" = Some (JStr "PASS") →
     ∃ t',
       processTask_verified t result v = (t', [SaveTask t'], Finished)
       ∧ status t' = completed
       ∧ consecutive_successes (envelope t') = S (consecutive_successes (envelope t))
       ∧ consecutive_failures (envelope t') = 0
       ∧ (2 ≤ consecutive_successes (envelope t') ∧ escalated (envelope t) = true →
            mode (envelope t') = EXECUTE ∧ escalated (envelope t') = false)
       ∧ (¬ (2 ≤ consecutive_successes (envelope t') ∧ escalated (envelope t) = true) →
            mode (envelope t') = mode (envelope t)
            ∧ escalated (envelope t') = escalated (envelope t)))
  ∧ (∀ cap es q i l result t r v,
       run (empty_queue cap) es = Some q →
       passes q !! i = Some (l, Verifying result) →
       heap q !! l = Some t →
       verifyResult t result r = Fulfilled v →
       prop v "status" = Some (JStr "PASS") →
       ∃ q' t',
         step q (Settle i (FromGemini r)) = Some q'
         ∧ heap q' !! l = Some t'
         ∧ status t' = completed
         ∧ consecutive_failures (envelope t') = 0
         ∧ consecutive_successes (envelope t') = 1
         ∧ l ∈ done q'
         ∧ ∀ es' q'', run q' es' = Some q'' →
             retired l q'' ∧ heap q'' !! l = Some t').
Proof.
  assert (Hfun : ∀ t result v, prop v "status" = Some (JStr "PASS") →
            processTask_verified t result v = on_PASS t result v).
  { intros t result v Hv. unfold processTask_verified. by rewrite Hv. }
  split.
  - intros t result v Hv. rewrite (Hfun _ _ _ Hv).
    exists (on_PASS t result v).1.1.
    pose proof (on_PASS_deescalates t result v) as [Hde Hno].
    destruct (on_PASS_fields t result v) as (Hst & Hcs & Hcf).
    split_and!; [done..| |].
    + rewrite Hcs. apply Hde.
    + rewrite Hcs. apply Hno.
  - intros cap es q i l result t r v Hrun Hi Hl Hver Hv.
    pose proof (wf_reachable _ _ _ Hrun) as Hwf.
    assert (Hcs : consecutive_successes (envelope t) = 0).
    { assert (phase_ok (Verifying result) t) as [? _]; [|done].
      eapply (wf_pass q Hwf l); [|done]. by eapply list_elem_of_lookup_2. }
    set (t' := (on_PASS t result v).1.1).
    assert (Hres : resume t (Verifying result) (FromGemini r)
                   = Some (t', [SaveTask t'], Finished)).
    { simpl. rewrite Hver. simpl. by rewrite (Hfun _ _ _ Hv). }
    assert (Hl' : heap (commit l i (t', [SaveTask t'], Finished) q) !! l = Some t').
    { simpl. apply list_lookup_insert_eq. by eapply lookup_lt_Some. }
    exists (commit l i (t', [SaveTask t'], Finished) q), t'. split_and!.
    + by apply (settle_resume q i l (Verifying result) t).
    + done.
    + by destruct (on_PASS_fields t result v) as (? & _).
    + by destruct (on_PASS_fields t result v) as (_ & _ & ?).
    + destruct (on_PASS_fields t result v) as (_ & Hs & _). subst t'. lia.
    + simpl. apply elem_of_app. right. by apply list_elem_of_singleton.
    + intros es' q'' Hrun'.
      assert (Hret : retired l (commit l i (t', [SaveTask t'], Finished) q)).
      { eapply commit_retires; eauto. }
      destruct (retired_run es' l _ q'' Hret Hrun') as [Hret' Hsame].
      split; [done|]. by rewrite Hsame.
Qed.

(** C10.  In every state the scheduler reaches, [state_hashes] and
    [session_ids] are empty in every task, and no event changes either field
    of a task. *)
Theorem audit_fields_stay_empty cap es q :
  run (empty_queue cap) es = Some q →
  (∀ l t, heap q !! l = Some t →
     state_hashes (envelope t) = [] ∧ session_ids (envelope t) = [])
  ∧ (∀ e q' l t t',
       step q e = Some q' → heap q !! l = Some t → heap q' !! l = Some t' →
       state_hashes (envelope t') = state_hashes (envelope t)
       ∧ session_ids (envelope t') = session_ids (envelope t)).
Proof.
  intros Hrun. pose proof (wf_reachable _ _ _ Hrun) as Hwf. split.
  - intros l t Hl. by destruct (wf_heap q Hwf l t Hl) as (_ & _ & ? & ?).
  - intros e q' l t t' Hstep Hl Hl'.
    destruct (step_task _ _ _ _ _ Hstep Hl) as
      [Hsame|[[_ Htick]|(i & ph & a & t1 & w & o & _ & _ & Hres & _ & Hl1)]].
    + by simplify_eq.
    + by simplify_eq.
    + simplify_eq. by destruct (resume_frame _ _ _ _ _ _ Hres) as (_ & _ & _ & ? & ?).
Qed.

(** C3, as amended.  When the text returned for the verification does not
    parse, [callGeminiJSON] hands [{ raw: text }] to the scheduler, which
    finds neither ['PASS'] nor ['RETRY'] in its missing [status] and takes
    the last branch: the step exists, the task is [needs-human] with the
    envelope as it was (no failure is counted), it is not put back on
    [queue], and it leaves the running passes and [processing]. *)
Theorem unparsable_verdict_needs_human q i l result t raw :
  passes q !! i = Some (l, Verifying result) →
  heap q !! l = Some t →
  JSON_parse (strip_fences raw) = None →
  let v := JObj [("raw", JStr (strip_fences raw))] in
  let t' := set_verification v (set_status needs_human t) in
  let q' := commit l i (t', [SaveTask t'], Released) q in
  step q (Settle i (FromGemini (Fulfilled raw))) = Some q'
  ∧ retry_class t (Verifying result) (FromGemini (Fulfilled raw)) = false
  ∧ heap q' !! l = Some t'
  ∧ status t' = needs_human
  ∧ envelope t' = envelope t
  ∧ queue q' = queue q
  ∧ done q' = done q
  ∧ passes q' = delete i (passes q)
  ∧ processing q' !! id t = None.
Proof.
  intros Hi Hl Hparse v t' q'.
  assert (Hver : verifyResult t result (Fulfilled raw) = Fulfilled v).
  { unfold verifyResult, callGeminiJSON. rewrite Hparse. done. }
  split_and!; try done.
  - apply (settle_resume q i l (Verifying result) t); [done..|].
    simpl. by rewrite Hver.
  - simpl. by rewrite Hver.
  - simpl. apply list_lookup_insert_eq. by eapply lookup_lt_Some.
  - simpl. apply lookup_delete_eq.
Qed.

(** C8.  The [switch] of the executing phase awaits [architectTask], and not
    the Executor, exactly when the mode is ARCHITECT.  Whenever
    [architectTask] returns an analysis with a truthy [revised_plan] and a
    [should_escalate_to_human] that is false (or absent), it has itself
    replaced [task.plan] by the revised plan and set the mode to EXECUTE: the
    task is saved in that state on entering the verifying phase, before
    [verifyResult] is called.  [architectTask] returns the analysis that
    [callGeminiJSON] produced exactly when its log line can print
    [root_cause] and [confidence]; the line stands before the swap, so when
    one of the two cannot be printed the call raises and leaves the plan and
    the mode of the task as they were. *)
Theorem architect_mode_swaps_plan :
  (∀ m p, dispatch m p = Architecting ↔ m = ARCHITECT)
  ∧ (∀ t p, mode (envelope t) = ARCHITECT →
       ∃ t1 w, processTask_planned t p = (t1, w, Await Architecting))
  ∧ (∀ t r t1 analysis revised,
       architectTask t r = (t1, Fulfilled analysis) →
       prop analysis "revised_plan" = Some revised →
       truthy revised = true →
       truthy_opt (prop analysis "should_escalate_to_human") = false →
       let swapped := on_envelope (set_mode EXECUTE) (set_plan revised t) in
       t1 = swapped
       ∧ plan swapped = Some revised
       ∧ mode (envelope swapped) = EXECUTE
       ∧ ∃ t' w o,
           resume t Architecting (FromGemini r)
             = Some (t', SaveTask (set_status verifying swapped) :: w, o)
           ∧ (∀ ph, o = Await ph →
                ph = Verifying analysis ∧ t' = set_status verifying swapped))
  ∧ (∀ t r analysis,
       callGeminiJSON r = Fulfilled analysis →
       is_null analysis = false →
       ((∃ t1, architectTask t r = (t1, Fulfilled analysis))
        ↔ printable (prop analysis "root_cause")
          ∧ printable (prop analysis "confidence"))
       ∧ ((∃ message, architectTask t r = (t, Rejected message))
          ↔ ¬ (printable (prop analysis "root_cause")
               ∧ printable (prop analysis "confidence")))).
Proof.
  assert (Hd : ∀ m p, dispatch m p = Architecting ↔ m = ARCHITECT).
  { intros m p. unfold dispatch, ARCHITECT. split.
    - destruct m as [| | |s| |]; try done.
      destruct (String.eqb s "EXECUTE"); [done|].
      destruct (String.eqb s "SUPERVISE"); [done|].
      destruct (String.eqb_spec s "ARCHITECT"); [by subst|done].
    - by intros ->. }
  split_and!; [done| | |].
  - intros t p Hm. eexists _, _. unfold processTask_planned. simpl.
    do 2 f_equal. rewrite Hm. by apply Hd.
  - intros t r t1 analysis revised Ha Hrev Htr Hesc swapped.
    assert (Hsw : t1 = swapped).
    { unfold architectTask in Ha.
      destruct (callGeminiJSON r) as [m|an]; [by simplify_eq|].
      destruct (is_null an); [by simplify_eq|].
      destruct (after_printing _ _); [by simplify_eq|].
      destruct (prop an "revised_plan") as [rev|] eqn:Hrev'.
      - destruct (truthy rev && _) eqn:Hif; simplify_eq; [done|].
        rewrite Htr, Hesc in Hif. done.
      - simplify_eq. }
    subst t1. split_and!; [done..|].
    simpl. rewrite Ha. simpl. unfold processTask_executed.
    destruct (expected_outcome (set_status verifying swapped)) as [message|?].
    + destruct (handleFailure _ _) as [[t' w] o] eqn:Hf.
      exists t', w, o. split; [done|]. intros ph ->.
      unfold handleFailure in Hf. by repeat case_match.
    + eexists _, [], _. split; [done|]. intros ph Hph. by simplify_eq.
  - intros t r analysis Hcall Hnull. unfold architectTask, printable.
    rewrite Hcall, Hnull.
    destruct (text_of (prop analysis "root_cause")) as [m1|s1]; simpl.
    { split.
      - split; [by intros [t1 Ht1]|by intros [[s Hs] _]].
      - split; [by intros _ [[s Hs] _]|intros _; by exists m1]. }
    destruct (text_of (prop analysis "confidence")) as [m2|s2]; simpl.
    { split.
      - split; [by intros [t1 Ht1]|by intros [_ [s Hs]]].
      - split; [by intros _ [_ [s Hs]]|intros _; by exists m2]. }
    split.
    + split; [intros _; split; by eexists|intros _].
      repeat case_match; by eexists.
    + split; [|intros Hn; destruct Hn; split; by eexists].
      intros [message Hm]. repeat case_match; by simplify_eq.
Qed.

Lemma continue_pass_hops answers : ∀ t w o t' w' o',
  o ≠ Await Planning →
  continue_pass (t, w, o) answers = Some (t', w', o') →
  hops (envelope t') = hops (envelope t).
Proof.
  induction answers as [|a rest IH]; intros t w o t' w' o' Ho Hc.
  - simpl in Hc. destruct o; by simplify_eq.
  - destruct o as [ph| | |]; simpl in Hc; try by simplify_eq.
    destruct (resume t ph a) as [[[t1 w1] o1]|] eqn:Hres; simpl in Hc; [|done].
    assert (Ho1 : o1 ≠ Await Planning).
    { intros ->. by eapply resume_not_planning. }
    rewrite (IH _ _ _ _ _ _ Ho1 Hc).
    destruct (resume_hops _ _ _ _ _ _ Hres) as
      [(r & p & -> & _)|[Hh _]]; [done|done].
Qed.

Lemma continue_pass_ended t w o answers :
  (∀ ph, o ≠ Await ph) → continue_pass (t, w, o) answers = Some (t, w, o).
Proof. intros Ho. destruct o; destruct answers; try done; by destruct (Ho ph). Qed.

(** C9, as amended.  A pass adds one to [hops] when its planning call yields
    a plan, in the code that runs from the plan to the dispatch of phase 2,
    and adds nothing when the planning call fails: the failure handler then
    ends the pass with [hops] as it was.  No other event changes the [hops]
    of a task, and [enqueue] stores the task as it is given. *)
Theorem hops_incremented_on_dispatch :
  (∀ t answers t' w o,
     whole_pass t answers = Some (t', w, o) →
     (∀ ph, o ≠ Await ph) →
     ∃ r rest, answers = FromGemini r :: rest
       ∧ hops (envelope t')
         = match planExecution t r with
           | Fulfilled _ => S (hops (envelope t))
           | Rejected _ => hops (envelope t)
           end)
  ∧ (∀ t p, ∃ t1 t2,
       processTask_planned t p
         = (t2, [SaveTask t1; SaveTask t2], Await (dispatch (mode (envelope t)) p))
       ∧ status t1 = planned ∧ hops (envelope t1) = hops (envelope t)
       ∧ status t2 = executing ∧ hops (envelope t2) = S (hops (envelope t)))
  ∧ (∀ q e q' l t t',
       step q e = Some q' → heap q !! l = Some t → heap q' !! l = Some t' →
       hops (envelope t') ≠ hops (envelope t) →
       ∃ i r p, e = Settle i (FromGemini r)
         ∧ passes q !! i = Some (l, Planning)
         ∧ planExecution t r = Fulfilled p
         ∧ hops (envelope t') = S (hops (envelope t)))
  ∧ (∀ t q, heap (enqueue t q) !! length (heap q) = Some t).
Proof.
  split_and!.
  - intros t answers t' w o Hp Hend. unfold whole_pass, processTask_begin in Hp.
    destruct answers as [|a rest]; simpl in Hp.
    { simplify_eq. by destruct (Hend Planning). }
    destruct a as [r|r]; [|done]. exists r, rest. split; [done|].
    change (planExecution (set_status classifying t) r) with (planExecution t r) in Hp.
    destruct (planExecution t r) as [m|p]; simpl in Hp.
    + destruct (handleFailure (set_status classifying t) m) as [[t1 w1] o1] eqn:Hf.
      assert (Ho1 : (∀ ph, o1 ≠ Await ph)
                    ∧ hops (envelope t1) = hops (envelope t)).
      { unfold handleFailure in Hf. repeat case_match; by simplify_eq/=. }
      destruct Ho1 as [Ho1 Hh1].
      rewrite continue_pass_ended in Hp by done. by simplify_eq.
    + unfold processTask_planned in Hp.
      apply continue_pass_hops in Hp; [done|].
      intros Heq. simplify_eq. by eapply dispatch_not_planning.
  - intros t p. by eexists _, _.
  - intros q e q' l t t' Hstep Hl Hl' Hne.
    destruct (step_task _ _ _ _ _ Hstep Hl) as
      [Hsame|[[_ Htick]|(i & ph & a & t1 & w & o & -> & Hi & Hres & _ & Hl1)]].
    + by simplify_eq.
    + by simplify_eq.
    + simplify_eq.
      destruct (resume_hops _ _ _ _ _ _ Hres) as
        [(r & p & -> & -> & Hp & Hh & _)|[Hh _]]; [|done].
      by exists i, r, p.
  - intros t q. simpl. by rewrite lookup_app_r, Nat.sub_diag.
Qed.

End Properties.

(** * The claims on sample runs

    The runs below use [sample_builtins]; the states they reach are
    [first_verdict_due] (hop 1, verdict awaited), [fourth_verdict_due] (three
    RETRY verdicts, then the analysis of the ARCHITECT pass has swapped in
    its plan) and [tenth_verdict_due] (nine RETRY verdicts, hop 10). *)

Lemma first_verdict_due_reached :
  sample_run (sample_submit :: execute_pass) = Some first_verdict_due
  ∧ passes first_verdict_due !! 0 = Some (0, Verifying sample_result)
  ∧ heap first_verdict_due !! 0 = Some first_verdict_task.
Proof. split_and!; vm_compute; reflexivity. Qed.

Lemma fourth_verdict_due_reached :
  sample_run fourth_pass = Some fourth_verdict_due
  ∧ passes fourth_verdict_due !! 0 = Some (0, Verifying sample_analysis)
  ∧ heap fourth_verdict_due !! 0 = Some fourth_verdict_task.
Proof. split_and!; vm_compute; reflexivity. Qed.

Lemma tenth_verdict_due_reached :
  sample_run tenth_pass = Some tenth_verdict_due
  ∧ passes tenth_verdict_due !! 0 = Some (0, Verifying sample_result)
  ∧ heap tenth_verdict_due !! 0 = Some tenth_verdict_task.
Proof. split_and!; vm_compute; reflexivity. Qed.

(** C1 on the run up to the verdict of hop 10. *)
Lemma counters_never_both_nonzero_witness :
  sample_run tenth_pass = Some tenth_verdict_due
  ∧ ∀ l t, heap tenth_verdict_due !! l = Some t →
      consecutive_failures (envelope t) = 0
      ∨ consecutive_successes (envelope t) = 0.
Proof.
  split; [vm_compute; reflexivity|].
  refine (proj1 (counters_never_both_nonzero (builtins := sample_builtins)
                   (Some 3%Z) tenth_pass tenth_verdict_due _)).
  vm_compute; reflexivity.
Defined.

(** C2.  After three RETRY verdicts and an analysis with a revised plan the
    task is escalated and in EXECUTE mode.  A verification call that fails
    there makes [handleFailure] set the mode to ARCHITECT, where a RETRY
    verdict, and so the update the specification describes, leaves it at
    EXECUTE: the handler lacks the [!escalated] guard of the RETRY branch. *)
Theorem handleFailure_differs_from_RETRY :
  sample_run fourth_pass = Some fourth_verdict_due
  ∧ heap fourth_verdict_due !! 0 = Some fourth_verdict_task
  ∧ handleFailure fourth_verdict_task "fetch failed"
    ≠ retry_equivalent fourth_verdict_task "fetch failed"
  ∧ mode (envelope (handleFailure fourth_verdict_task "fetch failed").1.1)
    = ARCHITECT
  ∧ mode (envelope (retry_equivalent fourth_verdict_task "fetch failed").1.1)
    = EXECUTE
  ∧ mode (envelope (task_after
            (fourth_pass ++ [Settle 0 (FromGemini (Rejected "fetch failed"))])))
    = ARCHITECT
  ∧ mode (envelope (task_after (fourth_pass ++ [verdict "RETRY"]))) = EXECUTE.
Proof. split_and!; try (vm_compute; reflexivity). vm_compute. discriminate. Qed.

(** C3: the claim fails on the first verdict of the sample task.  The reply
    does not parse; the step is not the one of a RETRY verdict: no failure
    is counted, the task is not re-enqueued, and its status is
    [needs-human]. *)
Lemma unparsable_verdict_not_retried :
  JSON_parse (Builtins := sample_builtins)
    (strip_fences (builtins := sample_builtins) "Looks fine to me.") = None
  ∧ resume (builtins := sample_builtins) first_verdict_task
      (Verifying sample_result) (FromGemini (Fulfilled "Looks fine to me."))
    ≠ Some (on_RETRY first_verdict_task)
  ∧ ∃ q' t',
      step (builtins := sample_builtins) first_verdict_due
        (verdict "Looks fine to me.") = Some q'
      ∧ heap q' !! 0 = Some t'
      ∧ status t' = needs_human
      ∧ consecutive_failures (envelope t')
        = consecutive_failures (envelope first_verdict_task)
      ∧ queue q' = [].
Proof.
  split_and!; [vm_compute; reflexivity|vm_compute; discriminate|].
  eexists _, _. split_and!; vm_compute; reflexivity.
Qed.

(** C3, as amended, on the same step. *)
Lemma unparsable_verdict_needs_human_witness :
  passes first_verdict_due !! 0 = Some (0, Verifying sample_result)
  ∧ heap first_verdict_due !! 0 = Some first_verdict_task
  ∧ ∃ q', step (builtins := sample_builtins) first_verdict_due
            (verdict "Looks fine to me.") = Some q'
          ∧ queue q' = queue first_verdict_due.
Proof.
  split_and!; [vm_compute; reflexivity..|].
  pose proof (unparsable_verdict_needs_human (builtins := sample_builtins)
    first_verdict_due 0 0 sample_result first_verdict_task "Looks fine to me."
    ltac:(vm_compute; reflexivity) ltac:(vm_compute; reflexivity)
    ltac:(vm_compute; reflexivity)) as (Hstep & _ & _ & _ & _ & Hq & _).
  eexists. split; [exact Hstep|exact Hq].
Defined.

(** C4.  In the same state, with [escalated] already true, a failed
    verification call forces the mode from EXECUTE to ARCHITECT. *)
Theorem failure_escalates_when_already_escalated :
  sample_run fourth_pass = Some fourth_verdict_due
  ∧ heap fourth_verdict_due !! 0 = Some fourth_verdict_task
  ∧ escalated (envelope fourth_verdict_task) = true
  ∧ mode (envelope fourth_verdict_task) = EXECUTE
  ∧ consecutive_failures (envelope fourth_verdict_task) = 3
  ∧ ∃ q' t',
      step (builtins := sample_builtins) fourth_verdict_due
        (Settle 0 (FromGemini (Rejected "fetch failed"))) = Some q'
      ∧ heap q' !! 0 = Some t'
      ∧ status t' = retrying
      ∧ consecutive_failures (envelope t') = 4
      ∧ escalated (envelope t') = true
      ∧ mode (envelope t') = ARCHITECT.
Proof.
  split_and!; try (vm_compute; reflexivity).
  eexists _, _. split_and!; vm_compute; reflexivity.
Qed.

(** C5 on hop 10 of the sample task, a RETRY verdict at [hops = ttl_max],
    and on scenario 3: a task with [ttl_max = 3] that is not escalated meets
    its third RETRY verdict on hop 3.  It is dead-lettered with three
    failures on record, and is not escalated. *)
Lemma ttl_dead_letter_takes_priority_witness :
  (sample_run tenth_pass = Some tenth_verdict_due
   ∧ hops (envelope tenth_verdict_task) = 10
   ∧ ∃ q' t',
       step (builtins := sample_builtins) tenth_verdict_due (verdict "RETRY") = Some q'
       ∧ heap q' !! 0 = Some t'
       ∧ status t' = dead_lettered)
  ∧ (ttl_max (envelope short_lived_task) = 3
     ∧ hops (envelope short_lived_task) = 3
     ∧ consecutive_failures (envelope short_lived_task) = 2
     ∧ escalated (envelope short_lived_task) = false
     ∧ mode (envelope short_lived_task) = EXECUTE
     ∧ (∃ t',
          on_RETRY short_lived_task = (t', [SaveTask t'; DeadLetter t'], Released)
          ∧ status t' = dead_lettered
          ∧ consecutive_failures (envelope t') = 3
          ∧ escalated (envelope t') = false
          ∧ mode (envelope t') = EXECUTE)
     ∧ ∃ q' t',
         step (builtins := sample_builtins) short_lived_due (verdict "RETRY") = Some q'
         ∧ heap q' !! 0 = Some t'
         ∧ status t' = dead_lettered
         ∧ consecutive_failures (envelope t') = 3
         ∧ escalated (envelope t') = false
         ∧ ∀ es' q'', run (builtins := sample_builtins) q' es' = Some q'' →
             retired 0 q'' ∧ heap q'' !! 0 = Some t').
Proof.
  destruct (ttl_dead_letter_takes_priority (builtins := sample_builtins))
    as (Hretry & _ & _ & Hstep & Hreach).
  split.
  - split_and!; [vm_compute; reflexivity..|].
    destruct (Hstep tenth_verdict_due 0 0 (Verifying sample_result)
      tenth_verdict_task (FromGemini (Fulfilled "RETRY"))
      (Hreach (Some 3%Z) tenth_pass tenth_verdict_due ltac:(vm_compute; reflexivity))
      ltac:(vm_compute; reflexivity) ltac:(vm_compute; reflexivity)
      ltac:(vm_compute; reflexivity) ltac:(vm_compute; lia))
      as (q' & t' & Hq' & Hl & Hst & _).
    exists q', t'. by split_and!.
  - split_and!; [vm_compute; reflexivity..| |].
    + destruct (Hretry short_lived_task ltac:(vm_compute; lia))
        as (t' & Ht' & Hst & Hcf & Hesc & Hmode).
      exists t'. split_and!; [done..|by rewrite Hcf|by rewrite Hesc|by rewrite Hmode].
    + assert (Hco : coherent short_lived_due).
      { split.
        - vm_compute. apply NoDup_singleton.
        - intros k l Hk.
          change (processing short_lived_due)
            with ({[ "LEGACY-1" := 0 ]} : gmap string nat) in Hk.
          apply lookup_singleton_Some in Hk as [<- <-]. by eexists. }
      destruct (Hstep short_lived_due 0 0 (Verifying sample_result)
        short_lived_task (FromGemini (Fulfilled "RETRY")) Hco
        ltac:(vm_compute; reflexivity) ltac:(vm_compute; reflexivity)
        ltac:(vm_compute; reflexivity) ltac:(vm_compute; lia))
        as (q' & t' & Hq' & Hl & Hst & Hcf & Hesc & _ & _ & Hperm).
      exists q', t'. split_and!; [done..|by rewrite Hcf|by rewrite Hesc|done].
Defined.

(** C6 on the run up to the verdict of hop 10. *)
Lemma hops_monotone_and_bounded_witness :
  sample_run tenth_pass = Some tenth_verdict_due
  ∧ ∀ l t, heap tenth_verdict_due !! l = Some t →
      hops (envelope t) ≤ ttl_max (envelope t).
Proof.
  split; [vm_compute; reflexivity|].
  refine (proj1 (hops_monotone_and_bounded (builtins := sample_builtins)
                   (Some 3%Z) tenth_pass tenth_verdict_due _)).
  vm_compute; reflexivity.
Defined.

(** C7 on the scenario of the specification: RETRY verdicts on hops 1 to 9,
    PASS on hop 10. *)
Lemma pass_verdict_completes_witness :
  (sample_run tenth_pass = Some tenth_verdict_due
   ∧ hops (envelope tenth_verdict_task) = 10
   ∧ consecutive_failures (envelope tenth_verdict_task) = 9
   ∧ ∃ q' t',
       step (builtins := sample_builtins) tenth_verdict_due (verdict "PASS") = Some q'
       ∧ heap q' !! 0 = Some t'
       ∧ status t' = completed
       ∧ consecutive_failures (envelope t') = 0
       ∧ consecutive_successes (envelope t') = 1
       ∧ 0 ∈ done q')
  ∧ (escalated (envelope recovering_task) = true
     ∧ consecutive_successes (envelope recovering_task) = 1
     ∧ ∃ t',
         processTask_verified recovering_task sample_result
           (JObj [("status", JStr "PASS")]) = (t', [SaveTask t'], Finished)
         ∧ consecutive_successes (envelope t') = 2
         ∧ mode (envelope t') = EXECUTE
         ∧ escalated (envelope t') = false).
Proof.
  split.
  - split_and!; [vm_compute; reflexivity..|].
    destruct (proj2 (pass_verdict_completes (builtins := sample_builtins))
      (Some 3%Z) tenth_pass tenth_verdict_due 0 0 sample_result
      tenth_verdict_task (Fulfilled "PASS") (JObj [("status", JStr "PASS")])
      ltac:(vm_compute; reflexivity) ltac:(vm_compute; reflexivity)
      ltac:(vm_compute; reflexivity) ltac:(vm_compute; reflexivity)
      ltac:(vm_compute; reflexivity))
      as (q' & t' & Hstep & Hl & Hst & Hcf & Hcs & Hdone & _).
    exists q', t'. by split_and!.
  - split_and!; [vm_compute; reflexivity..|].
    destruct (proj1 (pass_verdict_completes (builtins := sample_builtins))
      recovering_task sample_result (JObj [("status", JStr "PASS")])
      ltac:(vm_compute; reflexivity))
      as (t' & Hv & _ & Hcs & _ & Hde & _).
    exists t'. split; [done|]. split; [by rewrite Hcs|].
    apply Hde. split; [rewrite Hcs; vm_compute; lia|vm_compute; reflexivity].
Defined.

(** C8 on the fourth pass of the sample task, which runs in ARCHITECT mode:
    the analysis is returned and the plan swapped.  An analysis whose
    [root_cause] cannot be printed is not returned, and the task stays as it
    was. *)
Lemma architect_mode_swaps_plan_witness :
  mode (envelope escalated_task) = ARCHITECT
  ∧ (∃ t1 w, processTask_planned escalated_task (JObj [("steps", JArr [])])
             = (t1, w, Await Architecting))
  ∧ passes analysis_due !! 0 = Some (0, Architecting)
  ∧ heap analysis_due !! 0 = Some analysis_task
  ∧ (∃ t1,
       architectTask (builtins := sample_builtins) analysis_task (Fulfilled "REVISED")
       = (t1, Fulfilled sample_analysis)
       ∧ t1 = on_envelope (set_mode EXECUTE)
                (set_plan (JObj [("steps", JArr [])]) analysis_task)
       ∧ plan t1 = Some (JObj [("steps", JArr [])])
       ∧ mode (envelope t1) = EXECUTE)
  ∧ (∃ message,
       architectTask (builtins := sample_builtins) analysis_task (Fulfilled "OPAQUE")
       = (analysis_task, Rejected message))
  ∧ mode (envelope analysis_task) = ARCHITECT.
Proof.
  destruct (architect_mode_swaps_plan (builtins := sample_builtins))
    as (_ & Hplanned & Hswap & Hlog).
  split_and!; [vm_compute; reflexivity| |vm_compute; reflexivity..| | |vm_compute; reflexivity].
  - apply (Hplanned escalated_task (JObj [("steps", JArr [])])).
    vm_compute; reflexivity.
  - eexists. split; [vm_compute; reflexivity|].
    destruct (Hswap analysis_task (Fulfilled "REVISED") _ sample_analysis
      (JObj [("steps", JArr [])])
      ltac:(vm_compute; reflexivity) ltac:(vm_compute; reflexivity)
      ltac:(vm_compute; reflexivity) ltac:(vm_compute; reflexivity))
      as (Ht1 & Hplan & Hmode & _).
    by split_and!.
  - destruct (Hlog analysis_task (Fulfilled "OPAQUE") opaque_analysis
      ltac:(vm_compute; reflexivity) ltac:(vm_compute; reflexivity))
      as (_ & Hraise).
    apply Hraise. intros [[s Hs] _]. vm_compute in Hs. discriminate Hs.
Defined.

(** C9: the claim fails on a pass whose planning call is rejected.  The pass
    ends, the task is re-enqueued, and [hops] was not incremented. *)
Lemma rejected_planning_keeps_hops :
  (∃ t' w,
     whole_pass (builtins := sample_builtins) sample_task
       [FromGemini (Rejected "Gemini API error (503): unavailable")]
     = Some (t', w, Requeued)
     ∧ status t' = retrying
     ∧ hops (envelope t') = hops (envelope sample_task))
  ∧ ¬ (∀ t answers t' w o,
         whole_pass (builtins := sample_builtins) t answers = Some (t', w, o) →
         (∀ ph, o ≠ Await ph) →
         hops (envelope t') = S (hops (envelope t))).
Proof.
  split; [eexists _, _; split_and!; vm_compute; reflexivity|].
  intros Hall.
  specialize (Hall sample_task
    [FromGemini (Rejected "Gemini API error (503): unavailable")]
    _ _ Requeued ltac:(vm_compute; reflexivity) ltac:(done)).
  vm_compute in Hall. discriminate.
Qed.

(** C9, as amended, on the same pass and on one whose planning succeeds. *)
Lemma hops_incremented_on_dispatch_witness :
  (∃ t' w, whole_pass (builtins := sample_builtins) sample_task
             [FromGemini (Rejected "Gemini API error (503): unavailable")]
           = Some (t', w, Requeued)
           ∧ hops (envelope t') = hops (envelope sample_task))
  ∧ (∃ t' w, whole_pass (builtins := sample_builtins) sample_task
               [FromGemini (Fulfilled "PLAN"); FromExecutor (Fulfilled sample_result);
                FromGemini (Fulfilled "RETRY")]
             = Some (t', w, Requeued)
             ∧ hops (envelope t') = S (hops (envelope sample_task)))
  ∧ (step (builtins := sample_builtins) escalated_state planned_ok = Some analysis_due
     ∧ hops (envelope escalated_task) = 3
     ∧ hops (envelope analysis_task) = 4
     ∧ ∃ i r p, planned_ok = Settle i (FromGemini r)
         ∧ passes escalated_state !! i = Some (0, Planning)
         ∧ planExecution (builtins := sample_builtins) escalated_task r = Fulfilled p).
Proof.
  split; [|split].
  - eexists _, _. split; [vm_compute; reflexivity|].
    destruct (proj1 (hops_incremented_on_dispatch (builtins := sample_builtins))
      sample_task [FromGemini (Rejected "Gemini API error (503): unavailable")]
      _ _ Requeued ltac:(vm_compute; reflexivity) ltac:(done))
      as (r & rest & Heq & Hh).
    by simplify_eq.
  - eexists _, _. split; [vm_compute; reflexivity|].
    destruct (proj1 (hops_incremented_on_dispatch (builtins := sample_builtins))
      sample_task [FromGemini (Fulfilled "PLAN"); FromExecutor (Fulfilled sample_result);
                   FromGemini (Fulfilled "RETRY")]
      _ _ Requeued ltac:(vm_compute; reflexivity) ltac:(done))
      as (r & rest & Heq & Hh).
    by simplify_eq.
  - split_and!; [vm_compute; reflexivity..|].
    destruct (proj1 (proj2 (proj2
        (hops_incremented_on_dispatch (builtins := sample_builtins))))
      escalated_state planned_ok analysis_due 0 escalated_task analysis_task
      ltac:(vm_compute; reflexivity) ltac:(vm_compute; reflexivity)
      ltac:(vm_compute; reflexivity) ltac:(vm_compute; lia))
      as (i & r & p & He & Hi & Hp & _).
    by exists i, r, p.
Defined.

(** C10 on the run up to the verdict of hop 10. *)
Lemma audit_fields_stay_empty_witness :
  sample_run tenth_pass = Some tenth_verdict_due
  ∧ ∀ l t, heap tenth_verdict_due !! l = Some t →
      state_hashes (envelope t) = [] ∧ session_ids (envelope t) = [].
Proof.
  split; [vm_compute; reflexivity|].
  refine (proj1 (audit_fields_stay_empty (builtins := sample_builtins)
                   (Some 3%Z) tenth_pass tenth_verdict_due _)).
  vm_compute; reflexivity.
Defined.

(** * Further properties *)

Section Coverage.

Context {builtins : Builtins}.

(** ** The shape of one event *)

Lemma tick_shape q q' :
  tick q = Some q' →
  q' = q
  ∨ ∃ l rest t,
      at_capacity q = false ∧ queue q = l :: rest ∧ heap q !! l = Some t
      ∧ ((has_slice (description t) = true
          ∧ q' = mkTaskQueue (<[l := set_status classifying t]> (heap q)) rest
                   (<[id t := l]> (processing q)) (done q) (maxConcurrent q)
                   (passes q ++ [(l, Planning)])
                   (disk q ++ [SaveTask (set_status classifying t)]))
         ∨ (has_slice (description t) = false
            ∧ q' = mkTaskQueue (heap q) rest (<[id t := l]> (processing q))
                     (done q) (maxConcurrent q) (passes q) (disk q))).
Proof.
  unfold tick. intros Ht.
  destruct (at_capacity q) eqn:Hcap; [left; by simplify_eq|].
  destruct (queue q) as [|l rest] eqn:Hq; [left; by simplify_eq|].
  destruct (heap q !! l) as [t|] eqn:Hl; simpl in Ht; [|done].
  right. exists l, rest, t. split_and!; [done..|].
  destruct (has_slice (description t)); simplify_eq; [left|right]; done.
Qed.

Lemma webhook_shape taskId message classified src now q :
  webhook taskId message classified src now q = q
  ∨ ∃ classification,
      callGeminiJSON classified = Fulfilled classification
      ∧ classification ≠ JNull
      ∧ is_str "simple" (prop classification "type") = false
      ∧ webhook taskId message classified src now q
        = enqueue (webhook_task taskId message classification src now) q.
Proof.
  unfold webhook. destruct (callGeminiJSON classified) as [m|c]; [by left|].
  destruct c; try (by left);
    (destruct (is_str "simple" _) eqn:Hs; [by left|right; eexists; by split_and!]).
Qed.

(** The passes around the one that runs, and where its task is not. *)
Lemma pass_split q i l ph :
  wf q →
  passes q !! i = Some (l, ph) →
  ∃ A B,
    passes q = A ++ (l, ph) :: B ∧ length A = i
    ∧ (l ∉ queue q) ∧ (l ∉ (A ++ B).*1)
    ∧ ∀ t' w o,
        passes (commit l i (t', w, o) q)
        = match o with
          | Await ph' => A ++ (l, ph') :: B
          | _ => A ++ B
          end.
Proof.
  intros Hwf Hi.
  pose proof (wf_nodup q Hwf) as Hnd. unfold live in Hnd.
  pose proof (take_drop_middle _ _ _ Hi) as Hsplit.
  pose proof (lookup_lt_Some _ _ _ Hi) as Hlen.
  exists (take i (passes q)), (drop (S i) (passes q)).
  rewrite <- Hsplit, fmap_app in Hnd. simpl in Hnd.
  apply NoDup_app in Hnd as (_ & Hqp & Hndp).
  apply NoDup_app in Hndp as (_ & HAB & HndB).
  apply NoDup_cons in HndB as [HlB _].
  split_and!.
  - done.
  - rewrite length_take. lia.
  - intros Hin. apply (Hqp l Hin), elem_of_app. right. by apply elem_of_cons; left.
  - rewrite fmap_app, elem_of_app. intros [Hin|Hin]; [|done].
    apply (HAB l Hin). by apply elem_of_cons; left.
  - intros t' w o. destruct o; simpl.
    + by apply insert_take_drop.
    + apply delete_take_drop.
    + apply delete_take_drop.
    + apply delete_take_drop.
Qed.

(** ** The status a step leaves *)

Lemma resume_status t ph a t' w o :
  resume t ph a = Some (t', w, o) →
  match o with
  | Await ph' => status t' = status_of ph'
  | Requeued => status t' = retrying
  | Finished => status t' = completed
  | Released => status t' = dead_lettered ∨ status t' = needs_human
  end.
Proof.
  intros Hres.
  assert (Hf : ∀ t0 m t1 w1 o1, handleFailure t0 m = (t1, w1, o1) →
            match o1 with
            | Await _ => False
            | Requeued => status t1 = retrying
            | Finished => False
            | Released => status t1 = dead_lettered
            end).
  { intros t0 m t1 w1 o1 Hh. unfold handleFailure in Hh.
    repeat case_match; by simplify_eq/=. }
  assert (He : ∀ t0 res, processTask_executed t0 res = (t', w, o) →
            match o with
            | Await ph' => status t' = status_of ph'
            | Requeued => status t' = retrying
            | Finished => status t' = completed
            | Released => status t' = dead_lettered ∨ status t' = needs_human
            end).
  { intros t0 res Hx. unfold processTask_executed in Hx.
    destruct (expected_outcome _) as [msg|?].
    - destruct (handleFailure _ _) as [[t1 w1] o1] eqn:Hh.
      apply Hf in Hh. simplify_eq. destruct o; auto; done.
    - by simplify_eq/=. }
  destruct ph as [|entry pl| |res0]; destruct a as [r|r]; simpl in Hres; try done.
  - destruct (planExecution t r) as [m|p]; simpl in Hres; injection Hres as Hres.
    + apply Hf in Hres. destruct o; auto; done.
    + unfold processTask_planned in Hres. simplify_eq/=.
      unfold dispatch. repeat case_match; done.
  - destruct r as [m|res]; simpl in Hres; injection Hres as Hres.
    + apply Hf in Hres. destruct o; auto; done.
    + by eapply He.
  - destruct (architectTask t r) as [t1 [m|an]]; simpl in Hres;
      injection Hres as Hres.
    + apply Hf in Hres. destruct o; auto; done.
    + by eapply He.
  - destruct (verifyResult t res0 r) as [m|v]; simpl in Hres;
      injection Hres as Hres.
    + apply Hf in Hres. destruct o; auto; done.
    + unfold processTask_verified, on_PASS, on_RETRY, on_ESCALATE in Hres.
      repeat case_match; simplify_eq/=; auto.
Qed.

(** ** Status and place agree in every state the scheduler reaches *)

Lemma status_of_not_terminal ph : terminal (status_of ph) = false.
Proof. by destruct ph. Qed.

Lemma waiting_not_terminal s : waiting s = true → terminal s = false.
Proof. by destruct s. Qed.

Lemma live_not_terminal q l t :
  tracked q → l ∈ live q → heap q !! l = Some t → terminal (status t) = false.
Proof.
  intros Htr Hl Ht. unfold live in Hl. apply elem_of_app in Hl as [Hl|Hl].
  - apply waiting_not_terminal. by eapply tr_queue.
  - apply list_elem_of_fmap in Hl as ([l' ph] & -> & Hin). simpl in *.
    rewrite (tr_pass q Htr l' ph t Hin Ht). apply status_of_not_terminal.
Qed.

Lemma tracked_empty cap : tracked (empty_queue cap).
Proof.
  split; simpl.
  - intros l t Hl. by apply elem_of_nil in Hl.
  - intros l ph t Hl. by apply elem_of_nil in Hl.
  - intros k l t Hk. by rewrite lookup_empty in Hk.
  - intros l. split; [intros Hl; by apply elem_of_nil in Hl|by intros (t & ? & _)].
  - constructor.
  - intros l t Hl. done.
Qed.

Lemma tracked_enqueue t q :
  wf q → tracked q → status t = received → tracked (enqueue t q).
Proof.
  intros Hwf [Hq Hp Hact Hdone Hnd Hacc] Hst.
  split; unfold live; simpl.
  - intros l t0 Hl Hl0. apply elem_of_app in Hl as [Hl|Hl].
    + rewrite lookup_app_l in Hl0; [by eapply Hq|].
      apply (wf_alloc q Hwf), elem_of_app. by left.
    + apply list_elem_of_singleton in Hl as ->.
      rewrite lookup_app_r, Nat.sub_diag in Hl0 by lia. simplify_eq/=. by rewrite Hst.
  - intros l ph t0 Hl Hl0. rewrite lookup_app_l in Hl0; [by eapply Hp|].
    apply (wf_alloc q Hwf), elem_of_app. right.
    apply list_elem_of_fmap. by exists (l, ph).
  - intros k l t0 Hk Hl0. destruct (wf_active q Hwf k l Hk) as (t1 & Hl1 & _).
    rewrite lookup_app_l in Hl0 by by eapply lookup_lt_Some.
    by eapply Hact.
  - intros l. rewrite Hdone. split.
    + intros (t0 & Hl0 & Hc). exists t0. split; [|done].
      rewrite lookup_app_l; [done|by eapply lookup_lt_Some].
    + intros (t0 & Hl0 & Hc). apply lookup_app_Some in Hl0 as [Hl0|[_ Hl0]].
      * by exists t0.
      * apply list_lookup_singleton_Some in Hl0 as [_ <-]. congruence.
  - done.
  - intros l t0 Hl0. apply lookup_app_Some in Hl0 as [Hl0|[Hge Hl0]].
    + destruct (Hacc l t0 Hl0) as [Hl|Hrest]; [|by right].
      left. unfold live in Hl. rewrite !elem_of_app in *. tauto.
    + apply list_lookup_singleton_Some in Hl0 as [Hz <-].
      left. rewrite !elem_of_app, list_elem_of_singleton.
      left; right. lia.
Qed.

(** One task object is replaced and the collections change around it. *)
Lemma tracked_update q l t t' queue' processing' done' passes' disk' :
  wf q → tracked q →
  heap q !! l = Some t →
  l ∈ live q →
  description t' = description t →
  (∀ x, x ∈ queue' →
     if decide (x = l) then waiting (status t') = true else x ∈ queue q) →
  (∀ x ph, (x, ph) ∈ passes' →
     if decide (x = l) then status t' = status_of ph else (x, ph) ∈ passes q) →
  (∀ k x, processing' !! k = Some x →
     (x = l ∧ terminal (status t') = false)
     ∨ (x ≠ l ∧ processing q !! k = Some x)) →
  NoDup done' →
  (∀ x, x ∈ done' ↔ x ∈ done q ∨ (x = l ∧ status t' = completed)) →
  (l ∈ queue' ++ passes'.*1
   ∨ terminal (status t') = true
   ∨ (waiting (status t') = true ∧ has_slice (description t') = false)) →
  (∀ x, x ≠ l → x ∈ live q → x ∈ queue' ++ passes'.*1) →
  tracked (mkTaskQueue (<[l := t']> (heap q)) queue' processing' done'
             (maxConcurrent q) passes' disk').
Proof.
  intros Hwf Htr Hl Hlive Hdesc Hq' Hp' Hproc' Hnd' Hdone' Hacc' Hkeep.
  pose proof (live_not_terminal q l t Htr Hlive Hl) as Hnt.
  assert (Hlt : l < length (heap q)) by by eapply lookup_lt_Some.
  assert (Hnd : l ∉ done q).
  { intros Hin. apply (tr_done q Htr) in Hin as (t0 & Hl0 & Hc).
    simplify_eq. by rewrite Hc in Hnt. }
  split; unfold live; simpl.
  - intros x t0 Hx Hx0. specialize (Hq' x Hx).
    apply list_lookup_insert_Some in Hx0 as [(<- & <- & _)|[Hne Hx0]].
    + by rewrite decide_True in Hq'.
    + rewrite decide_False in Hq' by done. by eapply (tr_queue q Htr).
  - intros x ph t0 Hx Hx0. specialize (Hp' x ph Hx).
    apply list_lookup_insert_Some in Hx0 as [(<- & <- & _)|[Hne Hx0]].
    + by rewrite decide_True in Hp'.
    + rewrite decide_False in Hp' by done. by eapply (tr_pass q Htr).
  - intros k x t0 Hk Hx0.
    destruct (Hproc' k x Hk) as [[-> Hnt']|[Hne Hold]].
    + rewrite list_lookup_insert_eq in Hx0 by done. by simplify_eq.
    + rewrite list_lookup_insert_ne in Hx0 by done. by eapply (tr_active q Htr).
  - intros x. rewrite Hdone'. split.
    + intros [Hin|[-> Hc]].
      * apply (tr_done q Htr) in Hin as (t0 & Hx0 & Hc).
        exists t0. split; [|done]. rewrite list_lookup_insert_ne; [done|].
        intros <-. simplify_eq. by rewrite Hc in Hnt.
      * exists t'. split; [|done]. by apply list_lookup_insert_eq.
    + intros (t0 & Hx0 & Hc).
      apply list_lookup_insert_Some in Hx0 as [(<- & <- & _)|[Hne Hx0]].
      * by right.
      * left. apply (tr_done q Htr). by exists t0.
  - done.
  - intros x t0 Hx0.
    apply list_lookup_insert_Some in Hx0 as [(<- & <- & _)|[Hne Hx0]]; [done|].
    destruct (tr_account q Htr x t0 Hx0) as [Hx|Hrest]; [|by right].
    left. by apply Hkeep.
Qed.

Lemma tracked_tick q q' : wf q → tracked q → tick q = Some q' → tracked q'.
Proof.
  intros Hwf Htr Ht.
  destruct (tick_shape q q' Ht) as [->|(l & rest & t & _ & Hqueue & Hl & Hcase)];
    [done|].
  pose proof (wf_nodup q Hwf) as Hnd. unfold live in Hnd.
  rewrite Hqueue in Hnd. simpl in Hnd. apply NoDup_cons in Hnd as [Hfresh _].
  rewrite elem_of_app in Hfresh.
  assert (Hlive : l ∈ live q).
  { unfold live. rewrite Hqueue. simpl. by apply elem_of_cons; left. }
  assert (Hw : waiting (status t) = true).
  { eapply (tr_queue q Htr l); [|done]. rewrite Hqueue. by apply elem_of_cons; left. }
  assert (Hrest : ∀ t', ∀ x, x ∈ rest →
            if decide (x = l) then waiting (status t') = true else x ∈ queue q).
  { intros t' x Hx. case_decide as Hxl; [subst; tauto|].
    rewrite Hqueue. by apply elem_of_cons; right. }
  assert (Hdone : ∀ t', terminal (status t') = false →
            ∀ x, x ∈ done q ↔ x ∈ done q ∨ (x = l ∧ status t' = completed)).
  { intros t' Hnt x. split; [by left|]. intros [?|[_ Hc]]; [done|].
    by rewrite Hc in Hnt. }
  destruct Hcase as [[Hsl ->]|[Hsl ->]].
  - apply (tracked_update q l t); try done.
    + by apply Hrest.
    + intros x ph Hx. apply elem_of_app in Hx as [Hx|Hx].
      * case_decide as Hxl; [|done]. subst. exfalso. apply Hfresh. right.
        apply list_elem_of_fmap. by exists (l, ph).
      * apply list_elem_of_singleton in Hx. simplify_eq.
        by rewrite decide_True.
    + intros k x Hk. apply lookup_insert_Some in Hk as [[_ <-]|[_ Hk]]; [by left|].
      destruct (decide (x = l)) as [->|Hne]; [by left|by right].
    + apply (tr_done_nodup q Htr).
    + by apply Hdone.
    + left. rewrite fmap_app, !elem_of_app. simpl.
      rewrite list_elem_of_singleton. auto.
    + intros x Hne Hx. unfold live in Hx. rewrite Hqueue in Hx. simpl in Hx.
      rewrite elem_of_cons, elem_of_app in Hx.
      rewrite fmap_app, !elem_of_app. tauto.
  - rewrite <- (list_insert_id (heap q) l t Hl) at 1.
    apply (tracked_update q l t); try done.
    + by apply Hrest.
    + intros x ph Hx. case_decide as Hxl; [|done]. subst. exfalso.
      apply Hfresh. right. apply list_elem_of_fmap. by exists (l, ph).
    + intros k x Hk. apply lookup_insert_Some in Hk as [[_ <-]|[_ Hk]].
      * left. split; [done|]. by apply waiting_not_terminal.
      * destruct (decide (x = l)) as [->|Hne]; [|by right].
        left. split; [done|]. by apply waiting_not_terminal.
    + apply (tr_done_nodup q Htr).
    + apply Hdone. by apply waiting_not_terminal.
    + by right; right.
    + intros x Hne Hx. unfold live in Hx. rewrite Hqueue in Hx. simpl in Hx.
      rewrite elem_of_cons in Hx. tauto.
Qed.

Lemma tracked_commit q i l ph t a t' w o :
  wf q → tracked q →
  passes q !! i = Some (l, ph) →
  heap q !! l = Some t →
  resume t ph a = Some (t', w, o) →
  tracked (commit l i (t', w, o) q).
Proof.
  intros Hwf Htr Hi Hl Hres.
  destruct (pass_split q i l ph Hwf Hi) as (A & B & Hsplit & _ & Hlq & HlAB & Hpasses).
  pose proof (Hpasses t' w o) as Hp'.
  destruct (resume_frame _ _ _ _ _ _ Hres) as (Hid & Hdesc & _).
  pose proof (resume_status _ _ _ _ _ _ Hres) as Hst.
  assert (Hlive : l ∈ live q).
  { unfold live. rewrite Hsplit, fmap_app, !elem_of_app. simpl.
    rewrite elem_of_cons. auto. }
  pose proof (live_not_terminal q l t Htr Hlive Hl) as Hnt.
  assert (Hnd : l ∉ done q).
  { intros Hin. apply (tr_done q Htr) in Hin as (t0 & Hl0 & Hc).
    simplify_eq. by rewrite Hc in Hnt. }
  assert (HAB : ∀ x ph0, (x, ph0) ∈ A ++ B → x ≠ l ∧ (x, ph0) ∈ passes q).
  { intros x ph0 Hx. split.
    - intros ->. apply HlAB. apply list_elem_of_fmap. by exists (l, ph0).
    - rewrite Hsplit, elem_of_app, elem_of_cons.
      apply elem_of_app in Hx as [?|?]; auto. }
  assert (Hkeep : ∀ x, x ≠ l → x ∈ live q → x ∈ queue q ++ (A ++ B).*1).
  { intros x Hne Hx. unfold live in Hx.
    rewrite Hsplit, fmap_app, !elem_of_app in Hx. simpl in Hx.
    rewrite elem_of_cons in Hx. rewrite fmap_app, !elem_of_app. tauto. }
  assert (Hdel : ∀ k x, delete (id t') (processing q) !! k = Some x →
            (x = l ∧ terminal (status t') = false)
            ∨ (x ≠ l ∧ processing q !! k = Some x)).
  { intros k x Hk. apply lookup_delete_Some in Hk as [Hne Hk]. right.
    split; [|done]. intros ->.
    destruct (wf_active q Hwf k l Hk) as (t0 & Hl0 & Hk0). congruence. }
  assert (Hqq : ∀ x, x ∈ queue q →
            if decide (x = l) then waiting (status t') = true else x ∈ queue q).
  { intros x Hx. case_decide; [by subst|done]. }
  assert (HpAB : ∀ x ph0, (x, ph0) ∈ A ++ B →
            if decide (x = l) then status t' = status_of ph0
            else (x, ph0) ∈ passes q).
  { intros x ph0 Hx. destruct (HAB x ph0 Hx) as [Hne Hin].
    by rewrite decide_False. }
  unfold commit in *. destruct o as [ph'| | |]; simpl in Hp'; rewrite Hp'.
  - apply (tracked_update q l t); try done.
    + intros x ph0 Hx. rewrite elem_of_app, elem_of_cons in Hx.
      destruct Hx as [Hx|[Hx|Hx]].
      * apply HpAB, elem_of_app. by left.
      * simplify_eq. by rewrite decide_True.
      * apply HpAB, elem_of_app. by right.
    + intros k x Hk. destruct (decide (x = l)) as [->|Hne]; [|by right].
      left. split; [done|]. rewrite Hst. apply status_of_not_terminal.
    + apply (tr_done_nodup q Htr).
    + intros x. split; [by left|]. intros [?|[_ Hc]]; [done|].
      rewrite Hst in Hc. by destruct ph'.
    + left. rewrite fmap_app, !elem_of_app. simpl. rewrite elem_of_cons. auto.
    + intros x Hne Hx. apply Hkeep in Hx; [|done].
      rewrite fmap_app, !elem_of_app in *. simpl. rewrite elem_of_cons. tauto.
  - apply (tracked_update q l t); try done.
    + intros x Hx. apply elem_of_app in Hx as [Hx|Hx]; [by apply Hqq|].
      apply list_elem_of_singleton in Hx as ->.
      rewrite decide_True by done. by rewrite Hst.
    + apply (tr_done_nodup q Htr).
    + intros x. split; [by left|]. intros [?|[_ Hc]]; [done|]. congruence.
    + left. rewrite !elem_of_app, list_elem_of_singleton. auto.
    + intros x Hne Hx. apply Hkeep in Hx; [|done].
      rewrite !elem_of_app in *. tauto.
  - apply (tracked_update q l t); try done.
    + apply NoDup_app. split_and!; [apply (tr_done_nodup q Htr)| |apply NoDup_singleton].
      intros x Hx Hx'. apply list_elem_of_singleton in Hx' as ->. done.
    + intros x. rewrite elem_of_app, list_elem_of_singleton. split; [intros [?| ->]; auto|intros [?|[? _]]; auto].
    + right; left. by rewrite Hst.
  - apply (tracked_update q l t); try done.
    + apply (tr_done_nodup q Htr).
    + intros x. split; [by left|]. intros [?|[_ Hc]]; [done|].
      destruct Hst; congruence.
    + right; left. by destruct Hst as [-> | ->].
Qed.

Lemma post_task_submitted taskId description software_name task_type docs now :
  submitted (post_task taskId description software_name task_type docs now).
Proof. unfold submitted. simpl. split_and!; try done. by eexists. Qed.

Lemma webhook_task_submitted taskId message classification src now :
  submitted (webhook_task taskId message classification src now).
Proof. unfold submitted. simpl. split_and!; try done. by eexists. Qed.

Lemma submitted_ok t : submitted t → task_ok t ∧ queued_ok t.
Proof.
  intros (_ & _ & _ & _ & _ & m & He). unfold task_ok, queued_ok. rewrite He.
  simpl. split_and!; auto; lia.
Qed.

Lemma tracked_step q e q' : wf q → tracked q → step q e = Some q' → tracked q'.
Proof.
  intros Hwf Htr Hstep. destruct e; simpl in Hstep.
  - simplify_eq. by apply tracked_enqueue.
  - simplify_eq.
    destruct (webhook_shape taskId message classified src now q)
      as [-> |(c & _ & _ & _ & ->)]; [done|]. by apply tracked_enqueue.
  - by eapply tracked_tick.
  - apply settle_Some in Hstep as (l & ph & t & [[t' w] o] & Hi & Hl & Hres & ->).
    by eapply tracked_commit.
Qed.

Lemma tracked_run es : ∀ q q',
  wf q → tracked q → run q es = Some q' → wf q' ∧ tracked q'.
Proof.
  induction es as [|e es IH]; intros q q' Hwf Htr Hrun; simpl in Hrun.
  - by simplify_eq.
  - destruct (step q e) as [q1|] eqn:Hstep; simpl in Hrun; [|done].
    eapply IH; [| |done]; [by eapply wf_step|by eapply tracked_step].
Qed.

Lemma tracked_reachable cap es q :
  run (empty_queue cap) es = Some q → wf q ∧ tracked q.
Proof. apply tracked_run; [apply wf_empty|apply tracked_empty]. Qed.

(** ** Where the state of a task comes from *)

Lemma step_task_cases q e q' l t' :
  wf q → tracked q →
  step q e = Some q' →
  heap q' !! l = Some t' →
  heap q !! l = Some t'
  ∨ (heap q !! l = None ∧ submitted t')
  ∨ (∃ t, heap q !! l = Some t ∧ waiting (status t) = true
          ∧ has_slice (description t) = true ∧ t' = set_status classifying t)
  ∨ (∃ t ph a w o, heap q !! l = Some t ∧ status t = status_of ph
          ∧ phase_ok ph t ∧ resume t ph a = Some (t', w, o)).
Proof.
  intros Hwf Htr Hstep Hl'.
  assert (Henq : ∀ t, submitted t → heap (enqueue t q) !! l = Some t' →
            heap q !! l = Some t' ∨ (heap q !! l = None ∧ submitted t')).
  { intros t Hsub Hl. simpl in Hl.
    apply lookup_app_Some in Hl as [Hl|[Hge Hl]]; [by left|].
    apply list_lookup_singleton_Some in Hl as [_ <-]. right.
    split; [|done]. by apply lookup_ge_None. }
  destruct e; simpl in Hstep.
  - simplify_eq. destruct (Henq _ (post_task_submitted _ _ _ _ _ _) Hl'); auto.
  - simplify_eq.
    destruct (webhook_shape taskId message classified src now q)
      as [Heq|(c & _ & _ & _ & Heq)]; rewrite Heq in Hl'; [by left|].
    destruct (Henq _ (webhook_task_submitted _ _ _ _ _) Hl'); auto.
  - destruct (tick_shape q q' Hstep) as
      [->|(l0 & rest & t & _ & Hqueue & Hl0 & [[Hsl ->]|[Hsl ->]])];
      [by left| |by left].
    simpl in Hl'.
    apply list_lookup_insert_Some in Hl' as [(<- & <- & _)|[Hne Hl']]; [|by left].
    right; right; left. exists t. split_and!; try done.
    eapply (tr_queue q Htr l0); [|done]. rewrite Hqueue. by apply elem_of_cons; left.
  - apply settle_Some in Hstep as (l0 & ph & t & [[t1 w] o] & Hi & Hl0 & Hres & ->).
    assert (heap (commit l0 i (t1, w, o) q) = <[l0 := t1]> (heap q)) as Hheap
      by by destruct o.
    rewrite Hheap in Hl'.
    apply list_lookup_insert_Some in Hl' as [(<- & <- & _)|[Hne Hl']]; [|by left].
    right; right; right. exists t, ph, a, w, o.
    assert ((l0, ph) ∈ passes q) as Hin by by eapply list_elem_of_lookup_2.
    split_and!; try done.
    + by eapply (tr_pass q Htr).
    + by eapply (wf_pass q Hwf).
Qed.

(** A property of tasks that their submission establishes and that admission
    and every step of a pass keep holds of every task the scheduler ever
    holds. *)
Lemma task_invariant (P : Task → Prop) :
  (∀ t, submitted t → P t) →
  (∀ t, P t → waiting (status t) = true → has_slice (description t) = true →
        P (set_status classifying t)) →
  (∀ t ph a t' w o,
     P t → status t = status_of ph → phase_ok ph t →
     resume t ph a = Some (t', w, o) → P t') →
  ∀ cap es q l t,
    run (empty_queue cap) es = Some q → heap q !! l = Some t → P t.
Proof.
  intros Hnew Hpick Hres cap es q l t Hrun.
  assert (Hgen : ∀ es q q',
            wf q → tracked q → (∀ l t, heap q !! l = Some t → P t) →
            run q es = Some q' → ∀ l t, heap q' !! l = Some t → P t).
  { clear Hrun. intros es0. induction es0 as [|e es0 IH];
      intros q0 q' Hwf Htr HP Hrun; simpl in Hrun.
    - by simplify_eq.
    - destruct (step q0 e) as [q1|] eqn:Hstep; simpl in Hrun; [|done].
      eapply (IH q1 q'); [by eapply wf_step|by eapply tracked_step| |done].
      intros l1 t1 Hl.
      destruct (step_task_cases q0 e q1 l1 t1 Hwf Htr Hstep Hl) as
        [Hold|[[_ Hsub]|[(t0 & Hl0 & Hw & Hsl & ->)
                        |(t0 & ph & a & w & o & Hl0 & Hst & Hok & Hr)]]].
      + by eapply HP.
      + by apply Hnew.
      + apply Hpick; [by eapply HP|done..].
      + eapply Hres; [by eapply HP|done..]. }
  eapply (Hgen es (empty_queue cap) q); [apply wf_empty|apply tracked_empty| |done].
  intros l0 t0 Hl0. done.
Qed.

(** ** Hops, failure streak and escalation *)

Lemma handleFailure_streak t m :
  ttl_max (envelope t) = 10 →
  hops (envelope t) ≤ S (consecutive_failures (envelope t)) →
  (escalated (envelope t) = true ↔ 3 ≤ consecutive_failures (envelope t)) →
  streak_ok (handleFailure t m).1.1.
Proof.
  destruct t as [? ? ? ? ? ? ? ? ? ? ? ? e].
  destruct e as [ttl h md sh cf cs esc si key]. simpl.
  intros Httl Hb He. unfold handleFailure, streak_ok. simpl.
  destruct (ttl <=? h) eqn:Hleb; leb_to_prop; simpl.
  - split_and!; [done|lia| |done]. intros _. rewrite He. lia.
  - destruct cf as [|[|n]]; simpl; (split_and!; [done|lia| |done]); intros _;
      rewrite ?He; lia.
Qed.

Lemma on_RETRY_streak t :
  ttl_max (envelope t) = 10 →
  hops (envelope t) ≤ S (consecutive_failures (envelope t)) →
  (escalated (envelope t) = true ↔ 3 ≤ consecutive_failures (envelope t)) →
  streak_ok (on_RETRY t).1.1.
Proof.
  destruct t as [? ? ? ? ? ? ? ? ? ? ? ? e].
  destruct e as [ttl h md sh cf cs esc si key]. simpl.
  intros Httl Hb He. unfold on_RETRY, streak_ok. simpl.
  destruct (ttl <=? h) eqn:Hleb; leb_to_prop; simpl.
  - split_and!; [done|lia| |done]. intros _. rewrite He. lia.
  - destruct cf as [|[|n]]; destruct esc; simpl;
      (split_and!; [done|lia| |done]); intros _; rewrite ?He; try lia;
      destruct He as [He1 He2]; split; intros; try done; try lia;
      try (specialize (He1 eq_refl); lia); try (by apply He2; lia).
Qed.

Lemma streak_ok_resume t ph a t' w o :
  streak_ok t → status t = status_of ph → phase_ok ph t →
  resume t ph a = Some (t', w, o) → streak_ok t'.
Proof.
  intros (Httl & Hb & He & _) Hst Hok Hres.
  rewrite Hst in Hb, He.
  assert (He' : escalated (envelope t) = true
                ↔ 3 ≤ consecutive_failures (envelope t)).
  { apply He. by destruct ph. }
  assert (Hb' : hops (envelope t) ≤ S (consecutive_failures (envelope t))).
  { destruct ph; simpl in Hb; lia. }
  assert (Hfail : ∀ t0 m,
            ttl_max (envelope t0) = ttl_max (envelope t) →
            hops (envelope t0) = hops (envelope t) →
            consecutive_failures (envelope t0) = consecutive_failures (envelope t) →
            escalated (envelope t0) = escalated (envelope t) →
            handleFailure t0 m = (t', w, o) → streak_ok t').
  { intros t0 m H1 H2 H3 H4 Hf.
    pose proof (handleFailure_streak t0 m) as Hs. rewrite Hf in Hs.
    apply Hs; rewrite ?H1, ?H2, ?H3, ?H4; done. }
  assert (Hexec : ∀ t0 res,
            ttl_max (envelope t0) = ttl_max (envelope t) →
            hops (envelope t0) = hops (envelope t) →
            consecutive_failures (envelope t0) = consecutive_failures (envelope t) →
            escalated (envelope t0) = escalated (envelope t) →
            processTask_executed t0 res = (t', w, o) → streak_ok t').
  { intros t0 res H1 H2 H3 H4 Hx. unfold processTask_executed in Hx.
    destruct (expected_outcome _) as [msg|?].
    - destruct (handleFailure _ _) as [[t1 w1] o1] eqn:Hf. simplify_eq.
      pose proof (handleFailure_streak (set_status verifying t0) msg) as Hs.
      rewrite Hf in Hs. apply Hs; simpl; rewrite ?H1, ?H2, ?H3, ?H4; done.
    - simplify_eq/=. unfold streak_ok. simpl.
      rewrite H1, H2, H3, H4. by split_and!. }
  destruct ph as [|entry pl| |res0]; destruct a as [r|r]; simpl in Hres; try done.
  - destruct (planExecution t r) as [m|p]; simpl in Hres; injection Hres as Hres.
    + by eapply Hfail.
    + unfold processTask_planned in Hres. simplify_eq/=. unfold streak_ok. simpl.
      simpl in Hb. split_and!; [done|lia|done|done].
  - destruct r as [m|res]; simpl in Hres; injection Hres as Hres.
    + by eapply Hfail.
    + by eapply Hexec.
  - destruct (architectTask t r) as [t1 x] eqn:Ha.
    assert (Henv : ttl_max (envelope t1) = ttl_max (envelope t)
                   ∧ hops (envelope t1) = hops (envelope t)
                   ∧ consecutive_failures (envelope t1)
                     = consecutive_failures (envelope t)
                   ∧ escalated (envelope t1) = escalated (envelope t)).
    { destruct (architectTask_envelope _ _ _ _ Ha) as [-> | ->]; done. }
    destruct Henv as (H1 & H2 & H3 & H4).
    destruct x as [m|an]; simpl in Hres; injection Hres as Hres.
    + by eapply Hfail.
    + by eapply Hexec.
  - destruct (verifyResult t res0 r) as [m|v]; simpl in Hres; injection Hres as Hres.
    + by eapply Hfail.
    + unfold processTask_verified in Hres.
      destruct (is_str "PASS" (prop v "status")).
      * destruct (on_PASS_fields t res0 v) as (Hc & _). rewrite Hres in Hc.
        simpl in Hc. unfold streak_ok. rewrite Hc.
        split_and!; [|done|done|done].
        unfold on_PASS in Hres. repeat case_match; by simplify_eq/=.
      * destruct (is_str "RETRY" (prop v "status")).
        -- pose proof (on_RETRY_streak t) as Hs. rewrite Hres in Hs. by apply Hs.
        -- unfold on_ESCALATE in Hres. simplify_eq/=. unfold streak_ok. simpl.
           by split_and!.
Qed.

Lemma streak_ok_reachable cap es q l t :
  run (empty_queue cap) es = Some q → heap q !! l = Some t → streak_ok t.
Proof.
  apply (task_invariant streak_ok).
  - intros t0 (Hst & _ & _ & _ & _ & m & He). unfold streak_ok.
    rewrite Hst, He. simpl. split_and!; [done|lia| |done].
    intros _. split; [done|lia].
  - intros t0 (H1 & H2 & H3 & H4) Hw _. unfold streak_ok. simpl.
    split_and!; [done| |by intros _; apply H3; destruct (status t0)|done].
    by destruct (status t0).
  - intros t0 ph a t' w o. apply streak_ok_resume.
Qed.

Lemma untouched_reachable cap es q l t :
  run (empty_queue cap) es = Some q → heap q !! l = Some t → untouched t.
Proof.
  apply (task_invariant untouched).
  - by intros t0 Hs _.
  - intros t0 _ _ Hsl. unfold untouched. simpl. congruence.
  - intros t0 ph a t' w o Hu Hst _ Hres Hsl.
    destruct (resume_frame _ _ _ _ _ _ Hres) as (_ & Hd & _).
    rewrite Hd in Hsl. destruct (Hu Hsl) as (Hrec & _).
    rewrite Hrec in Hst. by destruct ph.
Qed.

(** ** What a step writes *)

Lemma resume_saved t ph a t' w o :
  resume t ph a = Some (t', w, o) →
  SaveTask t' ∈ w
  ∧ (∀ s, DeadLetter s ∈ w → s = t' ∧ status t' = dead_lettered)
  ∧ (status t' = dead_lettered → DeadLetter t' ∈ w).
Proof.
  intros Hres.
  assert (Hf : ∀ t0 m t1 w1 o1, handleFailure t0 m = (t1, w1, o1) →
            (w1 = [SaveTask t1] ∧ status t1 = retrying)
            ∨ (w1 = [SaveTask t1; DeadLetter t1] ∧ status t1 = dead_lettered)).
  { intros t0 m t1 w1 o1 Hh. unfold handleFailure in Hh.
    destruct (_ <=? _); simplify_eq/=; auto. }
  assert (Hlist : ∀ pre,
            (∀ s, DeadLetter s ∉ pre) →
            ((∃ w1, w = pre ++ w1 ∧
               ((w1 = [SaveTask t'] ∧ status t' ≠ dead_lettered)
               ∨ (w1 = [SaveTask t'; DeadLetter t'] ∧ status t' = dead_lettered))) →
            SaveTask t' ∈ w
            ∧ (∀ s, DeadLetter s ∈ w → s = t' ∧ status t' = dead_lettered)
            ∧ (status t' = dead_lettered → DeadLetter t' ∈ w))).
  { intros pre Hpre (w1 & -> & [[-> Hst]|[-> Hst]]).
    - split_and!.
      + rewrite elem_of_app, list_elem_of_singleton. auto.
      + intros s Hs. rewrite elem_of_app, list_elem_of_singleton in Hs.
        destruct Hs as [Hs|Hs]; [by apply Hpre in Hs|done].
      + done.
    - split_and!.
      + rewrite elem_of_app, elem_of_cons. auto.
      + intros s Hs. rewrite elem_of_app, !elem_of_cons in Hs.
        destruct Hs as [Hs|[Hs|[Hs|Hs]]]; [by apply Hpre in Hs|done| |].
        * by simplify_eq.
        * by apply elem_of_nil in Hs.
      + intros _. rewrite elem_of_app, !elem_of_cons. auto. }
  assert (Hfw : ∀ pre t0 m, (∀ s, DeadLetter s ∉ pre) →
            (let '(t1, w1, o1) := handleFailure t0 m in (t1, pre ++ w1, o1))
            = (t', w, o) →
            SaveTask t' ∈ w
            ∧ (∀ s, DeadLetter s ∈ w → s = t' ∧ status t' = dead_lettered)
            ∧ (status t' = dead_lettered → DeadLetter t' ∈ w)).
  { intros pre t0 m Hpre Heq.
    destruct (handleFailure t0 m) as [[t1 w1] o1] eqn:Hh. simplify_eq.
    apply (Hlist pre Hpre). exists w1. split; [done|].
    destruct (Hf _ _ _ _ _ Hh) as [[-> Hst]|[-> Hst]]; [left|right];
      (split; [done|congruence]). }
  assert (Hnil : ∀ s, DeadLetter s ∉ ([] : list write)).
  { intros s Hs. by apply elem_of_nil in Hs. }
  assert (Hf0 : ∀ t0 m, handleFailure t0 m = (t', w, o) →
            SaveTask t' ∈ w
            ∧ (∀ s, DeadLetter s ∈ w → s = t' ∧ status t' = dead_lettered)
            ∧ (status t' = dead_lettered → DeadLetter t' ∈ w)).
  { intros t0 m Hh. apply (Hfw [] t0 m Hnil). by rewrite Hh. }
  assert (He : ∀ t0 res, processTask_executed t0 res = (t', w, o) →
            SaveTask t' ∈ w
            ∧ (∀ s, DeadLetter s ∈ w → s = t' ∧ status t' = dead_lettered)
            ∧ (status t' = dead_lettered → DeadLetter t' ∈ w)).
  { intros t0 res Hx. unfold processTask_executed in Hx.
    destruct (expected_outcome _) as [msg|?].
    - apply (Hfw [SaveTask (set_status verifying t0)] (set_status verifying t0) msg).
      + intros s Hs. apply list_elem_of_singleton in Hs. done.
      + destruct (handleFailure _ _) as [[t1 w1] o1]. by simplify_eq.
    - simplify_eq. apply (Hlist []); [done|]. exists [SaveTask (set_status verifying t0)].
      split; [done|]. left. by split. }
  destruct ph as [|entry pl| |res0]; destruct a as [r|r]; simpl in Hres; try done.
  - destruct (planExecution t r) as [m|p]; simpl in Hres; injection Hres as Hres.
    + by eapply Hf0.
    + unfold processTask_planned in Hres. simplify_eq.
      apply (Hlist [SaveTask (set_status planned (set_plan p t))]).
      * intros s Hs. apply list_elem_of_singleton in Hs. done.
      * eexists. split; [done|]. left. by split.
  - destruct r as [m|res]; simpl in Hres; injection Hres as Hres.
    + by eapply Hf0.
    + by eapply He.
  - destruct (architectTask t r) as [t1 [m|an]]; simpl in Hres;
      injection Hres as Hres.
    + by eapply Hf0.
    + by eapply He.
  - destruct (verifyResult t res0 r) as [m|v]; simpl in Hres; injection Hres as Hres.
    + by eapply Hf0.
    + apply (Hlist []); [done|]. exists w. split; [done|].
      unfold processTask_verified, on_PASS, on_RETRY, on_ESCALATE in Hres.
      repeat case_match; simplify_eq/=; auto.
Qed.

(** ** The scheduler as a whole *)

Lemma run_snoc q es e q' :
  run q (es ++ [e]) = Some q' ↔ ∃ q1, run q es = Some q1 ∧ step q1 e = Some q'.
Proof.
  rewrite run_app. destruct (run q es) as [q1|]; simpl.
  - destruct (step q1 e) as [q2|] eqn:Hs; simpl.
    + split; [intros [= <-]; by exists q1|intros (q3 & [= <-] & Hq); congruence].
    + split; [done|intros (q3 & [= <-] & Hq); congruence].
  - split; [done|by intros (q3 & ? & _)].
Qed.

(** X1.  The status of a task tells where the scheduler holds it: a task in
    [queue] is [received] or [retrying]; the task of a suspended pass has the
    status of its phase; [done] holds exactly the [completed] tasks, each
    once. *)
Theorem status_tracks_place cap es q :
  run (empty_queue cap) es = Some q →
  (∀ l t, l ∈ queue q → heap q !! l = Some t →
     status t = received ∨ status t = retrying)
  ∧ (∀ l ph t, (l, ph) ∈ passes q → heap q !! l = Some t →
       status t = status_of ph)
  ∧ (∀ l, l ∈ done q ↔ ∃ t, heap q !! l = Some t ∧ status t = completed)
  ∧ NoDup (done q).
Proof.
  intros Hrun. destruct (tracked_reachable _ _ _ Hrun) as [Hwf Htr].
  split_and!.
  - intros l t Hl Ht. pose proof (tr_queue q Htr l t Hl Ht) as Hw.
    destruct (status t); try done; auto.
  - apply (tr_pass q Htr).
  - apply (tr_done q Htr).
  - apply (tr_done_nodup q Htr).
Qed.

(** X4.  A task whose status is [completed], [needs-human] or [dead-lettered] is
    out of [queue], of the running passes and of [processing], and no later
    event re-enqueues it or changes it. *)
Theorem terminal_status_is_final cap es q l t :
  run (empty_queue cap) es = Some q →
  heap q !! l = Some t →
  terminal (status t) = true →
  ∀ es' q', run q es' = Some q' →
    heap q' !! l = Some t
    ∧ (l ∉ queue q') ∧ (l ∉ (passes q').*1)
    ∧ ∀ k, processing q' !! k ≠ Some l.
Proof.
  intros Hrun Hl Hterm es' q' Hrun'.
  destruct (tracked_reachable _ _ _ Hrun) as [Hwf Htr].
  assert (Hret : retired l q).
  { split_and!.
    - by eapply lookup_lt_Some.
    - intros Hlive. pose proof (live_not_terminal q l t Htr Hlive Hl). congruence.
    - intros k Hk. pose proof (tr_active q Htr k l t Hk Hl). congruence. }
  destruct (retired_run es' l q q' Hret Hrun') as [(_ & Hlive & Hproc) Hsame].
  unfold live in Hlive. rewrite elem_of_app in Hlive.
  split_and!; [congruence|tauto|tauto|done].
Qed.

(** X2.  No task is lost: a task whose description the log line of the tick can
    print (a string, or an array whose first 60 items can be printed) is in
    [queue], or the task of a running pass, or has a terminal status. *)
Theorem no_task_is_lost cap es q l t :
  run (empty_queue cap) es = Some q →
  heap q !! l = Some t →
  has_slice (description t) = true →
  l ∈ queue q ∨ l ∈ (passes q).*1 ∨ terminal (status t) = true.
Proof.
  intros Hrun Hl Hsl. destruct (tracked_reachable _ _ _ Hrun) as [Hwf Htr].
  destruct (tr_account q Htr l t Hl) as [Hlive|[Hterm|[_ Hno]]].
  - unfold live in Hlive. apply elem_of_app in Hlive. tauto.
  - auto.
  - congruence.
Qed.

(** X5.  [processing] never holds more entries than the cap, whatever the
    interleaving of passes; the cap itself never changes. *)
Theorem concurrency_cap_holds cap es q :
  run (empty_queue cap) es = Some q →
  maxConcurrent q = cap
  ∧ ∀ c, cap = Some c → (Z.of_nat (active q) ≤ Z.max 0 c)%Z.
Proof.
  revert q. induction es as [|e es IH] using rev_ind; intros q Hrun.
  - simpl in Hrun. simplify_eq. split; [done|].
    intros c _. unfold active. simpl. rewrite map_size_empty. lia.
  - apply run_snoc in Hrun as (q1 & Hrun & Hstep).
    destruct (IH q1 Hrun) as [Hcap Hsize]. unfold active in *.
    assert (Hdel : ∀ k c, cap = Some c →
              (Z.of_nat (size (delete k (processing q1))) ≤ Z.max 0 c)%Z).
    { intros k c Hc. specialize (Hsize c Hc). rewrite map_size_delete.
      destruct (processing q1 !! k); simpl; unfold Datatypes.id; lia. }
    destruct e; simpl in Hstep.
    + by simplify_eq.
    + simplify_eq.
      destruct (webhook_shape taskId message classified src now q1)
        as [-> |(c & _ & _ & _ & ->)]; done.
    + destruct (tick_shape q1 q Hstep) as
        [->|(l & rest & t & Hat & _ & _ & Hcase)]; [done|].
      assert (Hins : ∀ c, cap = Some c →
                (Z.of_nat (size (<[id t:=l]> (processing q1))) ≤ Z.max 0 c)%Z).
      { intros c Hc. unfold at_capacity in Hat. rewrite Hcap, Hc in Hat.
        apply Z.leb_gt in Hat. rewrite map_size_insert.
        destruct (processing q1 !! id t); simpl; unfold Datatypes.id; lia. }
      destruct Hcase as [[_ ->]|[_ ->]]; simpl; by split.
    + apply settle_Some in Hstep as (l & ph & t & [[t' w] o] & _ & _ & _ & ->).
      unfold commit. destruct o; simpl; split; auto.
Qed.

(** X6.  The queue is first in, first out: an event leaves it as it is, takes its
    head (a tick), or adds one location at its tail (a submission or the end
    of a pass that retries). *)
Theorem queue_is_fifo q e q' :
  step q e = Some q' →
  queue q' = queue q
  ∨ (e = Tick ∧ ∃ l, queue q = l :: queue q')
  ∨ (e ≠ Tick ∧ ∃ l, queue q' = queue q ++ [l]).
Proof.
  intros Hstep. destruct e; simpl in Hstep.
  - simplify_eq. right; right. split; [done|]. by eexists.
  - simplify_eq.
    destruct (webhook_shape taskId message classified src now q)
      as [-> |(c & _ & _ & _ & ->)]; [by left|].
    right; right. split; [done|]. by eexists.
  - destruct (tick_shape q q' Hstep) as
      [->|(l & rest & t & _ & Hq & _ & [[_ ->]|[_ ->]])]; [by left|..];
      right; left; (split; [done|]); exists l; by rewrite Hq.
  - apply settle_Some in Hstep as (l & ph & t & [[t' w] o] & _ & _ & _ & ->).
    unfold commit. destruct o; simpl; auto.
    right; right. split; [done|]. by eexists.
Qed.

(** X7.  Whatever an event changes in a task object is written to disk by the same
    event: the disk only grows, and the new state of every task the event
    changed is among the snapshots it saved. *)
Theorem changes_are_saved q e q' :
  step q e = Some q' →
  ∃ w, disk q' = disk q ++ w
    ∧ ∀ l t t', heap q !! l = Some t → heap q' !! l = Some t' → t' ≠ t →
        SaveTask t' ∈ w.
Proof.
  intros Hstep.
  assert (Henq : ∀ t, ∃ w, disk (enqueue t q) = disk q ++ w
            ∧ ∀ l t0 t', heap q !! l = Some t0 →
                heap (enqueue t q) !! l = Some t' → t' ≠ t0 → SaveTask t' ∈ w).
  { intros t. exists []. split; [by rewrite app_nil_r|].
    intros l t0 t' Hl Hl'. simpl in Hl'.
    rewrite lookup_app_l in Hl' by by eapply lookup_lt_Some. congruence. }
  assert (Hsame : ∃ w, disk q = disk q ++ w
            ∧ ∀ l t0 t', heap q !! l = Some t0 →
                heap q !! l = Some t' → t' ≠ t0 → SaveTask t' ∈ w).
  { exists []. split; [by rewrite app_nil_r|]. intros; congruence. }
  destruct e; simpl in Hstep.
  - simplify_eq. apply Henq.
  - simplify_eq.
    destruct (webhook_shape taskId message classified src now q)
      as [-> |(c & _ & _ & _ & ->)]; [done|apply Henq].
  - destruct (tick_shape q q' Hstep) as
      [->|(l & rest & t & _ & Hq & Hl & [[_ ->]|[_ ->]])]; [done| |]; simpl.
    + eexists. split; [done|]. intros l0 t0 t' Hl0 Hl0' Hne.
      apply list_lookup_insert_Some in Hl0' as [(<- & <- & _)|[_ Hl0']];
        [|congruence]. by apply list_elem_of_singleton.
    + exists []. split; [by rewrite app_nil_r|]. intros; congruence.
  - apply settle_Some in Hstep as (l & ph & t & [[t1 w] o] & _ & Hl & Hres & ->).
    exists w. split; [by destruct o|].
    intros l0 t0 t' Hl0 Hl0' Hne.
    assert (heap (commit l i (t1, w, o) q) = <[l := t1]> (heap q)) as Hheap
      by by destruct o.
    rewrite Hheap in Hl0'.
    apply list_lookup_insert_Some in Hl0' as [(<- & <- & _)|[_ Hl0']];
      [|congruence].
    by destruct (resume_saved _ _ _ _ _ _ Hres) as (? & _).
Qed.

(** X8.  A task is dead-lettered only with its hop budget used up: a dead-lettered
    task has [hops = ttl_max = 10] after at least ten counted failures, and
    every dead-letter record on disk is the snapshot of such a task. *)
Theorem dead_letter_only_at_ttl cap es q :
  run (empty_queue cap) es = Some q →
  (∀ l t, heap q !! l = Some t → status t = dead_lettered →
     hops (envelope t) = 10 ∧ ttl_max (envelope t) = 10
     ∧ 10 ≤ consecutive_failures (envelope t))
  ∧ (∀ s, DeadLetter s ∈ disk q →
       status s = dead_lettered ∧ hops (envelope s) = 10
       ∧ ttl_max (envelope s) = 10).
Proof.
  assert (Hdead : ∀ es q l t, run (empty_queue cap) es = Some q →
            heap q !! l = Some t → status t = dead_lettered →
            hops (envelope t) = 10 ∧ ttl_max (envelope t) = 10
            ∧ 10 ≤ consecutive_failures (envelope t)).
  { intros es0 q0 l t Hrun Hl Hst.
    destruct (streak_ok_reachable _ _ _ _ _ Hrun Hl) as (Httl & Hb & _ & Hd).
    pose proof (wf_reachable _ _ _ Hrun) as Hwf.
    destruct (wf_heap q0 Hwf l t Hl) as (Hle & _).
    rewrite Hst in Hb. specialize (Hd Hst). lia. }
  intros Hrun. split; [intros l t; by apply (Hdead es q l t)|].
  revert q Hrun. induction es as [|e es IH] using rev_ind; intros q Hrun s Hs.
  - simpl in Hrun. simplify_eq. by apply elem_of_nil in Hs.
  - apply run_snoc in Hrun as (q1 & Hrun & Hstep).
    assert (Hold : DeadLetter s ∈ disk q1 →
              status s = dead_lettered ∧ hops (envelope s) = 10
              ∧ ttl_max (envelope s) = 10) by by apply IH.
    destruct e; simpl in Hstep.
    + simplify_eq. by apply Hold.
    + simplify_eq.
      destruct (webhook_shape taskId message classified src now q1)
        as [Heq|(c & _ & _ & _ & Heq)]; rewrite Heq in Hs; by apply Hold.
    + destruct (tick_shape q1 q Hstep) as
        [->|(l & rest & t & _ & _ & _ & [[_ ->]|[_ ->]])]; simpl in Hs;
        [by apply Hold| |by apply Hold].
      apply elem_of_app in Hs as [Hs|Hs]; [by apply Hold|].
      by apply list_elem_of_singleton in Hs.
    + pose proof Hstep as Hstep'.
      apply settle_Some in Hstep as (l & ph & t & [[t' w] o] & Hi & Hl & Hres & ->).
      assert (disk (commit l i (t', w, o) q1) = disk q1 ++ w) as Hdisk
        by by destruct o.
      rewrite Hdisk in Hs. apply elem_of_app in Hs as [Hs|Hs]; [by apply Hold|].
      destruct (resume_saved _ _ _ _ _ _ Hres) as (_ & Hdl & _).
      destruct (Hdl s Hs) as [-> Hst].
      assert (Hl' : heap (commit l i (t', w, o) q1) !! l = Some t').
      { assert (heap (commit l i (t', w, o) q1) = <[l := t']> (heap q1)) as ->
          by by destruct o.
        apply list_lookup_insert_eq. by eapply lookup_lt_Some. }
      assert (Hrun' : run (empty_queue cap) (es ++ [Settle i a])
                      = Some (commit l i (t', w, o) q1)).
      { apply run_snoc. by exists q1. }
      destruct (Hdead _ _ _ _ Hrun' Hl' Hst) as (? & ? & _). by split_and!.
Qed.

(** X9.  Until a task completes, [escalated] is set exactly when its failure
    streak has reached three, and every hop but the one that runs has ended
    in a counted failure: [hops <= consecutive_failures + 1]. *)
Theorem escalated_iff_three_failures cap es q l t :
  run (empty_queue cap) es = Some q →
  heap q !! l = Some t →
  status t ≠ completed →
  (escalated (envelope t) = true ↔ 3 ≤ consecutive_failures (envelope t))
  ∧ hops (envelope t) ≤ S (consecutive_failures (envelope t))
  ∧ ttl_max (envelope t) = 10.
Proof.
  intros Hrun Hl Hst.
  destruct (streak_ok_reachable _ _ _ _ _ Hrun Hl) as (Httl & Hb & He & _).
  split_and!; [by apply He| |done].
  destruct (status t); try done; lia.
Qed.

(** ** Tasks the scheduler cannot log *)

(** A location that is in no collection stays out of them, and its task
    object is not written to. *)
Lemma offline_step l q e q' :
  l < length (heap q) → (l ∉ live q) → step q e = Some q' →
  (l ∉ live q') ∧ heap q' !! l = heap q !! l.
Proof.
  intros Hlt Hlive Hstep. unfold live in *. rewrite elem_of_app in Hlive.
  assert (Henq : ∀ t, (l ∉ live (enqueue t q))
                      ∧ heap (enqueue t q) !! l = heap q !! l).
  { intros t. unfold live. simpl. split; [|by apply lookup_app_l].
    rewrite !elem_of_app, list_elem_of_singleton. intros [[?|?]|?]; [tauto|lia|tauto]. }
  destruct e; simpl in Hstep.
  - simplify_eq. apply Henq.
  - simplify_eq.
    destruct (webhook_shape taskId message classified src now q)
      as [-> |(c & _ & _ & _ & ->)]; [|apply Henq].
    split; [|done]. rewrite elem_of_app. tauto.
  - destruct (tick_shape q q' Hstep) as
      [->|(l0 & rest & t & _ & Hq & _ & [[_ ->]|[_ ->]])]; simpl.
    + split; [|done]. rewrite elem_of_app. tauto.
    + rewrite Hq in Hlive. rewrite elem_of_cons in Hlive. split.
      * rewrite fmap_app, !elem_of_app. simpl. rewrite list_elem_of_singleton. tauto.
      * apply list_lookup_insert_ne. intros ->. tauto.
    + rewrite Hq in Hlive. rewrite elem_of_cons in Hlive. split; [|done].
      rewrite elem_of_app. tauto.
  - apply settle_Some in Hstep as (l0 & ph & t & [[t' w] o] & Hi & Hl & Hres & ->).
    assert (Hne : l0 ≠ l).
    { intros ->. apply Hlive. right. apply list_elem_of_fmap. exists (l, ph).
      split; [done|]. by eapply list_elem_of_lookup_2. }
    assert (Hsub : l ∉ (delete i (passes q)).*1).
    { intros Hin. apply Hlive. right.
      apply list_elem_of_fmap in Hin as (x & -> & Hx). apply list_elem_of_fmap.
      exists x. split; [done|]. rewrite delete_take_drop in Hx.
      rewrite <- (take_drop_middle _ _ _ Hi). rewrite elem_of_app, elem_of_cons.
      apply elem_of_app in Hx as [?|?]; auto. }
    unfold commit. destruct o; simpl;
      (split; [|by apply list_lookup_insert_ne]).
    + rewrite list_fmap_insert. simpl. rewrite list_insert_id.
      * rewrite elem_of_app. tauto.
      * by rewrite list_lookup_fmap, Hi.
    + rewrite !elem_of_app, list_elem_of_singleton. intros [[?|?]|?]; [tauto|done|tauto].
    + rewrite elem_of_app. tauto.
    + rewrite elem_of_app. tauto.
Qed.

Lemma offline_run es : ∀ l q q',
  l < length (heap q) → (l ∉ live q) → run q es = Some q' →
  (l ∉ live q') ∧ heap q' !! l = heap q !! l.
Proof.
  induction es as [|e es IH]; intros l q q' Hlt Hlive Hrun; simpl in Hrun.
  - by simplify_eq.
  - destruct (step q e) as [q1|] eqn:Hstep; simpl in Hrun; [|done].
    destruct (offline_step l q e q1 Hlt Hlive Hstep) as [Hlive1 Hh1].
    assert (Hlt1 : l < length (heap q1)).
    { apply lookup_lt_is_Some. rewrite Hh1. by apply lookup_lt_is_Some. }
    destruct (IH l q1 q' Hlt1 Hlive1 Hrun) as [Hr' Hh']. split; [done|congruence].
Qed.

(** A task object keeps its location and its id. *)
Lemma step_keeps_id q e q' l t :
  step q e = Some q' → heap q !! l = Some t →
  ∃ t', heap q' !! l = Some t' ∧ id t' = id t.
Proof.
  intros Hstep Hl.
  destruct (step_task q e q' l t Hstep Hl) as
    [?|[[_ ?]|(i & ph & a & t' & w & o & _ & _ & Hres & _ & ?)]].
  - by exists t.
  - by exists (set_status classifying t).
  - exists t'. split; [done|]. by destruct (resume_frame _ _ _ _ _ _ Hres) as (? & _).
Qed.

Lemma unique_ids_step q e q' :
  step q e = Some q' → unique_ids (heap q') → unique_ids (heap q).
Proof.
  intros Hstep Hu l1 l2 t1 t2 H1 H2 Hid.
  destruct (step_keeps_id q e q' l1 t1 Hstep H1) as (t1' & H1' & Hid1).
  destruct (step_keeps_id q e q' l2 t2 Hstep H2) as (t2' & H2' & Hid2).
  apply (Hu l1 l2 t1' t2' H1' H2'). congruence.
Qed.

(** X10.  A task whose description the log line of the tick cannot print (it is
    neither a string nor an array whose first 60 items can be printed) is
    accepted but never processed: it stays as submitted, it is the task of
    no pass, and once a tick has taken it from [queue] no later event brings
    it back or writes to it. *)
Theorem undescribed_task_is_never_processed cap es q l t :
  run (empty_queue cap) es = Some q →
  heap q !! l = Some t →
  has_slice (description t) = false →
  submitted t
  ∧ (l ∉ (passes q).*1)
  ∧ ((l ∉ queue q) →
     ∀ es' q', run q es' = Some q' →
       heap q' !! l = Some t ∧ (l ∉ queue q') ∧ (l ∉ (passes q').*1)).
Proof.
  intros Hrun Hl Hsl. destruct (tracked_reachable _ _ _ Hrun) as [Hwf Htr].
  pose proof (untouched_reachable _ _ _ _ _ Hrun Hl Hsl) as Hsub.
  assert (Hpass : l ∉ (passes q).*1).
  { intros Hin. apply list_elem_of_fmap in Hin as ([l' ph] & -> & Hin). simpl in *.
    pose proof (tr_pass q Htr _ _ _ Hin Hl) as Hst.
    destruct Hsub as (Hrec & _). rewrite Hrec in Hst. by destruct ph. }
  split_and!; [done..|].
  intros Hq es' q' Hrun'.
  assert (Hlive : l ∉ live q) by (unfold live; rewrite elem_of_app; tauto).
  destruct (offline_run es' l q q' (lookup_lt_Some _ _ _ Hl) Hlive Hrun')
    as [Hlive' Hh].
  unfold live in Hlive'. rewrite elem_of_app in Hlive'.
  split_and!; [congruence|tauto|tauto].
Qed.

(** X11.  A task whose description the log line of the tick cannot print holds an
    entry of [processing] from the tick that takes it from [queue] onwards:
    in every state in which the ids are distinct, the entry is there. *)
Theorem undescribed_task_keeps_its_slot cap es q l t :
  run (empty_queue cap) es = Some q →
  unique_ids (heap q) →
  heap q !! l = Some t →
  has_slice (description t) = false →
  (l ∉ queue q) →
  processing q !! id t = Some l.
Proof.
  revert q l t. induction es as [|e es IH] using rev_ind;
    intros q l t Hrun Hu Hl Hsl Hq.
  { simpl in Hrun. by simplify_eq. }
  apply run_snoc in Hrun as (q1 & Hrun & Hstep).
  destruct (tracked_reachable _ _ _ Hrun) as [Hwf1 Htr1].
  pose proof (unique_ids_step _ _ _ Hstep Hu) as Hu1.
  assert (Hnew : ∀ t0, q = enqueue t0 q1 → processing q !! id t = Some l).
  { intros t0 ->. simpl in *.
    destruct (decide (l < length (heap q1))) as [Hlt|Hge].
    - rewrite lookup_app_l in Hl by done.
      apply (IH q1 l t); [done..|]. intros Hin. apply Hq, elem_of_app. by left.
    - exfalso. apply Hq, elem_of_app. right. apply list_elem_of_singleton.
      apply lookup_lt_Some in Hl. rewrite length_app in Hl. simpl in Hl. lia. }
  destruct e; simpl in Hstep.
  - simplify_eq. by eapply Hnew.
  - simplify_eq.
    destruct (webhook_shape taskId message classified src now q1)
      as [Heq|(c & _ & _ & _ & Heq)]; [|by eapply Hnew].
    rewrite Heq in *. by apply (IH q1 l t).
  - destruct (tick_shape q1 q Hstep) as
      [->|(l0 & rest & t0 & _ & Hq1 & Hl0 & Hcase)]; [by apply (IH q1 l t)|].
    destruct (decide (l0 = l)) as [->|Hne].
    + destruct Hcase as [[Hsl0 ->]|[_ ->]]; simpl in *.
      * rewrite list_lookup_insert_eq in Hl by by eapply lookup_lt_Some.
        simplify_eq. simpl in Hsl. congruence.
      * simplify_eq. apply lookup_insert_eq.
    + assert (Hl1 : heap q1 !! l = Some t).
      { destruct Hcase as [[_ ->]|[_ ->]]; simpl in Hl; [|done].
        by rewrite list_lookup_insert_ne in Hl. }
      assert (Hq' : l ∉ queue q1).
      { rewrite Hq1. rewrite elem_of_cons. intros [?|Hin]; [done|].
        apply Hq. by destruct Hcase as [[_ ->]|[_ ->]]. }
      pose proof (IH q1 l t Hrun Hu1 Hl1 Hsl Hq') as Hslot.
      assert (id t0 ≠ id t) as Hid.
      { intros Hid. apply Hne. by apply (Hu1 l0 l t0 t). }
      destruct Hcase as [[_ ->]|[_ ->]]; simpl; by rewrite lookup_insert_ne.
  - apply settle_Some in Hstep as (l0 & ph & t0 & [[t' w] o] & Hi & Hl0 & Hres & ->).
    assert (Hheap : heap (commit l0 i (t', w, o) q1) = <[l0 := t']> (heap q1))
      by by destruct o.
    rewrite Hheap in Hl.
    destruct (resume_frame _ _ _ _ _ _ Hres) as (Hid & Hd & _).
    destruct (decide (l0 = l)) as [->|Hne].
    { rewrite list_lookup_insert_eq in Hl by by eapply lookup_lt_Some.
      simplify_eq. rewrite Hd in Hsl.
      pose proof (untouched_reachable _ _ _ _ _ Hrun Hl0 Hsl) as (Hrec & _).
      pose proof (tr_pass q1 Htr1 _ _ _ (list_elem_of_lookup_2 _ _ _ Hi) Hl0) as Hst.
      rewrite Hrec in Hst. by destruct ph. }
    rewrite list_lookup_insert_ne in Hl by done.
    assert (Hq' : l ∉ queue q1).
    { intros Hin. apply Hq. destruct o; simpl; [done| |done|done].
      apply elem_of_app. by left. }
    pose proof (IH q1 l t Hrun Hu1 Hl Hsl Hq') as Hslot.
    assert (id t' ≠ id t) as Hid'.
    { rewrite Hid. intros Heq. apply Hne. by apply (Hu1 l0 l t0 t). }
    destruct o; simpl; [done|by rewrite lookup_delete_ne..].
Qed.

(** ** The counters the health endpoint reports *)

Lemma filter_by_index {A} (P : A → bool) (h : list A) :
  length (List.filter (λ l, match h !! l with Some t => P t | None => false end)
            (seq 0 (length h)))
  = length (List.filter P h).
Proof.
  induction h as [|x h IH] using rev_ind; [done|].
  rewrite length_app. simpl. rewrite Nat.add_1_r, seq_S. simpl.
  rewrite !List.filter_app, !length_app. simpl.
  rewrite list_lookup_middle by done. rewrite <- IH. f_equal.
  - f_equal. apply List.filter_ext_in.
    intros l Hin. apply in_seq in Hin. by rewrite lookup_app_l by lia.
  - by destruct (P x).
Qed.

(** X12.  [completed()] counts each task that has completed exactly once, and
    nothing else. *)
Theorem completed_counts_completed_tasks cap es q :
  run (empty_queue cap) es = Some q →
  completed_count q = length (List.filter is_completed (heap q)).
Proof.
  intros Hrun. destruct (tracked_reachable _ _ _ Hrun) as [Hwf Htr].
  unfold completed_count. rewrite <- filter_by_index.
  apply Permutation_length, NoDup_Permutation.
  - apply (tr_done_nodup q Htr).
  - apply NoDup_ListNoDup, List.NoDup_filter, seq_NoDup.
  - intros l. rewrite (tr_done q Htr l), list_elem_of_In, List.filter_In, in_seq.
    unfold is_completed. split.
    + intros (t & Hl & Hst). rewrite Hl, Hst. split; [|done].
      apply lookup_lt_Some in Hl. lia.
    + intros [_ Hc]. destruct (heap q !! l) as [t|]; [|done].
      exists t. split; [done|]. by destruct (status t).
Qed.

(** ** Replies of the orchestrator that are not what the scheduler expects *)

(** X13.  An answer that parses to [null] is a failure in each of the three phases
    that await the orchestrator: the pass ends in the failure handler. *)
Theorem null_reply_is_a_failure t ph raw :
  JSON_parse (strip_fences raw) = Some JNull →
  (∀ entry plan, ph ≠ Executing entry plan) →
  ∃ m, resume t ph (FromGemini (Fulfilled raw)) = Some (handleFailure t m).
Proof.
  intros Hnull Hph. destruct ph as [|entry p| |result]; simpl.
  - unfold planExecution, callGeminiJSON. rewrite Hnull. by eexists.
  - by destruct (Hph entry p).
  - unfold architectTask, callGeminiJSON. rewrite Hnull. by eexists.
  - unfold verifyResult, callGeminiJSON. rewrite Hnull. by eexists.
Qed.

(** ** What the hop budget does not bound *)

(** One pass of a queued task whose planning call fails, on a scheduler that
    holds nothing else: the task is back in the queue with one more failure
    and the hops it had. *)
Lemma planning_round (t : Task) (saved : list write) (message : string) :
  has_slice (description t) = true →
  hops (envelope t) < ttl_max (envelope t) →
  ∃ t' saved',
    run (mkTaskQueue [t] [0] ∅ [] (Some 3%Z) [] saved) (planning_fails message)
    = Some (mkTaskQueue [t'] [0] ∅ [] (Some 3%Z) [] saved')
    ∧ description t' = description t
    ∧ ttl_max (envelope t') = ttl_max (envelope t)
    ∧ hops (envelope t') = hops (envelope t)
    ∧ consecutive_failures (envelope t') = S (consecutive_failures (envelope t))
    ∧ status t' = retrying.
Proof.
  intros Hsl Hhops.
  assert (Hfail : ∃ t' w,
            handleFailure (set_status classifying t) message = (t', w, Requeued)
            ∧ id t' = id t
            ∧ description t' = description t
            ∧ ttl_max (envelope t') = ttl_max (envelope t)
            ∧ hops (envelope t') = hops (envelope t)
            ∧ consecutive_failures (envelope t')
              = S (consecutive_failures (envelope t))
            ∧ status t' = retrying).
  { unfold handleFailure.
    destruct t as [i d sw ty docs st cr so pl re ve le e].
    destruct e as [ttl h m sh cf cs esc sid key]. simpl in Hhops.
    assert (Httl : (ttl <=? h) = false) by (apply Nat.leb_gt; lia).
    destruct cf as [|[|cf]]; simpl; rewrite Httl;
      eexists _, _; split_and!; reflexivity. }
  destruct Hfail as (t' & w & Hfail & Hid & Hd & Httl & Hh & Hcf & Hst).
  exists t', ((saved ++ [SaveTask (set_status classifying t)]) ++ w).
  split; [|done].
  unfold planning_fails. simpl. unfold tick, at_capacity. simpl.
  rewrite map_size_empty. simpl. rewrite Hsl. simpl.
  unfold settle. simpl. rewrite Hfail. simpl.
  rewrite Hid. by rewrite delete_insert_eq, delete_empty.
Qed.

(** X14.  The hop budget does not bound the passes of a task: a pass whose
    planning call fails ends before [hops] is incremented, so the TTL check
    of the failure handler never fires.  After any number [n] of such passes
    the task is in the queue again, with [n] failures counted and no hop
    spent. *)
Theorem failed_planning_is_retried_without_bound
    taskId text software kind docs now message (n : nat) :
  has_slice text = true →
  ∃ q t,
    run (empty_queue (Some 3%Z))
      (PostTask taskId text software kind docs now
       :: failing_rounds message n) = Some q
    ∧ queue q = [0]
    ∧ heap q !! 0 = Some t
    ∧ consecutive_failures (envelope t) = n
    ∧ hops (envelope t) = 0.
Proof.
  intros Hsl.
  assert (Hgen : ∃ t saved,
            run (empty_queue (Some 3%Z))
              (PostTask taskId text software kind docs now
               :: failing_rounds message n)
            = Some (mkTaskQueue [t] [0] ∅ [] (Some 3%Z) [] saved)
            ∧ description t = text
            ∧ ttl_max (envelope t) = 10
            ∧ hops (envelope t) = 0
            ∧ consecutive_failures (envelope t) = n).
  { induction n as [|n IH].
    - eexists _, _. split; [reflexivity|]. by split_and!.
    - destruct IH as (t & saved & Hrun & Hd & Httl & Hh & Hcf).
      destruct (planning_round t saved message) as
        (t' & saved' & Hround & Hd' & Httl' & Hh' & Hcf' & _).
      { by rewrite Hd. }
      { lia. }
      exists t', saved'. split_and!; [|congruence..].
      change (PostTask taskId text software kind docs now
              :: failing_rounds message (S n))
        with ((PostTask taskId text software kind docs now
               :: failing_rounds message n) ++ planning_fails message).
      by rewrite run_app, Hrun. }
  destruct Hgen as (t & saved & Hrun & _ & _ & Hh & Hcf).
  eexists _, t. split; [exact Hrun|]. by split_and!.
Qed.

(** ** One holder at a time *)

(** X3.  A task is never queued twice, never the task of two passes, and never
    queued while a pass runs on it; whatever is queued or running has been
    allocated. *)
Theorem task_is_held_once cap es q :
  run (empty_queue cap) es = Some q →
  NoDup (queue q ++ (passes q).*1)
  ∧ ∀ l, l ∈ (queue q ++ (passes q).*1) → is_Some (heap q !! l).
Proof.
  intros Hrun. pose proof (wf_reachable _ _ _ Hrun) as Hwf. split.
  - apply (wf_nodup q Hwf).
  - intros l Hl. apply lookup_lt_is_Some. by apply (wf_alloc q Hwf).
Qed.

(** ** Code fences *)

Lemma prefix_nil s : String.prefix "" s = true.
Proof. by destruct s. Qed.

Lemma prefix_cons a p c s :
  String.prefix (String a p) (String c s)
  = if ascii_dec a c then String.prefix p s else false.
Proof. simpl. by destruct (ascii_dec a c). Qed.

Lemma replace_fence_skip fence k c s :
  replace_fence fence (S k) (String c s) = replace_fence fence k s.
Proof. done. Qed.

Lemma replace_fence_keep fence c s :
  String.prefix fence (String c s) = false →
  replace_fence fence 0 (String c s) = String c (replace_fence fence 0 s).
Proof.
  intros H. change (replace_fence fence 0 (String c s))
    with (if String.prefix fence (String c s)
          then replace_fence fence
                 (pred (String.length fence) +
                  match String.get (String.length fence) (String c s) with
                  | Some "010"%char => 1
                  | _ => 0
                  end) s
          else String c (replace_fence fence 0 s)).
  by rewrite H.
Qed.

Lemma replace_fence_drop fence c s :
  String.prefix fence (String c s) = true →
  replace_fence fence 0 (String c s)
  = replace_fence fence
      (pred (String.length fence) +
       match String.get (String.length fence) (String c s) with
       | Some "010"%char => 1
       | _ => 0
       end) s.
Proof.
  intros H. change (replace_fence fence 0 (String c s))
    with (if String.prefix fence (String c s)
          then replace_fence fence
                 (pred (String.length fence) +
                  match String.get (String.length fence) (String c s) with
                  | Some "010"%char => 1
                  | _ => 0
                  end) s
          else String c (replace_fence fence 0 s)).
  by rewrite H.
Qed.

Lemma prefix_backtick fence c s :
  String.prefix "`" fence = true → c ≠ "`"%char →
  String.prefix fence (String c s) = false.
Proof.
  destruct fence as [|a fence]; [done|]. rewrite !prefix_cons.
  destruct (ascii_dec "`" a) as [<-|]; [|done]. intros _ Hc.
  by destruct (ascii_dec "`" c) as [<-|].
Qed.

Lemma no_backtick_cons c s :
  no_backtick (String c s) = true ↔ c ≠ "`"%char ∧ no_backtick s = true.
Proof.
  simpl. rewrite andb_true_iff, negb_true_iff. split.
  - intros [Hc ?]. split; [|done]. intros ->. by rewrite Ascii.eqb_refl in Hc.
  - intros [Hc ?]. split; [|done]. by apply Ascii.eqb_neq.
Qed.

(** Text without a backtick goes through [replace] as it is. *)
Lemma replace_fence_plain fence s :
  String.prefix "`" fence = true → no_backtick s = true →
  replace_fence fence 0 s = s.
Proof.
  intros Hf. induction s as [|c s IH]; [done|].
  intros [Hc Hs]%no_backtick_cons.
  rewrite replace_fence_keep by by apply prefix_backtick. by rewrite IH.
Qed.

Lemma replace_fence_plain_app fence s rest :
  String.prefix "`" fence = true → no_backtick s = true →
  replace_fence fence 0 (s +:+ rest) = s +:+ replace_fence fence 0 rest.
Proof.
  intros Hf. induction s as [|c s IH]; [done|].
  intros [Hc Hs]%no_backtick_cons.
  change (String c s +:+ rest) with (String c (s +:+ rest)).
  rewrite replace_fence_keep by by apply prefix_backtick. by rewrite IH.
Qed.

(** What is kept of a text that does not begin with one, two or three
    backticks does not begin with as many either. *)
Lemma replace_fence_head1 s :
  String.prefix "`" s = false →
  String.prefix "`" (replace_fence "```" 0 s) = false.
Proof.
  destruct s as [|c s]; [done|]. rewrite prefix_cons, prefix_nil.
  destruct (ascii_dec "`" c) as [<-|Hc]; [done|]. intros _.
  rewrite replace_fence_keep by (apply prefix_backtick; [done|congruence]).
  rewrite prefix_cons. by destruct (ascii_dec "`" c).
Qed.

Lemma replace_fence_head2 s :
  String.prefix "``" s = false →
  String.prefix "``" (replace_fence "```" 0 s) = false.
Proof.
  destruct s as [|c s]; [done|]. rewrite prefix_cons.
  destruct (ascii_dec "`" c) as [<-|Hc].
  - intros Hs. rewrite replace_fence_keep.
    + rewrite prefix_cons. destruct (ascii_dec "`" "`"); [|done].
      exact (replace_fence_head1 s Hs).
    + rewrite prefix_cons. destruct (ascii_dec "`" "`"); [|done].
      destruct s as [|c' s]; [done|]. rewrite prefix_cons in *.
      rewrite prefix_nil in Hs. by destruct (ascii_dec "`" c').
  - intros _.
    rewrite replace_fence_keep by (apply prefix_backtick; [done|congruence]).
    rewrite prefix_cons. by destruct (ascii_dec "`" c).
Qed.

Lemma replace_fence_head3 c s :
  String.prefix "```" (String c s) = false →
  String.prefix "```" (String c (replace_fence "```" 0 s)) = false.
Proof.
  rewrite !prefix_cons. destruct (ascii_dec "`" c) as [<-|Hc]; [|done].
  apply replace_fence_head2.
Qed.

Lemma replace_fence_clean s : ∀ k,
  occurs "```" (replace_fence "```" k s) = false.
Proof.
  induction s as [|c s IH]; intros k; [by destruct k|].
  destruct k as [|k]; [|by rewrite replace_fence_skip].
  destruct (String.prefix "```" (String c s)) eqn:Hp.
  - rewrite replace_fence_drop by done. apply IH.
  - rewrite replace_fence_keep by done.
    change (occurs "```" (String c (replace_fence "```" 0 s)))
      with (String.prefix "```" (String c (replace_fence "```" 0 s))
            || occurs "```" (replace_fence "```" 0 s)).
    by rewrite replace_fence_head3, IH.
Qed.

(** X15.  The two replacements of [callGeminiJSON] leave no code fence: removing
    one fence never joins the backticks around it into a new one. *)
Theorem no_fence_is_left raw :
  occurs "```" (replace_fence "```" 0 (replace_fence "```json" 0 raw)) = false.
Proof. apply replace_fence_clean. Qed.

(** X16.  An answer without a backtick is parsed as it is, and an answer wrapped
    in a [json] fence is parsed as its body. *)
Theorem fenced_answer_is_unwrapped body :
  no_backtick body = true →
  strip_fences body = trim body
  ∧ strip_fences ("```json" +:+ newline +:+ body +:+ newline +:+ "```")
    = trim (body +:+ newline).
Proof.
  intros Hb. unfold strip_fences. split.
  - rewrite (replace_fence_plain "```json") by done.
    by rewrite (replace_fence_plain "```") by done.
  - change (replace_fence "```json" 0
              ("```json" +:+ newline +:+ body +:+ newline +:+ "```"))
      with (replace_fence "```json" 0 (body +:+ newline +:+ "```")).
    rewrite replace_fence_plain_app by done.
    change (replace_fence "```json" 0 (newline +:+ "```")) with (newline +:+ "```").
    rewrite replace_fence_plain_app by done.
    by change (replace_fence "```" 0 (newline +:+ "```")) with newline.
Qed.

(** ** The model call and the scheduler *)

(** A call of the orchestrator that raises ends the pass in the failure
    handler, whichever of its three phases awaits it. *)
Lemma rejected_reply_fails t ph m :
  (∀ entry plan, ph ≠ Executing entry plan) →
  resume t ph (FromGemini (Rejected m)) = Some (handleFailure t m).
Proof.
  intros Hph. destruct ph as [|entry p| |result]; try done.
  by destruct (Hph entry p).
Qed.

(** X17.  [callGemini] raises exactly when the request fails, the status is not
    one of success, the body is not JSON or is [null]; its caller
    [callGeminiJSON] raises on top of that when the text of the answer is
    a value other than a string. *)
Theorem model_call_raises_iff fetched :
  (∃ m, raw_text (callGemini fetched) = Rejected m)
  ↔ match fetched with
    | Rejected _ => True
    | Fulfilled response =>
        ok response = false
        ∨ (∃ m, body_json response = Rejected m)
        ∨ body_json response = Fulfilled JNull
        ∨ ∃ data v, body_json response = Fulfilled data
            ∧ answer_text data = Some v ∧ truthy v = true
            ∧ ∀ s, v ≠ JStr s
    end.
Proof.
  destruct fetched as [m|[o st bt bj]]; simpl; [split; [done|by eexists]|].
  destruct o; simpl.
  - destruct bj as [m|data]; simpl.
    { split; [intros _; right; left; by eexists|by eexists]. }
    assert (Hor : ∀ d, d ≠ JNull →
              (∃ m, raw_text (Fulfilled (or_else (answer_text d) "")) = Rejected m)
              ↔ ∃ v, answer_text d = Some v ∧ truthy v = true ∧ ∀ s, v ≠ JStr s).
    { intros d _. unfold or_else. destruct (answer_text d) as [v|]; simpl.
      - destruct (truthy v) eqn:Hv; simpl.
        + split.
          * intros [m Hm]. exists v. split_and!; [done..|]. intros s ->. done.
          * intros (v' & [= <-] & _ & Hs). destruct v; try by eexists.
            by destruct (Hs s).
        + split; [by intros [? ?]|]. intros (v' & [= <-] & ? & _). congruence.
      - split; [by intros [? ?]|]. by intros (? & ? & _). }
    assert (data = JNull ∨ data ≠ JNull) as [->|Hd] by (destruct data; auto).
    { split; [intros _; right; right; by left|by eexists]. }
    assert (match data with
            | JNull => Rejected "Cannot read properties of null (reading 'candidates')"
            | _ => Fulfilled (or_else (answer_text data) "")
            end = Fulfilled (or_else (answer_text data) "")) as ->
      by by destruct data.
    rewrite (Hor data Hd). split.
    + intros (v & ? & ? & ?). right; right; right. by eexists _, v.
    + intros [?|[[? ?]|[?|(d & v & [= <-] & ? & ? & ?)]]]; try done.
      * congruence.
      * by exists v.
  - destruct bt as [m|err]; simpl; (split; [by left|by eexists]).
Qed.

(** X18.  A model call whose request fails, or whose status is not one of
    success, is a failed hop: the pass that awaits it ends in the failure
    handler. *)
Theorem failed_model_call_is_a_failed_hop t ph fetched :
  (∀ entry plan, ph ≠ Executing entry plan) →
  (∀ response, fetched = Fulfilled response → ok response = false) →
  ∃ m, resume t ph (gemini_reply fetched) = Some (handleFailure t m).
Proof.
  intros Hph Hbad. unfold gemini_reply.
  assert (∃ m, raw_text (callGemini fetched) = Rejected m) as [m ->].
  { destruct fetched as [m|response]; [by eexists|].
    simpl. rewrite (Hbad response eq_refl).
    destruct (body_text response); by eexists. }
  exists m. by apply rejected_reply_fails.
Qed.

(** X19.  An answer without a candidate, or with an empty text, is no error: its
    text is [''], which does not parse, so the planning phase goes on with
    the plan [{raw: ''}] and the verification phase hands the task to a
    human. *)
Theorem empty_answer_is_not_an_error t response data :
  ok response = true →
  body_json response = Fulfilled data →
  data ≠ JNull →
  truthy_opt (answer_text data) = false →
  JSON_parse (strip_fences "") = None →
  gemini_reply (Fulfilled response) = FromGemini (Fulfilled "")
  ∧ resume t Planning (gemini_reply (Fulfilled response))
    = Some (processTask_planned t (JObj [("raw", JStr (strip_fences ""))]))
  ∧ ∀ result,
      resume t (Verifying result) (gemini_reply (Fulfilled response))
      = Some (on_ESCALATE t (JObj [("raw", JStr (strip_fences ""))])).
Proof.
  intros Hok Hbody Hdata Hfalsy Hparse.
  assert (Hreply : gemini_reply (Fulfilled response) = FromGemini (Fulfilled "")).
  { unfold gemini_reply, callGemini. rewrite Hok, Hbody.
    assert (or_else (answer_text data) "" = JStr "") as Hor.
    { unfold or_else. destruct (answer_text data) as [v|]; [|done].
      simpl in Hfalsy. by rewrite Hfalsy. }
    destruct data; try done; by rewrite Hor. }
  rewrite Hreply. split_and!; [done| |intros result]; simpl.
  - unfold planExecution, callGeminiJSON. by rewrite Hparse.
  - unfold verifyResult, callGeminiJSON. rewrite Hparse. simpl.
    unfold processTask_verified. by simpl.
Qed.

(** ** The outreach pipeline *)

Lemma generate_run (host : Outreach.Host) name trace :
  let r := Outreach.generate host name trace in
  Outreach.requests r.2 = S (Outreach.requests trace)
  ∧ match r.1 with
    | Fulfilled _ =>
        ∃ text, Outreach.written r.2
                = Outreach.written trace
                  ++ [(Outreach.OUTREACH_DIR +:+ "/" +:+ name, text)]
                ∧ Outreach.writeFileSync_raises host (Outreach.written trace)
                    (Outreach.OUTREACH_DIR +:+ "/" +:+ name) text = None
    | Rejected _ =>
        Outreach.written r.2 = Outreach.written trace
        ∨ ∃ text, Outreach.written r.2
                  = Outreach.written trace
                    ++ [(Outreach.OUTREACH_DIR +:+ "/" +:+ name, text)]
                  ∧ is_Some (Outreach.writeFileSync_raises host
                               (Outreach.written trace)
                               (Outreach.OUTREACH_DIR +:+ "/" +:+ name) text)
    end.
Proof.
  unfold Outreach.generate.
  destruct (Outreach.callGemini _) as [m|[]]; simpl; try (split; [done|by left]).
  destruct (Outreach.writeFileSync_raises _ _ _ _) eqn:Hw; simpl.
  - split; [done|]. right. eexists. split; [done|]. by rewrite Hw.
  - split; [done|]. by eexists.
Qed.

(** X20.  [runOutreachPipeline] never raises.  It runs its three stages in order
    and stops at the first that fails: the files it has tried to write are
    the first [k] of the three, with one request made for each and at most
    one more; it reports ['complete'] only when all three were written
    without an error. *)
Theorem outreach_pipeline_stops_at_first_failure (host : Outreach.Host) :
  let result := (Outreach.runOutreachPipeline host).1 in
  let trace := (Outreach.runOutreachPipeline host).2 in
  ∃ k, k ≤ 3
    ∧ (Outreach.written trace).*1 = take k Outreach.files
    ∧ k ≤ Outreach.requests trace ≤ S k
    ∧ ((prop result "status" = Some (JStr "complete")
        ∧ k = 3 ∧ Outreach.requests trace = 3
        ∧ ∀ j path text, Outreach.written trace !! j = Some (path, text) →
            Outreach.writeFileSync_raises host
              (take j (Outreach.written trace)) path text = None)
       ∨ (prop result "status" = Some (JStr "error")
          ∧ is_Some (prop result "error"))).
Proof.
  unfold Outreach.runOutreachPipeline, Outreach.generateTargetList,
    Outreach.generateOutreachTemplates, Outreach.researchJobPostings.
  pose proof (generate_run host "target-list.json" (Outreach.mkTrace 0 [])) as H1.
  destruct (Outreach.generate host "target-list.json" _) as [[m1|t1] tr1];
    simpl in H1; destruct H1 as [Hq1 H1].
  { destruct H1 as [H1|(text & H1 & _)]; simpl.
    - exists 0. rewrite H1, Hq1. split_and!; [lia|done|lia|lia|].
      right. split; [done|by eexists].
    - exists 1. rewrite H1, Hq1. split_and!; [lia|done|lia|lia|].
      right. split; [done|by eexists]. }
  destruct H1 as (text1 & Hw1 & Hok1).
  pose proof (generate_run host "templates.json" tr1) as H2.
  destruct (Outreach.generate host "templates.json" tr1) as [[m2|t2] tr2];
    simpl in H2; destruct H2 as [Hq2 H2].
  { destruct H2 as [H2|(text & H2 & _)]; simpl.
    - exists 1. rewrite H2, Hw1, Hq2, Hq1. split_and!; [lia|done|lia|lia|].
      right. split; [done|by eexists].
    - exists 2. rewrite H2, Hw1, Hq2, Hq1. split_and!; [lia|done|lia|lia|].
      right. split; [done|by eexists]. }
  destruct H2 as (text2 & Hw2 & Hok2).
  pose proof (generate_run host "job-research.json" tr2) as H3.
  destruct (Outreach.generate host "job-research.json" tr2) as [[m3|t3] tr3];
    simpl in H3; destruct H3 as [Hq3 H3].
  { destruct H3 as [H3|(text & H3 & _)]; simpl.
    - exists 2. rewrite H3, Hw2, Hw1, Hq3, Hq2, Hq1.
      split_and!; [lia|done|lia|lia|]. right. split; [done|by eexists].
    - exists 3. rewrite H3, Hw2, Hw1, Hq3, Hq2, Hq1.
      split_and!; [lia|done|lia|lia|]. right. split; [done|by eexists]. }
  destruct H3 as (text3 & Hw3 & Hok3). simpl.
  exists 3. rewrite Hw3, Hq3, Hq2, Hq1. rewrite Hw2 in *. rewrite Hw1 in *.
  split_and!; [lia|done|lia|lia|]. left. split_and!; [done..|].
  intros [|[|[|j]]] path text; simpl; intros [= <- <-]; done.
Qed.

End Coverage.

(** * The Executor *)

Section Executor.

Context {builtins : Builtins} (host : OpenClawBridge.Host).

Import OpenClawBridge.

(** ** Running commands *)

Lemma bind_run {A B} (m : M A) (k : A → M B) w :
  (m ≫= k) w = match m w with
               | (Fulfilled x, w') => k x w'
               | (Rejected message, w') => (Rejected message, w')
               end.
Proof. done. Qed.

Lemma execSync_run command w :
  execSync host command w
  = (match execSync_raises host (commands w) command with
     | Some message => Rejected message
     | None => Fulfilled tt
     end, mkWorld (commands w ++ [command]) (readings w)).
Proof. unfold execSync. by destruct (execSync_raises _ _ _). Qed.

(** [spawnClaudeSession] runs its three commands in order and stops at the
    first that raises; a session it returns is named after the task. *)
Lemma spawnClaudeSession_run taskId mode prompt w :
  ∃ k, 1 ≤ k ≤ 3
    ∧ commands (spawnClaudeSession host taskId mode prompt w).2
      = commands w ++ take k [new_window taskId; start_claude taskId;
                              send_prompt taskId mode prompt]
    ∧ ∀ session, (spawnClaudeSession host taskId mode prompt w).1 = Fulfilled session →
        session_id session = sessionName taskId.
Proof.
  unfold spawnClaudeSession, mbind, M_bind, execSync, now_iso, mret, M_ret. simpl.
  destruct (execSync_raises host (commands w) _); simpl.
  { exists 1. split_and!; [lia..|done|done]. }
  destruct (execSync_raises host _ (start_claude taskId)); simpl.
  { exists 2. rewrite <- app_assoc. split_and!; [lia..|done|done]. }
  destruct (execSync_raises host _ (send_prompt taskId mode prompt)); simpl.
  { exists 3. rewrite <- !app_assoc. split_and!; [lia..|done|done]. }
  exists 3. rewrite <- !app_assoc. split_and!; [lia..|done|].
  by intros session [= <-].
Qed.

Lemma takeScreenshot_run w :
  let path := screenshot_path (Date_now host (readings w)) in
  let tools := screenshot_tools path in
  let raises j :=
    is_Some (execSync_raises host (commands w ++ take j tools) (tools !!! j)) in
  ∃ k, k < 4
    ∧ commands (takeScreenshot host w).2 = commands w ++ take (S k) tools
    ∧ (∀ j, j < k → raises j)
    ∧ ((raises k ∧ k = 3 ∧ (takeScreenshot host w).1 = Fulfilled None)
       ∨ (¬ raises k ∧ (takeScreenshot host w).1 = Fulfilled (Some path))).
Proof.
  intros path tools raises.
  unfold takeScreenshot, try_catch, mbind, M_bind, now_ms, mret, M_ret. simpl.
  fold path. unfold try_catch, execSync. simpl.
  destruct (execSync_raises host (commands w) (tools !!! 0)) as [m0|] eqn:H0;
    simpl in H0; rewrite H0; simpl.
  2:{ exists 0. split_and!; [lia|done|intros j; lia|].
      right. split; [|done]. unfold raises. simpl. rewrite app_nil_r, H0.
      by intros [? ?]. }
  destruct (execSync_raises host (commands w ++ take 1 tools) (tools !!! 1))
    as [m1|] eqn:H1; simpl in H1; rewrite H1; simpl.
  2:{ exists 1. split_and!; [lia|by rewrite <- app_assoc| |].
      - intros j Hj. assert (j = 0) as -> by lia. unfold raises. simpl.
        rewrite app_nil_r, H0. by eexists.
      - right. split; [|done]. unfold raises. simpl. rewrite H1. by intros [? ?]. }
  destruct (execSync_raises host (commands w ++ take 2 tools) (tools !!! 2))
    as [m2|] eqn:H2; simpl in H2; rewrite <- app_assoc; simpl; rewrite H2; simpl.
  2:{ exists 2. split_and!; [lia|by rewrite <- !app_assoc| |].
      - intros j Hj. assert (j = 0 ∨ j = 1) as [-> | ->] by lia; unfold raises; simpl.
        + rewrite app_nil_r, H0. by eexists.
        + rewrite H1. by eexists.
      - right. split; [|done]. unfold raises. simpl. rewrite H2. by intros [? ?]. }
  assert (Hbefore : ∀ j, j < 3 → raises j).
  { intros j Hj. assert (j = 0 ∨ j = 1 ∨ j = 2) as [-> |[-> | ->]] by lia;
      unfold raises; simpl.
    - rewrite app_nil_r, H0. by eexists.
    - rewrite H1. by eexists.
    - rewrite H2. by eexists. }
  destruct (execSync_raises host (commands w ++ take 3 tools) (tools !!! 3))
    as [m3|] eqn:H3; simpl in H3; rewrite <- app_assoc; simpl; rewrite H3; simpl.
  - exists 3. split_and!; [lia|by rewrite <- !app_assoc|done|].
    left. split_and!; [|done..]. unfold raises. simpl. rewrite H3. by eexists.
  - exists 3. split_and!; [lia|by rewrite <- !app_assoc|done|].
    right. split; [|done]. unfold raises. simpl. rewrite H3. by intros [? ?].
Qed.

(** X21.  [takeScreenshot] never raises.  It tries its four tools in order, each
    only when the one before raised, and stops at the first that works; it
    returns the path then, and [null] when all four raised. *)
Theorem takeScreenshot_falls_back w :
  let path := screenshot_path (Date_now host (readings w)) in
  let tools := screenshot_tools path in
  let raises j :=
    is_Some (execSync_raises host (commands w ++ take j tools) (tools !!! j)) in
  ∃ k, k < 4
    ∧ commands (takeScreenshot host w).2 = commands w ++ take (S k) tools
    ∧ (∀ j, j < k → raises j)
    ∧ ((raises k ∧ k = 3 ∧ (takeScreenshot host w).1 = Fulfilled None)
       ∨ (¬ raises k ∧ (takeScreenshot host w).1 = Fulfilled (Some path))).
Proof. apply takeScreenshot_run. Qed.

Lemma takeScreenshot_readings w :
  readings (takeScreenshot host w).2 = S (readings w).
Proof.
  unfold takeScreenshot, try_catch, mbind, M_bind, now_ms, mret, M_ret. simpl.
  unfold try_catch, execSync. simpl.
  repeat (destruct (execSync_raises _ _ _); simpl); done.
Qed.

Lemma takeScreenshot_total w :
  ∃ shot new,
    takeScreenshot host w
    = (Fulfilled shot, mkWorld (commands w ++ new) (S (readings w)))
    ∧ 1 ≤ length new ≤ 4.
Proof.
  destruct (takeScreenshot_run w) as (k & Hk & Hc & _ & Hr).
  pose proof (takeScreenshot_readings w) as Hread.
  destruct (takeScreenshot host w) as [r [c n]]. simpl in *. subst c n.
  destruct Hr as [(_ & _ & ->)|[_ ->]]; (eexists _, _; split; [reflexivity|]);
    simpl; rewrite length_take; simpl; lia.
Qed.

(** ** The entries of [results] *)

Lemma assoc_field k v rest :
  assoc k rest = None → assoc k (field k v ++ rest) = v.
Proof.
  intros Hrest. destruct v as [x|]; simpl; [|done]. by rewrite String.eqb_refl.
Qed.

Lemma assoc_after_field k k' v rest :
  String.eqb k k' = false → assoc k (field k' v ++ rest) = assoc k rest.
Proof. intros Hk. destruct v as [x|]; simpl; [|done]. by rewrite Hk. Qed.

Lemma skipped_reports step :
  reports step (skipped step)
  ∧ is_str "skipped" (prop (skipped step) "status") = true.
Proof.
  unfold reports, skipped, prop.
  rewrite assoc_field by done. by rewrite assoc_after_field by done.
Qed.

Lemma dispatched_reports step session extra :
  assoc "step" extra = None →
  reports step (dispatched step session extra)
  ∧ is_str "skipped" (prop (dispatched step session extra) "status") = false.
Proof.
  intros Hextra. unfold reports, dispatched, prop.
  rewrite assoc_field by done. by rewrite assoc_after_field by done.
Qed.

Lemma failed_reports step message :
  reports step (failed step message)
  ∧ is_str "skipped" (prop (failed step message) "status") = false.
Proof.
  unfold reports, failed, prop.
  rewrite assoc_field by done. by rewrite assoc_after_field by done.
Qed.

(** ** One turn of each loop *)

Lemma spawns_take task mode prompt k :
  Forall (spawns task mode)
    (take k [new_window (id task); start_claude (id task);
             send_prompt (id task) mode prompt]).
Proof.
  apply Forall_take.
  apply Forall_cons_2; [by left|].
  apply Forall_cons_2; [right; by left|].
  apply Forall_cons_2; [right; right; by eexists|].
  by apply Forall_nil.
Qed.

(** What a turn of the loop of [executeTask] does to the world and what it
    pushes. *)
Lemma execute_step_run task step w r w' :
  execute_step host task step w = (r, w') →
  ∃ new,
    commands w' = commands w ++ new
    ∧ Forall (spawns task "EXECUTE") new
    ∧ length new ≤ (if for_GUI step then 0 else 3)
    ∧ match r with
      | Fulfilled entry =>
          executable step ∧ reports step entry
          ∧ is_str "skipped" (prop entry "status") = for_GUI step
      | Rejected _ => ¬ executable step
      end.
Proof.
  unfold execute_step, executable, for_GUI, printable. intros Hrun.
  destruct (is_null step) eqn:Hnull.
  { injection Hrun as <- <-. exists []. rewrite app_nil_r.
    split_and!; [done|done|simpl; repeat case_match; lia|]. by intros [? _]. }
  destruct (is_str "SUPERVISE" (prop step "mode")) eqn:Hgui.
  { injection Hrun as <- <-. exists []. rewrite app_nil_r.
    destruct (skipped_reports step) as [[? ?] ?].
    split_and!; first [done|simpl; repeat case_match; lia|auto]. }
  rewrite bind_run in Hrun. unfold lift at 1 in Hrun.
  destruct (text_of (prop step "step_number")) as [m|number] eqn:Hnum.
  { injection Hrun as <- <-. exists []. rewrite app_nil_r.
    split_and!; [done|done|simpl; repeat case_match; lia|]. intros (_ & [?|[[? ?] _]]); done. }
  rewrite bind_run in Hrun. unfold lift at 1 in Hrun.
  destruct (text_of (prop step "action")) as [m|action] eqn:Hact.
  { injection Hrun as <- <-. exists []. rewrite app_nil_r.
    split_and!; [done|done|simpl; repeat case_match; lia|]. intros (_ & [?|[_ [? ?]]]); done. }
  assert (Hg : false = true
               ∨ (∃ s, Fulfilled number = Fulfilled s)
                 ∧ ∃ s, Fulfilled action = Fulfilled s).
  { right. split; by eexists. }
  unfold try_catch in Hrun. rewrite bind_run in Hrun. unfold lift at 1 in Hrun.
  destruct (text_of (prop step "verification")) as [m|verification].
  { injection Hrun as <- <-. exists []. rewrite app_nil_r.
    destruct (failed_reports step m) as [[? ?] ?].
    split_and!; first [done|simpl; repeat case_match; lia|auto]. }
  rewrite bind_run in Hrun.
  destruct (spawnClaudeSession_run (id task) "EXECUTE"
              (step_prompt number action "Verification: " verification) w)
    as (k & Hk & Hc & _).
  destruct (spawnClaudeSession host _ _ _ w) as [[m|session] w1];
    simpl in Hc; injection Hrun as <- <-; eexists; (split; [exact Hc|]);
    (split; [apply spawns_take|]); (split; [rewrite length_take; simpl; repeat case_match; lia|]).
  - destruct (failed_reports step m) as [[? ?] ?].
    split_and!; first [done|simpl; repeat case_match; lia|auto].
  - destruct (dispatched_reports step session []) as [[? ?] ?]; [done|].
    split_and!; first [done|simpl; repeat case_match; lia|auto].
Qed.

(** The same for [superviseTask]; a turn that pushes an entry has run at
    least the command of its first screenshot. *)
Lemma supervise_step_run task step w r w' :
  supervise_step host task step w = (r, w') →
  ∃ new,
    commands w' = commands w ++ new
    ∧ length new ≤ 11
    ∧ match r with
      | Fulfilled entry =>
          supervisable step
          ∧ (reports step entry
             ∧ is_str "skipped" (prop entry "status") = false)
          ∧ 1 ≤ length new
      | Rejected _ => ¬ supervisable step
      end.
Proof.
  unfold supervise_step, supervisable, printable. intros Hrun.
  destruct (is_null step) eqn:Hnull.
  { injection Hrun as <- <-. exists []. rewrite app_nil_r.
    split_and!; [done|simpl; lia|]. by intros [? _]. }
  rewrite bind_run in Hrun. unfold lift at 1 in Hrun.
  destruct (text_of (prop step "step_number")) as [m|number] eqn:Hnum.
  { injection Hrun as <- <-. exists []. rewrite app_nil_r.
    split_and!; [done|simpl; lia|]. intros (_ & [? ?] & _); done. }
  rewrite bind_run in Hrun. unfold lift at 1 in Hrun.
  destruct (text_of (prop step "action")) as [m|action] eqn:Hact.
  { injection Hrun as <- <-. exists []. rewrite app_nil_r.
    split_and!; [done|simpl; lia|]. intros (_ & _ & [? ?]); done. }
  assert (Hg2 : ∃ s, Fulfilled number = Fulfilled s) by by eexists.
  assert (Hg3 : ∃ s, Fulfilled action = Fulfilled s) by by eexists.
  rewrite bind_run in Hrun.
  destruct (takeScreenshot_total w) as (before & new1 & Hshot1 & Hlen1).
  rewrite Hshot1 in Hrun.
  unfold try_catch in Hrun. rewrite bind_run in Hrun. unfold lift at 1 in Hrun.
  destruct (text_of (prop step "verification")) as [m|verification].
  { injection Hrun as <- <-. exists new1. simpl.
    destruct (failed_reports step m) as [[? ?] ?].
    split_and!; first [done|lia|auto]. }
  rewrite bind_run in Hrun.
  set (w1 := mkWorld (commands w ++ new1) (S (readings w))) in *.
  destruct (spawnClaudeSession_run (id task) "SUPERVISE"
              (step_prompt number action "Expected UI state: " verification) w1)
    as (k & Hk & Hc & _).
  destruct (spawnClaudeSession host _ _ _ w1) as [[m|session] w2]; simpl in Hc.
  - injection Hrun as <- <-. eexists. rewrite Hc. unfold w1. simpl.
    rewrite <- app_assoc. split; [done|]. rewrite length_app, length_take. simpl.
    destruct (failed_reports step m) as [[? ?] ?].
    split_and!; first [done|lia|auto].
  - rewrite bind_run in Hrun.
    destruct (takeScreenshot_total w2) as (after & new2 & Hshot2 & Hlen2).
    rewrite Hshot2 in Hrun. injection Hrun as <- <-.
    simpl. eexists. rewrite Hc. unfold w1. simpl. rewrite <- !app_assoc.
    split; [done|]. rewrite !length_app, length_take. simpl.
    destruct (dispatched_reports step session
                [("screenshots",
                  JObj [("before", or_null before); ("after", or_null after)])])
      as [[? ?] ?]; [done|].
    split_and!; first [done|lia|auto].
Qed.

(** The loop: every turn pushes one entry, in the order of the steps, and
    the first turn that raises ends it. *)
Lemma push_each_run (turn : json → M json) (good : json → Prop)
    (rel : json → json → Prop) (allowed : string → Prop) (cost : json → nat) :
  (∀ step w r w', turn step w = (r, w') →
     ∃ new,
       commands w' = commands w ++ new
       ∧ Forall allowed new ∧ length new ≤ cost step
       ∧ match r with
         | Fulfilled entry => good step ∧ rel step entry
         | Rejected _ => ¬ good step
         end) →
  ∀ steps results w r w', push_each turn steps results w = (r, w') →
    ∃ new,
      commands w' = commands w ++ new
      ∧ Forall allowed new ∧ length new ≤ sum_list (cost <$> steps)
      ∧ match r with
        | Fulfilled out =>
            Forall good steps
            ∧ ∃ entries, out = results ++ entries ∧ Forall2 rel steps entries
        | Rejected _ => ¬ Forall good steps
        end.
Proof.
  intros Hturn steps. induction steps as [|step rest IH];
    intros results w r w' Hrun.
  { injection Hrun as <- <-. exists []. rewrite app_nil_r.
    split_and!; [done|done|simpl; lia|done|]. exists []. by rewrite app_nil_r. }
  simpl push_each in Hrun. rewrite bind_run in Hrun.
  destruct (turn step w) as [[m|entry] w1] eqn:Hstep;
    destruct (Hturn _ _ _ _ Hstep) as (new1 & Hc1 & Hall1 & Hlen1 & Hr1).
  { injection Hrun as <- <-. exists new1.
    split_and!; [done|done| |].
    { rewrite fmap_cons.
      change (sum_list (cost step :: (cost <$> rest)))
        with (cost step + sum_list (cost <$> rest)). lia. }
    intros Hall. by apply Forall_cons_1 in Hall as [? _]. }
  destruct (IH _ _ _ _ Hrun) as (new2 & Hc2 & Hall2 & Hlen2 & Hr2).
  exists (new1 ++ new2). rewrite Hc2, Hc1, <- app_assoc.
  split_and!; [done|by apply Forall_app| |].
  { rewrite length_app, fmap_cons.
    change (sum_list (cost step :: (cost <$> rest)))
      with (cost step + sum_list (cost <$> rest)). lia. }
  destruct r as [m|out].
  - intros Hall. by apply Forall_cons_1 in Hall as [_ ?].
  - destruct Hr1 as [Hg Hrel]. destruct Hr2 as (Hgs & entries & -> & Hrels).
    split; [by apply Forall_cons_2|].
    exists (entry :: entries). rewrite <- app_assoc. split; [done|].
    by apply Forall2_cons.
Qed.

Lemma sum_cost_execute steps :
  sum_list ((λ step, if for_GUI step then 0 else 3) <$> steps)
  = 3 * length (List.filter (λ step, negb (for_GUI step)) steps).
Proof.
  induction steps as [|step rest IH]; [done|]. rewrite fmap_cons.
  change (sum_list (?x :: ?l)) with (x + sum_list l). rewrite IH. simpl.
  destruct (for_GUI step); simpl; lia.
Qed.

Lemma sum_cost_const (n : nat) (steps : list json) :
  sum_list ((λ _, n) <$> steps) = n * length steps.
Proof.
  induction steps as [|step rest IH]; [simpl; lia|]. rewrite fmap_cons.
  change (sum_list (?x :: ?l)) with (x + sum_list l). rewrite IH. simpl. lia.
Qed.

(** [executeTask] as a whole. *)
Lemma executeTask_run task plan w r w' :
  executeTask host task plan w = (r, w') →
  ∃ new,
    commands w' = commands w ++ new
    ∧ Forall (spawns task "EXECUTE") new
    ∧ (∀ steps, iterate (steps_of plan) = Some steps →
         length new ≤ 3 * length (List.filter (λ step, negb (for_GUI step)) steps))
    ∧ match r with
      | Fulfilled result =>
          is_null plan = false
          ∧ ∃ steps entries,
              iterate (steps_of plan) = Some steps
              ∧ Forall executable steps
              ∧ result = JObj [("task_id", JStr (id task)); ("mode", JStr "EXECUTE");
                               ("results", JArr entries)]
              ∧ Forall2 (λ step entry,
                           reports step entry
                           ∧ is_str "skipped" (prop entry "status") = for_GUI step)
                  steps entries
      | Rejected _ =>
          ¬ (is_null plan = false
             ∧ ∃ steps, iterate (steps_of plan) = Some steps
                 ∧ Forall executable steps)
      end.
Proof.
  unfold executeTask. intros Hrun. destruct (is_null plan) eqn:Hnull.
  { injection Hrun as <- <-. exists []. rewrite app_nil_r.
    split_and!; [done|done|intros; simpl; lia|]. by intros [? _]. }
  destruct (iterate (steps_of plan)) as [steps|] eqn:Hsteps.
  2:{ injection Hrun as <- <-. exists []. rewrite app_nil_r.
      split_and!; [done|done|intros; simpl; lia|]. by intros (_ & ? & ? & _). }
  rewrite bind_run in Hrun.
  destruct (push_each (execute_step host task) steps [] w) as [r1 w1] eqn:Hloop.
  destruct (push_each_run (execute_step host task) executable
              (λ step entry, reports step entry
                 ∧ is_str "skipped" (prop entry "status") = for_GUI step)
              (spawns task "EXECUTE") (λ step, if for_GUI step then 0 else 3))
    with (steps := steps) (results := @nil json) (w := w) (r := r1) (w' := w1)
    as (new & Hc & Hall & Hlen & Hr); [|done|].
  { intros step w0 r0 w0' Hstep.
    destruct (execute_step_run task step w0 r0 w0' Hstep)
      as (new & ? & ? & ? & Hr). exists new. split_and!; [done..|].
    destruct r0; [done|]. tauto. }
  rewrite sum_cost_execute in Hlen.
  destruct r1 as [m|out]; injection Hrun as <- <-; exists new;
    (split; [done|]); (split; [done|]); (split; [by intros ? [= <-]|]).
  - intros (_ & steps' & [= <-] & ?). done.
  - destruct Hr as (Hgood & entries & -> & Hrel).
    split; [done|]. by exists steps, entries.
Qed.

(** [superviseTask] as a whole. *)
Lemma superviseTask_run task plan w r w' :
  superviseTask host task plan w = (r, w') →
  ∃ new,
    commands w' = commands w ++ new
    ∧ (∀ steps, iterate (steps_of plan) = Some steps →
         length new ≤ 11 * length steps)
    ∧ match r with
      | Fulfilled result =>
          is_null plan = false
          ∧ ∃ steps entries,
              iterate (steps_of plan) = Some steps
              ∧ Forall supervisable steps
              ∧ result = JObj [("task_id", JStr (id task));
                               ("mode", JStr "SUPERVISE");
                               ("results", JArr entries)]
              ∧ Forall2 (λ step entry,
                           reports step entry
                           ∧ is_str "skipped" (prop entry "status") = false)
                  steps entries
      | Rejected _ =>
          ¬ (is_null plan = false
             ∧ ∃ steps, iterate (steps_of plan) = Some steps
                 ∧ Forall supervisable steps)
      end.
Proof.
  unfold superviseTask. intros Hrun. destruct (is_null plan) eqn:Hnull.
  { injection Hrun as <- <-. exists []. rewrite app_nil_r.
    split_and!; [done|intros; simpl; lia|]. by intros [? _]. }
  destruct (iterate (steps_of plan)) as [steps|] eqn:Hsteps.
  2:{ injection Hrun as <- <-. exists []. rewrite app_nil_r.
      split_and!; [done|intros; simpl; lia|]. by intros (_ & ? & ? & _). }
  rewrite bind_run in Hrun.
  destruct (push_each (supervise_step host task) steps [] w) as [r1 w1] eqn:Hloop.
  destruct (push_each_run (supervise_step host task) supervisable
              (λ step entry, reports step entry
                 ∧ is_str "skipped" (prop entry "status") = false)
              (λ _, True) (λ _, 11))
    with (steps := steps) (results := @nil json) (w := w) (r := r1) (w' := w1)
    as (new & Hc & _ & Hlen & Hr); [|done|].
  { intros step w0 r0 w0' Hstep.
    destruct (supervise_step_run task step w0 r0 w0' Hstep)
      as (new & ? & ? & Hr). exists new.
    split_and!; [done|by apply Forall_true|done|].
    destruct r0; [done|]. tauto. }
  rewrite sum_cost_const in Hlen.
  destruct r1 as [m|out]; injection Hrun as <- <-; exists new;
    (split; [done|]); (split; [by intros ? [= <-]|]).
  - intros (_ & steps' & [= <-] & ?). done.
  - destruct Hr as (Hgood & entries & -> & Hrel).
    split; [done|]. by exists steps, entries.
Qed.

(** ** The two task runners *)

(** X22.  [executeTask] and [superviseTask] raise only on a plan they cannot walk
    through: a [null] plan, steps that cannot be iterated, a [null] step, or
    a step whose number or action the log line cannot print.  No command that
    fails makes them raise. *)
Theorem task_runners_raise_only_on_bad_plans task plan w :
  ((∃ result, (executeTask host task plan w).1 = Fulfilled result)
   ↔ is_null plan = false
     ∧ ∃ steps, iterate (steps_of plan) = Some steps ∧ Forall executable steps)
  ∧ ((∃ result, (superviseTask host task plan w).1 = Fulfilled result)
     ↔ is_null plan = false
       ∧ ∃ steps, iterate (steps_of plan) = Some steps
           ∧ Forall supervisable steps).
Proof.
  split.
  - destruct (executeTask host task plan w) as [r w'] eqn:Hrun.
    destruct (executeTask_run task plan w r w' Hrun) as (_ & _ & _ & _ & Hr).
    simpl. destruct r as [m|result].
    + split; [by intros [? ?]|done].
    + split; [|by eexists]. intros _.
      destruct Hr as (? & steps & entries & ? & ? & _). split; [done|].
      by exists steps.
  - destruct (superviseTask host task plan w) as [r w'] eqn:Hrun.
    destruct (superviseTask_run task plan w r w' Hrun) as (_ & _ & _ & Hr).
    simpl. destruct r as [m|result].
    + split; [by intros [? ?]|done].
    + split; [|by eexists]. intros _.
      destruct Hr as (? & steps & entries & ? & ? & _). split; [done|].
      by exists steps.
Qed.

(** X23.  The result of [executeTask] names the task and holds one entry for each
    step of the plan, in the order of the steps, under the number of the
    step; the entry is ['skipped'] exactly for the steps of SUPERVISE mode. *)
Theorem executeTask_reports_every_step task plan w result :
  (executeTask host task plan w).1 = Fulfilled result →
  ∃ steps entries,
    iterate (steps_of plan) = Some steps
    ∧ result = JObj [("task_id", JStr (id task)); ("mode", JStr "EXECUTE");
                     ("results", JArr entries)]
    ∧ Forall2 (λ step entry,
                 reports step entry
                 ∧ is_str "skipped" (prop entry "status") = for_GUI step)
        steps entries.
Proof.
  destruct (executeTask host task plan w) as [r w'] eqn:Hrun. simpl. intros ->.
  destruct (executeTask_run task plan w _ w' Hrun)
    as (_ & _ & _ & _ & _ & steps & entries & ? & _ & ? & ?).
  by exists steps, entries.
Qed.

(** X24.  [executeTask] runs nothing but the commands that spawn a session in the
    window of its task, at most three for each step that is not of
    SUPERVISE mode: a step of SUPERVISE mode runs no command. *)
Theorem executeTask_spawns_only_for_code_steps task plan w :
  ∃ new,
    commands (executeTask host task plan w).2 = commands w ++ new
    ∧ Forall (spawns task "EXECUTE") new
    ∧ ∀ steps, iterate (steps_of plan) = Some steps →
        length new
        ≤ 3 * length (List.filter (λ step, negb (for_GUI step)) steps).
Proof.
  destruct (executeTask host task plan w) as [r w'] eqn:Hrun.
  destruct (executeTask_run task plan w r w' Hrun) as (new & ? & ? & ? & _).
  by exists new.
Qed.

(** X25.  The result of [superviseTask] holds one entry for each step of the plan,
    in order and under the number of the step, none of them ['skipped'], and
    every step has run between one and eleven commands. *)
Theorem superviseTask_reports_every_step task plan w result :
  (superviseTask host task plan w).1 = Fulfilled result →
  ∃ steps entries new,
    iterate (steps_of plan) = Some steps
    ∧ result = JObj [("task_id", JStr (id task)); ("mode", JStr "SUPERVISE");
                     ("results", JArr entries)]
    ∧ Forall2 (λ step entry,
                 reports step entry
                 ∧ is_str "skipped" (prop entry "status") = false)
        steps entries
    ∧ commands (superviseTask host task plan w).2 = commands w ++ new
    ∧ length new ≤ 11 * length steps.
Proof.
  destruct (superviseTask host task plan w) as [r w'] eqn:Hrun. simpl. intros ->.
  destruct (superviseTask_run task plan w _ w' Hrun)
    as (new & ? & Hlen & _ & steps & entries & ? & _ & ? & ?).
  exists steps, entries, new. split_and!; [done..|]. by apply Hlen.
Qed.

(** ** The scheduler and the Executor together *)

Lemma stepless_plan_has_no_steps plan :
  prop plan "steps" = None → iterate (steps_of plan) = Some [].
Proof. unfold steps_of. by intros ->. Qed.

(** X26.  A plan without a [steps] property, such as the [{raw: text}] that an
    unparsable answer becomes, is run as an empty plan: the pass spends a
    hop, the Executor runs no command and reports no entry, no failure is
    counted, and the pass goes on to verification. *)
Theorem plan_without_steps_runs_nothing t answer plan entry w :
  planExecution t answer = Fulfilled plan →
  prop plan "steps" = None →
  dispatch (mode (envelope t)) plan = Executing entry plan →
  ∃ t1 saved1 result t2 saved2,
    resume t Planning (FromGemini answer)
    = Some (t1, saved1, Await (Executing entry plan))
    ∧ hops (envelope t1) = S (hops (envelope t))
    ∧ run_entry host entry t1 plan w = (Fulfilled result, w)
    ∧ prop result "results" = Some (JArr [])
    ∧ resume t1 (Executing entry plan) (FromExecutor (Fulfilled result))
      = Some (t2, saved2, Await (Verifying result))
    ∧ status t2 = verifying
    ∧ consecutive_failures (envelope t2) = consecutive_failures (envelope t).
Proof.
  intros Hplan Hsteps Hdispatch.
  assert (Hnull : is_null plan = false).
  { unfold planExecution, after_printing in Hplan.
    destruct (callGeminiJSON answer) as [|p]; [done|].
    destruct (is_null p) eqn:Hn; [done|]. repeat case_match; by simplify_eq. }
  pose proof (stepless_plan_has_no_steps plan Hsteps) as Hiter.
  destruct entry; eexists _, _, _, _, _; split_and!.
  all: try (simpl; rewrite Hplan; simpl; unfold processTask_planned; simpl;
            by rewrite Hdispatch).
  all: try (simpl; unfold executeTask, superviseTask; by rewrite Hnull, Hiter).
  all: try (simpl; unfold processTask_executed, expected_outcome; simpl;
            rewrite Hsteps; reflexivity).
  all: done.
Qed.

End Executor.

(** * The further properties on sample runs *)

Lemma completed_state_reached :
  sample_run first_pass_done = Some completed_state
  ∧ heap completed_state !! 0 = Some completed_task.
Proof. split; vm_compute; reflexivity. Qed.

Lemma dead_letter_state_reached :
  sample_run ten_retries = Some dead_letter_state
  ∧ heap dead_letter_state !! 0 = Some dead_letter_task.
Proof. split; vm_compute; reflexivity. Qed.

Lemma stranded_state_reached :
  sample_run [undescribed_submit; Tick] = Some stranded_state
  ∧ heap stranded_state !! 0 = Some stranded_task.
Proof. split; vm_compute; reflexivity. Qed.

(** A description that is an array holding an object with a property
    [toString] of its own: the log line of the tick raises on it, and the task
    is left in [processing], as submitted, with no pass. *)
Lemma unprintable_description_strands :
  has_slice (builtins := sample_builtins) (description opaque_task) = false
  ∧ sample_run [opaque_submit; Tick] = Some opaque_state
  ∧ heap opaque_state !! 0 = Some opaque_task
  ∧ status opaque_task = received
  ∧ queue opaque_state = []
  ∧ passes opaque_state = []
  ∧ processing opaque_state !! id opaque_task = Some 0.
Proof. split_and!; vm_compute; reflexivity. Qed.

Lemma stranded_ids_unique : unique_ids (heap stranded_state).
Proof.
  intros [|l1] [|l2] t1 t2 H1 H2 _; try done.
Qed.

(** Status and place while the tenth verdict of the sample task is awaited. *)
Lemma status_tracks_place_witness :
  sample_run tenth_pass = Some tenth_verdict_due
  ∧ (∀ l ph t, (l, ph) ∈ passes tenth_verdict_due →
       heap tenth_verdict_due !! l = Some t → status t = status_of ph)
  ∧ NoDup (done tenth_verdict_due).
Proof.
  assert (H1 : sample_run tenth_pass = Some tenth_verdict_due)
    by (vm_compute; reflexivity).
  pose proof (status_tracks_place (builtins := sample_builtins)
                (Some 3%Z) tenth_pass tenth_verdict_due H1) as (_ & H2 & _ & H3).
  exact (conj H1 (conj H2 H3)).
Defined.

(** The completed sample task stays as it is, whatever comes. *)
Lemma terminal_status_is_final_witness :
  sample_run first_pass_done = Some completed_state
  ∧ heap completed_state !! 0 = Some completed_task
  ∧ terminal (status completed_task) = true
  ∧ ∀ es' q', run (builtins := sample_builtins) completed_state es' = Some q' →
      heap q' !! 0 = Some completed_task.
Proof.
  assert (H1 : sample_run first_pass_done = Some completed_state)
    by (vm_compute; reflexivity).
  assert (H2 : heap completed_state !! 0 = Some completed_task)
    by (vm_compute; reflexivity).
  assert (H3 : terminal (status completed_task) = true)
    by (vm_compute; reflexivity).
  refine (conj H1 (conj H2 (conj H3 _))). intros es' q' Hrun.
  exact (proj1 (terminal_status_is_final (builtins := sample_builtins)
                  (Some 3%Z) first_pass_done completed_state 0 completed_task
                  H1 H2 H3 es' q' Hrun)).
Defined.

(** The sample task, escalated and picked up again, is the task of a pass. *)
Lemma no_task_is_lost_witness :
  sample_run (three_retries ++ [Tick]) = Some escalated_state
  ∧ heap escalated_state !! 0 = Some escalated_task
  ∧ has_slice (builtins := sample_builtins) (description escalated_task) = true
  ∧ (0 ∈ queue escalated_state ∨ 0 ∈ (passes escalated_state).*1
     ∨ terminal (status escalated_task) = true).
Proof.
  assert (H1 : sample_run (three_retries ++ [Tick]) = Some escalated_state)
    by (vm_compute; reflexivity).
  assert (H2 : heap escalated_state !! 0 = Some escalated_task)
    by (vm_compute; reflexivity).
  assert (H3 : has_slice (builtins := sample_builtins) (description escalated_task) = true)
    by (vm_compute; reflexivity).
  exact (conj H1 (conj H2 (conj H3
    (no_task_is_lost (builtins := sample_builtins) (Some 3%Z)
       (three_retries ++ [Tick]) escalated_state 0 escalated_task H1 H2 H3)))).
Defined.

(** The cap of three on the run up to the tenth verdict. *)
Lemma concurrency_cap_holds_witness :
  sample_run tenth_pass = Some tenth_verdict_due
  ∧ maxConcurrent tenth_verdict_due = Some 3%Z
  ∧ (Z.of_nat (active tenth_verdict_due) ≤ 3)%Z.
Proof.
  assert (H1 : sample_run tenth_pass = Some tenth_verdict_due)
    by (vm_compute; reflexivity).
  pose proof (concurrency_cap_holds (builtins := sample_builtins)
                (Some 3%Z) tenth_pass tenth_verdict_due H1) as [H2 H3].
  exact (conj H1 (conj H2 (H3 3%Z eq_refl))).
Defined.

(** The tick that takes the escalated sample task takes the head of the
    queue. *)
Lemma queue_is_fifo_witness :
  step (builtins := sample_builtins) (state_after three_retries) Tick
  = Some escalated_state
  ∧ (queue escalated_state = queue (state_after three_retries)
     ∨ (Tick = Tick ∧ ∃ l, queue (state_after three_retries)
                           = l :: queue escalated_state)
     ∨ (Tick ≠ Tick ∧ ∃ l, queue escalated_state
                           = queue (state_after three_retries) ++ [l])).
Proof.
  assert (H1 : step (builtins := sample_builtins) (state_after three_retries) Tick
               = Some escalated_state) by (vm_compute; reflexivity).
  exact (conj H1 (queue_is_fifo (builtins := sample_builtins)
                    (state_after three_retries) Tick escalated_state H1)).
Defined.

(** The tenth RETRY verdict changes the sample task and saves the change. *)
Lemma changes_are_saved_witness :
  step (builtins := sample_builtins) tenth_verdict_due (verdict "RETRY")
  = Some dead_letter_state
  ∧ ∃ w, disk dead_letter_state = disk tenth_verdict_due ++ w
      ∧ ∀ l t t', heap tenth_verdict_due !! l = Some t →
          heap dead_letter_state !! l = Some t' → t' ≠ t → SaveTask t' ∈ w.
Proof.
  assert (H1 : step (builtins := sample_builtins) tenth_verdict_due
                 (verdict "RETRY") = Some dead_letter_state)
    by (vm_compute; reflexivity).
  exact (conj H1 (changes_are_saved (builtins := sample_builtins)
                    tenth_verdict_due (verdict "RETRY") dead_letter_state H1)).
Defined.

(** The sample task is dead-lettered by its tenth RETRY verdict, at hop 10. *)
Lemma dead_letter_only_at_ttl_witness :
  sample_run ten_retries = Some dead_letter_state
  ∧ heap dead_letter_state !! 0 = Some dead_letter_task
  ∧ status dead_letter_task = dead_lettered
  ∧ hops (envelope dead_letter_task) = 10
  ∧ DeadLetter dead_letter_task ∈ disk dead_letter_state.
Proof.
  assert (H1 : sample_run ten_retries = Some dead_letter_state)
    by (vm_compute; reflexivity).
  assert (H2 : heap dead_letter_state !! 0 = Some dead_letter_task)
    by (vm_compute; reflexivity).
  assert (H3 : status dead_letter_task = dead_lettered)
    by (vm_compute; reflexivity).
  pose proof (dead_letter_only_at_ttl (builtins := sample_builtins)
                (Some 3%Z) ten_retries dead_letter_state H1) as [H4 _].
  refine (conj H1 (conj H2 (conj H3 (conj (proj1 (H4 0 dead_letter_task H2 H3)) _)))).
  vm_compute. apply list_elem_of_In. simpl. tauto.
Defined.

(** Three RETRY verdicts: the sample task is escalated. *)
Lemma escalated_iff_three_failures_witness :
  sample_run (three_retries ++ [Tick]) = Some escalated_state
  ∧ heap escalated_state !! 0 = Some escalated_task
  ∧ status escalated_task ≠ completed
  ∧ (escalated (envelope escalated_task) = true
     ↔ 3 ≤ consecutive_failures (envelope escalated_task)).
Proof.
  assert (H1 : sample_run (three_retries ++ [Tick]) = Some escalated_state)
    by (vm_compute; reflexivity).
  assert (H2 : heap escalated_state !! 0 = Some escalated_task)
    by (vm_compute; reflexivity).
  assert (H3 : status escalated_task ≠ completed) by (vm_compute; discriminate).
  exact (conj H1 (conj H2 (conj H3
    (proj1 (escalated_iff_three_failures (builtins := sample_builtins) (Some 3%Z)
              (three_retries ++ [Tick]) escalated_state 0 escalated_task
              H1 H2 H3))))).
Defined.

(** A submission without a description, after the tick that took it. *)
Lemma undescribed_task_is_never_processed_witness :
  sample_run [undescribed_submit; Tick] = Some stranded_state
  ∧ heap stranded_state !! 0 = Some stranded_task
  ∧ has_slice (builtins := sample_builtins) (description stranded_task) = false
  ∧ submitted stranded_task
  ∧ (0 ∉ (passes stranded_state).*1).
Proof.
  assert (H1 : sample_run [undescribed_submit; Tick] = Some stranded_state)
    by (vm_compute; reflexivity).
  assert (H2 : heap stranded_state !! 0 = Some stranded_task)
    by (vm_compute; reflexivity).
  assert (H3 : has_slice (builtins := sample_builtins) (description stranded_task) = false)
    by (vm_compute; reflexivity).
  pose proof (undescribed_task_is_never_processed (builtins := sample_builtins)
                (Some 3%Z) [undescribed_submit; Tick] stranded_state 0
                stranded_task H1 H2 H3) as (H4 & H5 & _).
  exact (conj H1 (conj H2 (conj H3 (conj H4 H5)))).
Defined.

(** It holds its entry of [processing]. *)
Lemma undescribed_task_keeps_its_slot_witness :
  sample_run [undescribed_submit; Tick] = Some stranded_state
  ∧ unique_ids (heap stranded_state)
  ∧ heap stranded_state !! 0 = Some stranded_task
  ∧ has_slice (builtins := sample_builtins) (description stranded_task) = false
  ∧ (0 ∉ queue stranded_state)
  ∧ processing stranded_state !! id stranded_task = Some 0.
Proof.
  assert (H1 : sample_run [undescribed_submit; Tick] = Some stranded_state)
    by (vm_compute; reflexivity).
  assert (H2 : heap stranded_state !! 0 = Some stranded_task)
    by (vm_compute; reflexivity).
  assert (H3 : has_slice (builtins := sample_builtins) (description stranded_task) = false)
    by (vm_compute; reflexivity).
  assert (H4 : 0 ∉ queue stranded_state) by (simpl; apply not_elem_of_nil).
  exact (conj H1 (conj stranded_ids_unique (conj H2 (conj H3 (conj H4
    (undescribed_task_keeps_its_slot (builtins := sample_builtins) (Some 3%Z)
       [undescribed_submit; Tick] stranded_state 0 stranded_task
       H1 stranded_ids_unique H2 H3 H4)))))).
Defined.

(** One task has completed and [completed()] is one. *)
Lemma completed_counts_completed_tasks_witness :
  sample_run first_pass_done = Some completed_state
  ∧ completed_count completed_state
    = length (List.filter is_completed (heap completed_state)).
Proof.
  assert (H1 : sample_run first_pass_done = Some completed_state)
    by (vm_compute; reflexivity).
  exact (conj H1 (completed_counts_completed_tasks (builtins := sample_builtins)
                    (Some 3%Z) first_pass_done completed_state H1)).
Defined.

(** The answer [null] to the planning call of the sample task. *)
Lemma null_reply_is_a_failure_witness :
  JSON_parse (Builtins := sample_builtins)
    (strip_fences (builtins := sample_builtins) "null") = Some JNull
  ∧ ∃ m, resume (builtins := sample_builtins) sample_task Planning
           (FromGemini (Fulfilled "null"))
         = Some (handleFailure sample_task m).
Proof.
  assert (H1 : JSON_parse (Builtins := sample_builtins)
                 (strip_fences (builtins := sample_builtins) "null") = Some JNull)
    by (vm_compute; reflexivity).
  exact (conj H1 (null_reply_is_a_failure (builtins := sample_builtins)
                    sample_task Planning "null" H1
                    ltac:(intros entry plan; discriminate))).
Defined.

(** A fenced plan. *)
Lemma fenced_answer_is_unwrapped_witness :
  no_backtick "PLAN" = true
  ∧ strip_fences (builtins := sample_builtins)
      ("```json" +:+ newline +:+ "PLAN" +:+ newline +:+ "```")
    = trim (Builtins := sample_builtins) ("PLAN" +:+ newline).
Proof.
  assert (H1 : no_backtick "PLAN" = true) by (vm_compute; reflexivity).
  exact (conj H1 (proj2 (fenced_answer_is_unwrapped (builtins := sample_builtins)
                           "PLAN" H1))).
Defined.

(** The server answers 503 to the verification call of hop 1. *)
Lemma failed_model_call_is_a_failed_hop_witness :
  ok overloaded = false
  ∧ ∃ m, resume (builtins := sample_builtins) first_verdict_task
           (Verifying sample_result) (gemini_reply (Fulfilled overloaded))
         = Some (handleFailure first_verdict_task m).
Proof.
  assert (H1 : ok overloaded = false) by reflexivity.
  exact (conj H1 (failed_model_call_is_a_failed_hop (builtins := sample_builtins)
                    first_verdict_task (Verifying sample_result)
                    (Fulfilled overloaded)
                    ltac:(intros entry plan; discriminate)
                    ltac:(intros response [= <-]; reflexivity))).
Defined.

(** The verification call of hop 1 is answered without a candidate. *)
Lemma empty_answer_is_not_an_error_witness :
  ok blocked_answer = true
  ∧ truthy_opt (answer_text
      (JObj [("promptFeedback", JObj [("blockReason", JStr "SAFETY")])])) = false
  ∧ JSON_parse (Builtins := sample_builtins)
      (strip_fences (builtins := sample_builtins) "") = None
  ∧ resume (builtins := sample_builtins) first_verdict_task
      (Verifying sample_result) (gemini_reply (Fulfilled blocked_answer))
    = Some (on_ESCALATE first_verdict_task
              (JObj [("raw", JStr (strip_fences (builtins := sample_builtins) ""))])).
Proof.
  assert (H1 : ok blocked_answer = true) by reflexivity.
  assert (H2 : truthy_opt (answer_text
            (JObj [("promptFeedback", JObj [("blockReason", JStr "SAFETY")])]))
               = false) by reflexivity.
  assert (H3 : JSON_parse (Builtins := sample_builtins)
                 (strip_fences (builtins := sample_builtins) "") = None)
    by (vm_compute; reflexivity).
  pose proof (empty_answer_is_not_an_error (builtins := sample_builtins)
                first_verdict_task blocked_answer _ H1 eq_refl
                ltac:(discriminate) H2 H3) as (_ & _ & H4).
  exact (conj H1 (conj H2 (conj H3 (H4 sample_result)))).
Defined.

(** The sample plan on a host where every command works. *)
Lemma executeTask_reports_every_step_witness :
  (OpenClawBridge.executeTask (builtins := sample_builtins) quiet_host
     sample_task sample_plan fresh_world).1 = Fulfilled sample_report
  ∧ ∃ steps entries,
      OpenClawBridge.iterate (OpenClawBridge.steps_of sample_plan) = Some steps
      ∧ sample_report
        = JObj [("task_id", JStr (id sample_task)); ("mode", JStr "EXECUTE");
                ("results", JArr entries)]
      ∧ Forall2 (λ step entry,
                   reports step entry
                   ∧ is_str "skipped" (prop entry "status") = for_GUI step)
          steps entries.
Proof.
  assert (H1 : (OpenClawBridge.executeTask (builtins := sample_builtins)
                  quiet_host sample_task sample_plan fresh_world).1
               = Fulfilled sample_report) by (vm_compute; reflexivity).
  exact (conj H1 (executeTask_reports_every_step
                    (builtins := sample_builtins) quiet_host
                    sample_task sample_plan fresh_world sample_report H1)).
Defined.

(** The sample plan under supervision, on a host without the first
    screenshot tool. *)
Lemma superviseTask_reports_every_step_witness :
  (OpenClawBridge.superviseTask (builtins := sample_builtins)
     host_without_gnome sample_task sample_plan fresh_world).1
  = Fulfilled sample_supervision
  ∧ ∃ steps entries new,
      OpenClawBridge.iterate (OpenClawBridge.steps_of sample_plan) = Some steps
      ∧ sample_supervision
        = JObj [("task_id", JStr (id sample_task)); ("mode", JStr "SUPERVISE");
                ("results", JArr entries)]
      ∧ Forall2 (λ step entry,
                   reports step entry
                   ∧ is_str "skipped" (prop entry "status") = false)
          steps entries
      ∧ OpenClawBridge.commands
          (OpenClawBridge.superviseTask (builtins := sample_builtins)
             host_without_gnome sample_task sample_plan fresh_world).2
        = OpenClawBridge.commands fresh_world ++ new
      ∧ length new ≤ 11 * length steps.
Proof.
  assert (H1 : (OpenClawBridge.superviseTask (builtins := sample_builtins)
                  host_without_gnome sample_task sample_plan fresh_world).1
               = Fulfilled sample_supervision) by (vm_compute; reflexivity).
  exact (conj H1 (superviseTask_reports_every_step
                    (builtins := sample_builtins) host_without_gnome
                    sample_task sample_plan fresh_world sample_supervision H1)).
Defined.

(** The planning call of the sample task is answered in prose. *)
Lemma plan_without_steps_runs_nothing_witness :
  planExecution (builtins := sample_builtins) sample_task
    (Fulfilled "Sorry, I cannot help with that.")
  = Fulfilled (JObj [("raw", JStr "Sorry, I cannot help with that.")])
  ∧ ∃ t1 saved1 result t2 saved2,
      resume (builtins := sample_builtins) sample_task Planning
        (FromGemini (Fulfilled "Sorry, I cannot help with that."))
      = Some (t1, saved1,
              Await (Executing executeTask
                       (JObj [("raw", JStr "Sorry, I cannot help with that.")])))
      ∧ hops (envelope t1) = S (hops (envelope sample_task))
      ∧ run_entry (builtins := sample_builtins) quiet_host executeTask t1
          (JObj [("raw", JStr "Sorry, I cannot help with that.")]) fresh_world
        = (Fulfilled result, fresh_world)
      ∧ prop result "results" = Some (JArr [])
      ∧ resume (builtins := sample_builtins) t1
          (Executing executeTask
             (JObj [("raw", JStr "Sorry, I cannot help with that.")]))
          (FromExecutor (Fulfilled result))
        = Some (t2, saved2, Await (Verifying result))
      ∧ status t2 = verifying
      ∧ consecutive_failures (envelope t2)
        = consecutive_failures (envelope sample_task).
Proof.
  assert (H1 : planExecution (builtins := sample_builtins) sample_task
                 (Fulfilled "Sorry, I cannot help with that.")
               = Fulfilled (JObj [("raw", JStr "Sorry, I cannot help with that.")]))
    by (vm_compute; reflexivity).
  exact (conj H1 (plan_without_steps_runs_nothing (builtins := sample_builtins) quiet_host sample_task
                    (Fulfilled "Sorry, I cannot help with that.")
                    (JObj [("raw", JStr "Sorry, I cannot help with that.")])
                    executeTask fresh_world H1 eq_refl eq_refl)).
Defined.

(** Twelve failed planning calls in a row, two more than [ttl_max]: the
    sample task is still queued, at hop 0. *)
Lemma failed_planning_is_retried_without_bound_witness :
  has_slice (builtins := sample_builtins) (Some (JStr "enter the invoices")) = true
  ∧ ∃ q t,
      run (builtins := sample_builtins) (empty_queue (Some 3%Z))
        (sample_submit :: failing_rounds "fetch failed" 12) = Some q
      ∧ queue q = [0]
      ∧ heap q !! 0 = Some t
      ∧ consecutive_failures (envelope t) = 12
      ∧ hops (envelope t) = 0.
Proof.
  assert (H1 : has_slice (builtins := sample_builtins) (Some (JStr "enter the invoices")) = true)
    by reflexivity.
  exact (conj H1 (failed_planning_is_retried_without_bound
                    (builtins := sample_builtins) "LEGACY-1"
                    (Some (JStr "enter the invoices")) None None []
                    "2026-01-05T09:00:00Z" "fetch failed" 12 H1)).
Defined.

(** The holders of the sample task while its tenth verdict is awaited. *)
Lemma task_is_held_once_witness :
  sample_run tenth_pass = Some tenth_verdict_due
  ∧ NoDup (queue tenth_verdict_due ++ (passes tenth_verdict_due).*1).
Proof.
  assert (H1 : sample_run tenth_pass = Some tenth_verdict_due)
    by (vm_compute; reflexivity).
  exact (conj H1 (proj1 (task_is_held_once (builtins := sample_builtins)
                           (Some 3%Z) tenth_pass tenth_verdict_due H1))).
Defined.
